(** * Reachability and identity tracking of the monitoring agent

    A shallow embedding of [windows/agent.py]: the prober [ping_ip], the
    resolver [get_mac_address], the rediscovery scan [scan_network_for_mac]
    and the camera loop of [run_once], followed by the properties of the
    specification that can be stated over them.  Around this core the
    embedding covers the network checks [test_network], the roster that
    [run_once] builds from the server and local configurations, the state
    file with [load_or_create_agent_id], and the download loop of
    [speedtest], with further properties of all of them.

    Conventions of the embedding.
    - Text is a [string] whose characters stand for code points below 256
      (the "e" with acute accent of the Portuguese ping summary is code
      point 233).  Case mapping, white space and line boundaries are
      Python's, restricted to that block (see [Py.upper_char] for the
      three letters whose upper-case form is not a character of it).
    - A float is an IEEE 754 double, and [float(s)] rounds to the nearest
      one as CPython does.
    - The camera loop is given twice: on cameras whose names and
      addresses are strings ([Camera.t], [camera_step]), and on the
      dictionaries of the roster with any value in them
      ([camera_step_value]); the two agree where both apply
      ([camera_step_value_typed]).
    - An external command is an oracle: each call of [subprocess.run]
      receives its outcome (a completed process or a raised exception) as
      an argument.  Clock readings are arguments as well.
    - A Python exception is the [Raise] case of the type [result]; a
      [try]/[except Exception] block is [try_except]. *)

From Stdlib Require Import String Ascii List ZArith NArith QArith Lia DecimalString.
From stdpp Require Import gmap strings.

(** ** Exceptions *)

Inductive exn : Type := Exception (text : string).

Definition str_exn (e : exn) : string :=
  match e with Exception t => t end.

Inductive result (A : Type) : Type :=
| Ret (a : A)
| Raise (e : exn).
Arguments Ret {A} a.
Arguments Raise {A} e.

Definition bind {A B : Type} (c : result A) (f : A -> result B) : result B :=
  match c with
  | Ret a => f a
  | Raise e => Raise e
  end.

Notation "x <- c ;; k" := (bind c (fun x => k))
  (at level 20, c at level 99, k at level 200, only parsing).
Notation "' pat <- c ;; k" := (bind c (fun x => match x with pat => k end))
  (at level 20, pat pattern, c at level 99, k at level 200, only parsing).

Definition try_except {A} (body : result A) (handler : exn -> result A) : result A :=
  match body with
  | Ret a => Ret a
  | Raise e => handler e
  end.

(** ** Python string primitives *)

Module Py.

Definition code (c : ascii) : N := N_of_ascii c.

Definition between (lo hi : N) (c : ascii) : bool :=
  ((lo <=? code c) && (code c <=? hi))%N.

Definition is_code (n : N) (c : ascii) : bool := (code c =? n)%N.

(** [str.lower] and [str.upper], character by character.  Three letters
    of the block have no upper-case form of one character in it:
    [str.upper] turns 223 into the two letters "SS", and 181 and 255
    into letters beyond the block.  [upper_char] leaves the three as
    they are.  The code applies [upper] to the hardware addresses it
    reads and to the target of the sweep; a text holding one of the
    three letters, or what [str.upper] makes of it, equals no
    hardware address in canonical form, so that no comparison of the
    sweep depends on them. *)
Definition lower_char (c : ascii) : ascii :=
  if between 65 90 c || (between 192 222 c && negb (is_code 215 c))
  then ascii_of_N (code c + 32) else c.

Definition upper_char (c : ascii) : ascii :=
  if between 97 122 c || (between 224 254 c && negb (is_code 247 c))
  then ascii_of_N (code c - 32) else c.

Fixpoint map_chars (f : ascii -> ascii) (s : string) : string :=
  match s with
  | EmptyString => EmptyString
  | String c s' => String (f c) (map_chars f s')
  end.

Definition lower : string -> string := map_chars lower_char.
Definition upper : string -> string := map_chars upper_char.

(** [str.isspace] on one character; also the class [\s]. *)
Definition isspace (c : ascii) : bool :=
  between 9 13 c || between 28 32 c || is_code 133 c || is_code 160 c.

(** The class [\d]. *)
Definition isdigit (c : ascii) : bool := between 48 57 c.

(** The class [[0-9A-Fa-f]]. *)
Definition ishex (c : ascii) : bool :=
  between 48 57 c || between 65 70 c || between 97 102 c.

(** Line boundaries of [str.splitlines]. *)
Definition is_linebreak (c : ascii) : bool :=
  between 10 13 c || between 28 30 c || is_code 133 c.

Definition cons_head (c : ascii) (l : list string) : list string :=
  match l with
  | [] => [String c EmptyString]
  | x :: xs => String c x :: xs
  end.

Fixpoint splitlines (s : string) : list string :=
  match s with
  | EmptyString => []
  | String c s' =>
      if is_linebreak c then
        EmptyString ::
          match s' with
          | EmptyString => []
          | String c2 s'' =>
              if is_code 13 c && is_code 10 c2 then splitlines s'' else splitlines s'
          end
      else cons_head c (splitlines s')
  end.

Fixpoint lstrip (s : string) : string :=
  match s with
  | EmptyString => EmptyString
  | String c s' => if isspace c then lstrip s' else s
  end.

Fixpoint rstrip (s : string) : string :=
  match s with
  | EmptyString => EmptyString
  | String c s' =>
      match rstrip s' with
      | EmptyString => if isspace c then EmptyString else String c EmptyString
      | r => String c r
      end
  end.

Definition strip (s : string) : string := rstrip (lstrip s).

(** [sub in s]. *)
Fixpoint contains (sub s : string) : bool :=
  String.prefix sub s ||
  match s with
  | EmptyString => false
  | String _ s' => contains sub s'
  end.

Definition startswith (s pre : string) : bool := String.prefix pre s.

(** [s.split(sep)] for a non-empty separator: [skip] counts the characters
    of a separator occurrence still to be passed over. *)
Fixpoint split_go (sep : string) (skip : nat) (s : string) : list string :=
  match s with
  | EmptyString => [EmptyString]
  | String c s' =>
      match skip with
      | S k => split_go sep k s'
      | O =>
          if String.prefix sep s
          then EmptyString :: split_go sep (String.length sep - 1) s'
          else cons_head c (split_go sep 0 s')
      end
  end.

Definition split (s sep : string) : list string := split_go sep 0 s.

(** [l[i]] for [i >= 0]; out of range raises [IndexError]. *)
Definition index {A} (l : list A) (i : nat) : result A :=
  match nth_error l i with
  | Some x => Ret x
  | None => Raise (Exception "list index out of range")
  end.

(** [l[-1]]. *)
Definition index_last {A} (l : list A) : result A :=
  index (rev l) 0.

(** [s.replace(old, new)] for one-character [old] and [new]. *)
Definition replace (old new : ascii) (s : string) : string :=
  map_chars (fun c => if Ascii.eqb c old then new else c) s.

(** [s[-n:]] for [n > 0]. *)
Definition last_chars (n : nat) (s : string) : string :=
  substring (String.length s - n) n s.

(** [s[i:j]]. *)
Definition slice (i j : nat) (s : string) : string := substring i (j - i) s.

(** [str(n)] for a non-negative [int]. *)
Definition str_of_nat (n : nat) : string :=
  NilEmpty.string_of_uint (Nat.to_uint n).

(** Truth value of a string and of an optional string. *)
Definition truthy (s : string) : bool :=
  match s with EmptyString => false | _ => true end.

Definition truthy_opt (o : option string) : bool :=
  match o with Some s => truthy s | None => false end.

(** *** [float(s)]

    A float is an IEEE 754 double.  A finite one other than the negative
    zero is represented by the rational it equals, in lowest terms.
    [float(s)] is the double nearest to the number the literal denotes,
    ties going to the even significand, with overflow to infinity and
    underflow to the subnormals and to zero, as CPython computes it. *)

Inductive pyfloat : Type :=
| Finite (q : Q)
| NegZero
| Inf (negative : bool)
| NaN.

(** The white space [float] skips at both ends of its argument: the
    ASCII white space and the two spaces of the block above 127.  The
    separators 28 to 31, which [str.strip] removes, are not part of it. *)
Definition float_space (c : ascii) : bool :=
  between 9 13 c || is_code 32 c || is_code 133 c || is_code 160 c.

Fixpoint lstrip_by (p : ascii -> bool) (s : string) : string :=
  match s with
  | EmptyString => EmptyString
  | String c s' => if p c then lstrip_by p s' else s
  end.

Fixpoint rstrip_by (p : ascii -> bool) (s : string) : string :=
  match s with
  | EmptyString => EmptyString
  | String c s' =>
      match rstrip_by p s' with
      | EmptyString => if p c then EmptyString else String c EmptyString
      | r => String c r
      end
  end.

(** [digitpart ::= digit (["_"] digit)*] *)
Fixpoint digitpart_ok (after_digit : bool) (s : string) : bool :=
  match s with
  | EmptyString => after_digit
  | String c s' =>
      if isdigit c then digitpart_ok true s'
      else if is_code 95 c then after_digit && digitpart_ok false s'
      else false
  end.

Fixpoint digits_value (acc : N) (s : string) : N :=
  match s with
  | EmptyString => acc
  | String c s' =>
      if isdigit c then digits_value (10 * acc + (code c - 48)) s'
      else digits_value acc s'
  end.

Fixpoint count_digits (s : string) : nat :=
  match s with
  | EmptyString => 0
  | String c s' => (if isdigit c then 1 else 0) + count_digits s'
  end.

(** Cut [s] at the first character satisfying [p]. *)
Fixpoint cut_at (p : ascii -> bool) (s : string) : string * option string :=
  match s with
  | EmptyString => (EmptyString, None)
  | String c s' =>
      if p c then (EmptyString, Some s')
      else let '(a, b) := cut_at p s' in (String c a, b)
  end.

Definition take_sign (s : string) : bool * string :=
  match s with
  | String c s' =>
      if is_code 45 c then (true, s')
      else if is_code 43 c then (false, s')
      else (false, s)
  | EmptyString => (false, s)
  end.

Definition opt_digitpart_ok (s : string) : bool :=
  match s with EmptyString => true | _ => digitpart_ok false s end.

(** The integer nearest to [num / den], ties to the even one, for
    [num >= 0] and [den > 0]. *)
Definition round_half_even (num den : Z) : Z :=
  let fl := (num / den)%Z in
  match (2 * (num mod den) ?= den)%Z with
  | Lt => fl
  | Gt => (fl + 1)%Z
  | Eq => if Z.even fl then fl else (fl + 1)%Z
  end.

(** The integer part of the binary logarithm of [n / d], for positive
    [n] and [d]. *)
Definition binade (n d : Z) : Z :=
  let e0 := (Z.log2 n - Z.log2 d)%Z in
  if (if (0 <=? e0)%Z then (d * 2 ^ e0 <=? n)%Z else (d <=? n * 2 ^ (- e0))%Z)
  then e0 else (e0 - 1)%Z.

(** The double nearest to [n / d], for positive [n] and [d]: 53 bits of
    significand from the binade of the number, or what the least
    exponent -1022 leaves of them; [None] is the overflow. *)
Definition nearest_double (n d : Z) : option Q :=
  let e := Z.max (binade n d) (-1022) in
  if (1024 <=? e)%Z then None else
  let t := (e - 52)%Z in
  let m := if (0 <=? t)%Z then round_half_even n (d * 2 ^ t)
           else round_half_even (n * 2 ^ (- t)) d in
  if (e =? 1023)%Z && (2 ^ 53 <=? m)%Z then None
  else Some (if (0 <=? t)%Z then inject_Z (m * 2 ^ t)
             else Qred (m # Z.to_pos (2 ^ (- t)))).

Definition signed_zero (neg : bool) : pyfloat :=
  if neg then NegZero else Finite 0.

Definition double_of_ratio (neg : bool) (n d : Z) : pyfloat :=
  match nearest_double n d with
  | None => Inf neg
  | Some q =>
      if Qeq_bool q 0 then signed_zero neg
      else Finite (if neg then Qopp q else q)
  end.

(** The double of [m * 10 ^ scale] for [m >= 0].  The two tests on the
    size only spare the computation of powers that cannot matter: above
    [2 ^ 1025] the result is infinite, below [2 ^ -1075] it is zero. *)
Definition double_of_decimal (neg : bool) (m scale : Z) : pyfloat :=
  if (m =? 0)%Z then signed_zero neg
  else if (0 <=? scale)%Z then
    if (1025 <=? Z.log2 m + 3 * scale)%Z then Inf neg
    else double_of_ratio neg (m * 10 ^ scale) 1
  else
    if (Z.log2 m + 1 + 3 * scale <? -1075)%Z then signed_zero neg
    else double_of_ratio neg m (10 ^ (- scale)).

Definition parse_number (neg : bool) (s : string) : option pyfloat :=
  let '(mant, expo) := cut_at (fun c => is_code 101 c || is_code 69 c) s in
  let '(ipart, fpart) := cut_at (is_code 46) mant in
  let frac := match fpart with Some f => f | None => EmptyString end in
  let mant_ok :=
    opt_digitpart_ok ipart && opt_digitpart_ok frac
    && (truthy ipart || truthy frac) in
  let expo_val :=
    match expo with
    | None => Some 0%Z
    | Some e =>
        let '(eneg, ed) := take_sign e in
        if digitpart_ok false ed
        then Some (if eneg then (- Z.of_N (digits_value 0 ed))%Z
                   else Z.of_N (digits_value 0 ed))
        else None
    end in
  match mant_ok, expo_val with
  | true, Some e =>
      let m := Z.of_N (digits_value 0 (ipart +:+ frac)) in
      let scale := (e - Z.of_nat (count_digits frac))%Z in
      Some (double_of_decimal neg m scale)
  | _, _ => None
  end.

Definition float_of_str (s : string) : option pyfloat :=
  let '(neg, body) := take_sign (rstrip_by float_space (lstrip_by float_space s)) in
  let low := lower body in
  if String.eqb low "inf" || String.eqb low "infinity" then Some (Inf neg)
  else if String.eqb low "nan" then Some NaN
  else parse_number neg body.

(** The exception carries the message of [ValueError] with the argument
    between quotes; [repr]'s escapes of the argument are not written
    out (no caller of the agent looks at this text). *)
Definition float (s : string) : result pyfloat :=
  match float_of_str s with
  | Some v => Ret v
  | None => Raise (Exception ("could not convert string to float: '" +:+ s +:+ "'"))
  end.

(** [x >= bound] and [x > bound] for a float [x] and a finite [bound]. *)
Definition float_ge (x : pyfloat) (bound : Q) : bool :=
  match x with
  | Finite q => Qle_bool bound q
  | NegZero => Qle_bool bound 0
  | Inf negative => negb negative
  | NaN => false
  end.

Definition float_gt (x : pyfloat) (bound : Q) : bool :=
  match x with
  | Finite q => negb (Qle_bool q bound)
  | NegZero => negb (Qle_bool 0 bound)
  | Inf negative => negb negative
  | NaN => false
  end.

End Py.

(** ** Regular expressions of the [re] module

    A backtracking matcher for the fragment the agent uses: literals,
    character classes, concatenation, greedy [?], [*], [+], [{n}] and
    numbered groups.  [ic] is the flag [re.IGNORECASE]. *)

Module Re.

Inductive re : Type :=
| Eps
| Lit (c : ascii)
| Class (p : ascii -> bool)
| Cat (a b : re)
| Opt (a : re)
| Star (a : re)
| Group (i : nat) (a : re).

Definition Plus (a : re) : re := Cat a (Star a).

Fixpoint Rep (n : nat) (a : re) : re :=
  match n with
  | O => Eps
  | S n' => Cat a (Rep n' a)
  end.

Fixpoint Lits (s : string) : re :=
  match s with
  | EmptyString => Eps
  | String c s' => Cat (Lit c) (Lits s')
  end.

Definition lit_matches (ic : bool) (c d : ascii) : bool :=
  if ic then Ascii.eqb (Py.lower_char c) (Py.lower_char d) else Ascii.eqb c d.

(** The text of each group that took part in the match, latest first. *)
Definition captures : Type := list (nat * string).

Definition consumed (s s' : string) : string :=
  substring 0 (String.length s - String.length s') s.

Section Matcher.
Context {R : Type}.
Variable ic : bool.

Definition cont : Type := string -> captures -> option R.

(** Greedy iteration: one more round of [step] if it succeeds and
    consumes something, otherwise the continuation. *)
Fixpoint star_loop (step : string -> captures -> cont -> option R)
         (fuel : nat) (s : string) (cs : captures) (k : cont) : option R :=
  match fuel with
  | O => k s cs
  | S fuel' =>
      match step s cs (fun s' cs' =>
              if String.length s' <? String.length s
              then star_loop step fuel' s' cs' k else None) with
      | Some r => Some r
      | None => k s cs
      end
  end.

Fixpoint run (r : re) (s : string) (cs : captures) (k : cont) : option R :=
  match r with
  | Eps => k s cs
  | Lit c =>
      match s with
      | String d s' => if lit_matches ic c d then k s' cs else None
      | EmptyString => None
      end
  | Class p =>
      match s with
      | String d s' => if p d then k s' cs else None
      | EmptyString => None
      end
  | Cat a b => run a s cs (fun s' cs' => run b s' cs' k)
  | Opt a =>
      match run a s cs k with
      | Some x => Some x
      | None => k s cs
      end
  | Star a => star_loop (run a) (String.length s) s cs k
  | Group i a => run a s cs (fun s' cs' => k s' ((i, consumed s s') :: cs'))
  end.
End Matcher.

(** A match object: [group(0)] and the numbered groups. *)
Record match_obj : Type := { group0 : string; groups : captures }.

Fixpoint lookup_group (i : nat) (cs : captures) : option string :=
  match cs with
  | [] => None
  | (j, w) :: cs' => if Nat.eqb i j then Some w else lookup_group i cs'
  end.

(** [m.group(i)] for a group that took part in the match. *)
Definition group (m : match_obj) (i : nat) : string :=
  match i with
  | O => group0 m
  | S _ => match lookup_group i (groups m) with Some w => w | None => EmptyString end
  end.

Definition match_at (ic : bool) (r : re) (s : string) : option match_obj :=
  run ic r s [] (fun s' cs => Some {| group0 := consumed s s'; groups := cs |}).

(** [re.search(pattern, s, flags)]: the leftmost position with a match. *)
Fixpoint search (ic : bool) (r : re) (s : string) : option match_obj :=
  match match_at ic r s with
  | Some m => Some m
  | None =>
      match s with
      | EmptyString => None
      | String _ s' => search ic r s'
      end
  end.

Definition found (o : option match_obj) : bool :=
  match o with Some _ => true | None => false end.

End Re.

(** ** The patterns of the agent *)

Definition digit : Re.re := Re.Class Py.isdigit.
Definition space : Re.re := Re.Class Py.isspace.
Definition hex : Re.re := Re.Class Py.ishex.
Definition is_separator (c : ascii) : bool := Ascii.eqb c ":" || Ascii.eqb c "-".
Definition colon_or_hyphen : Re.re := Re.Class is_separator.

(** ["(\d+)\s*ms"] *)
Definition pat_avg_ms : Re.re :=
  Re.Cat (Re.Group 1 (Re.Plus digit)) (Re.Cat (Re.Star space) (Re.Lits "ms")).

(** ["\((\d+)\s*%"] *)
Definition pat_loss : Re.re :=
  Re.Cat (Re.Lit "(")
    (Re.Cat (Re.Group 1 (Re.Plus digit)) (Re.Cat (Re.Star space) (Re.Lit "%"))).

(** [success_patterns] *)
Definition pat_bytes_from : Re.re :=
  Re.Cat (Re.Lits "byte") (Re.Cat (Re.Opt (Re.Lit "s"))
    (Re.Cat (Re.Plus space) (Re.Lits "from"))).
Definition pat_resposta_de : Re.re :=
  Re.Cat (Re.Lits "resposta") (Re.Cat (Re.Plus space) (Re.Lits "de")).
Definition pat_reply_from : Re.re :=
  Re.Cat (Re.Lits "reply") (Re.Cat (Re.Plus space) (Re.Lits "from")).
Definition pat_ttl : Re.re :=
  Re.Cat (Re.Lits "ttl") (Re.Cat (Re.Star space) (Re.Lit "=")).

Definition success_patterns : list Re.re :=
  [pat_bytes_from; pat_resposta_de; pat_reply_from; pat_ttl].

(** [mac_patterns]: ["([0-9A-Fa-f]{2}[:-]){5}([0-9A-Fa-f]{2})"] and
    ["([0-9A-Fa-f]{12})"]. *)
Definition pat_mac_separated : Re.re :=
  Re.Cat (Re.Rep 5 (Re.Group 1 (Re.Cat (Re.Rep 2 hex) colon_or_hyphen)))
         (Re.Group 2 (Re.Rep 2 hex)).
Definition pat_mac_bare : Re.re := Re.Group 1 (Re.Rep 12 hex).

Definition mac_patterns : list Re.re := [pat_mac_separated; pat_mac_bare].

(** ** External commands *)

Record completed_process : Type :=
  { returncode : Z; stdout : string; stderr : string }.

(** [subprocess.run(cmd, capture_output=True, text=True, timeout=...)]:
    the outcome of the [n]-th call made with the command line [cmd]. *)
Definition subprocess : Type := list string -> nat -> result completed_process.

(** [proc.stdout + proc.stderr] *)
Definition output_of (proc : completed_process) : string :=
  stdout proc +:+ stderr proc.

(** ** Reachability prober: [ping_ip] *)

(** The word "media" of the Portuguese summary, its second letter being
    the "e" with acute accent. *)
Definition media : string := String "m" (String (ascii_of_N 233) "dia").

(** One pass of [for line in ...] over a state [S]. *)
Fixpoint for_each {A S : Type} (l : list A) (body : S -> A -> result S) (st : S)
  : result S :=
  match l with
  | [] => Ret st
  | x :: l' => st' <- body st x;; for_each l' body st'
  end.

(** The Windows branch: the summary lines in Portuguese or English. *)
Definition parse_windows (output : string)
  : result (option Py.pyfloat * option Py.pyfloat) :=
  avg_ms <- for_each (Py.splitlines output) (fun avg_ms line =>
    let line := Py.strip line in
    if Py.contains media (Py.lower line) || Py.contains "average" (Py.lower line)
    then match Re.search true pat_avg_ms line with
         | Some m => v <- Py.float (Re.group m 1);; Ret (Some v)
         | None => Ret avg_ms
         end
    else Ret avg_ms) None;;
  loss_pct <- for_each (Py.splitlines output) (fun loss_pct line =>
    if Py.contains "perdidos" (Py.lower line) || Py.contains "lost" (Py.lower line)
    then match Re.search false pat_loss line with
         | Some m => v <- Py.float (Re.group m 1);; Ret (Some v)
         | None => Ret loss_pct
         end
    else Ret loss_pct) None;;
  Ret (avg_ms, loss_pct).

(** The Linux/mac branch: the [rtt] and [packet loss] lines. *)
Definition parse_posix (output : string)
  : result (option Py.pyfloat * option Py.pyfloat) :=
  avg_ms <- for_each (Py.splitlines output) (fun avg_ms line =>
    if Py.contains "rtt min/avg/max" line || Py.contains "round-trip min/avg/max" line
    then try_except
           (last <- Py.index_last (Py.split line "=");;
            let part := Py.split (Py.strip last) "/" in
            p1 <- Py.index part 1;;
            v <- Py.float p1;;
            Ret (Some v))
           (fun _ => Ret avg_ms)
    else Ret avg_ms) None;;
  loss_pct <- for_each (Py.splitlines output) (fun loss_pct line =>
    if Py.contains "% packet loss" line
    then try_except
           (head <- Py.index (Py.split line "% packet loss") 0;;
            last <- Py.index_last (Py.split head " ");;
            v <- Py.float last;;
            Ret (Some v))
           (fun _ => Ret loss_pct)
    else Ret loss_pct) None;;
  Ret (avg_ms, loss_pct).

(** [any(re.search(pattern, output, re.IGNORECASE) for pattern in success_patterns)] *)
Definition has_success (output : string) : bool :=
  existsb (fun pattern => Re.found (Re.search true pattern output)) success_patterns.

Definition is_none {A} (o : option A) : bool :=
  match o with None => true | Some _ => false end.

Definition loss_is_total (loss_pct : option Py.pyfloat) : bool :=
  match loss_pct with
  | Some v => Py.float_ge v 100
  | None => false
  end.

(** [(reachable, avg_latency_ms, packet_loss_percent, raw_output_tail)] *)
Definition probe : Type :=
  (bool * option Py.pyfloat * option Py.pyfloat * string)%type.

Definition reachable_of (p : probe) : bool := p.1.1.1.
Definition avg_ms_of (p : probe) : option Py.pyfloat := p.1.1.2.
Definition loss_of (p : probe) : option Py.pyfloat := p.1.2.
Definition tail_of (p : probe) : string := p.2.

Definition ping_cmd (is_windows : bool) (ip : string) (count timeout_ms : nat)
  : list string :=
  if is_windows
  then ["ping"; "-n"; Py.str_of_nat count; "-w"; Py.str_of_nat timeout_ms; ip]
  else ["ping"; "-c"; Py.str_of_nat count; "-W"; "1"; ip].

(** The flags of one attempt after the two validations, with the whole
    output: the [try] block up to its [if reachable]. *)
Definition ping_evaluate (is_windows : bool) (proc : completed_process)
  : result (bool * option Py.pyfloat * option Py.pyfloat * string) :=
  let output := output_of proc in
  let reachable := (returncode proc =? 0)%Z in
  '(avg_ms, loss_pct) <-
    (if is_windows then parse_windows output else parse_posix output);;
  let reachable :=
    if reachable && loss_is_total loss_pct then false else reachable in
  let reachable :=
    if reachable && is_none avg_ms
    then (if negb (has_success output) then false else reachable)
    else reachable in
  Ret (reachable, avg_ms, loss_pct, output).

(** The body of the [try] of one attempt: [inl] is the [return] from
    inside the loop, [inr] the new [last_error]. *)
Definition ping_attempt (is_windows : bool) (run : result completed_process)
  : result (probe + string) :=
  proc <- run;;
  '(reachable, avg_ms, loss_pct, output) <- ping_evaluate is_windows proc;;
  if reachable
  then Ret (inl (reachable, avg_ms, loss_pct, Py.last_chars 500 output))
  else Ret (inr (Py.last_chars 500 output)).

(** One round of the loop: the [try] with its [except Exception as e]. *)
Definition ping_try (is_windows : bool) (run : result completed_process)
  : result (probe + string) :=
  try_except
    (ping_attempt is_windows run)
    (fun e => Ret (inr ("ping error: " +:+ str_exn e))).

Definition or_default (last_error : option string) (default : string) : string :=
  if Py.truthy_opt last_error
  then match last_error with Some s => s | None => default end
  else default.

(** [for attempt in range(retry)], from attempt number [attempt] with
    [remaining] rounds to go. *)
Fixpoint ping_loop (is_windows : bool) (run : nat -> result completed_process)
         (remaining attempt : nat) (last_error : option string) : result probe :=
  match remaining with
  | O => Ret (false, None, None, or_default last_error "ping failed after retries")
  | S remaining' =>
      step <- ping_try is_windows (run attempt);;
      match step with
      | inl p => Ret p
      | inr last_error' =>
          ping_loop is_windows run remaining' (S attempt) (Some last_error')
      end
  end.

Definition ping_ip (is_windows : bool) (sp : subprocess)
           (ip : string) (count timeout_ms retry : nat) : result probe :=
  let cmd := ping_cmd is_windows ip count timeout_ms in
  ping_loop is_windows (sp cmd) retry 0 None.

(** ** Hardware address resolver: [get_mac_address] *)

(** [":".join([mac[i:i+2] for i in range(0, 12, 2)])] *)
Definition join_pairs (mac : string) : string :=
  String.concat ":" (map (fun i => Py.slice i (i + 2) mac) [0; 2; 4; 6; 8; 10]).

Definition normalize_mac (mac : string) : string :=
  let mac := Py.replace "-" ":" mac in
  let mac := if String.length mac =? 12 then join_pairs mac else mac in
  Py.upper mac.

(** [for pattern in mac_patterns: ...] *)
Fixpoint first_mac (patterns : list Re.re) (output : string) : option string :=
  match patterns with
  | [] => None
  | pattern :: rest =>
      match Re.search false pattern output with
      | Some m => Some (normalize_mac (Re.group m 0))
      | None => first_mac rest output
      end
  end.

Definition arp_cmd (is_windows : bool) (ip : string) : list string :=
  if is_windows then ["arp"; "-a"; ip] else ["arp"; "-n"; ip].

Definition get_mac_address (is_windows : bool) (sp : subprocess) (ip : string)
  : result (option string) :=
  try_except
    (_ <- ping_ip is_windows sp ip 1 500 1;;
     proc <- sp (arp_cmd is_windows ip) 0;;
     let output := output_of proc in
     Ret (first_mac mac_patterns output))
    (fun e => Ret None).

(** ** Rediscovery scanner: [scan_network_for_mac] *)

(** What the thread pool contributes to one sweep.  [started i] is the
    value of [time.time() - start_time] read on entry to [check_ip(i)],
    [finished i] is the same clock when that unit of work completes (the
    code never reads it), and [yielded] lists the suffixes in the order
    in which [as_completed] hands their futures to the main loop. *)
Record schedule : Type :=
  { started : nat -> Q; finished : nat -> Q; yielded : list nat }.

Definition check_ip (is_windows : bool) (sp : subprocess) (sched : schedule)
           (mac_normalized network_prefix : string) (timeout_sec : Z)
           (suffix : nat) : result (option string) :=
  if negb (Qle_bool (started sched suffix) (inject_Z timeout_sec))
  then Ret None
  else
    let ip := network_prefix +:+ Py.str_of_nat suffix in
    found_mac <- get_mac_address is_windows sp ip;;
    match found_mac with
    | Some found =>
        if Py.truthy found && String.eqb (Py.upper found) mac_normalized
        then Ret (Some ip)
        else Ret None
    | None => Ret None
    end.

(** [for future in as_completed(futures)]: the first truthy result is
    returned, a future that raises is passed over. *)
Fixpoint first_completed (results : list (result (option string))) : option string :=
  match results with
  | [] => None
  | future :: rest =>
      match future with
      | Ret (Some ip) => if Py.truthy ip then Some ip else first_completed rest
      | Ret None => first_completed rest
      | Raise _ => first_completed rest
      end
  end.

Definition scan_network_for_mac (is_windows : bool) (sp : subprocess)
           (sched : schedule) (mac network_prefix : string) (timeout_sec : Z)
  : option string :=
  let mac_normalized := Py.replace "-" ":" (Py.upper mac) in
  first_completed
    (map (check_ip is_windows sp sched mac_normalized network_prefix timeout_sec)
         (yielded sched)).

(** ** Monitoring cycle: the camera loop of [run_once] *)

(** A dictionary of the roster whose ["ip"] is a string and whose
    ["name"] and ["id"] are strings or missing.  The roster itself can
    hold any value under these keys; [camera_step_value] below is the
    body of the loop for all of them. *)
Module Camera.
Record t : Type := { id : option string; name : option string; ip : string }.
End Camera.

(** An entry of [camera_mac_cache].  An entry read back without a ["mac"]
    key behaves as one whose [mac] is empty: both are falsy and differ
    from every resolved address. *)
Module Entry.
Record t : Type := { mac : string; last_ip : string; last_seen : Q }.
End Entry.

Module Report.
Record t : Type :=
  { name : option string;
    ip : string;
    status : string;
    latency_ms : option Py.pyfloat;
    packet_loss : option Py.pyfloat;
    suspicious : bool;
    mac_address : option string;
    ip_changed : bool;
    old_ip : option string }.
End Report.

(** The persisted state: the identity cache under its own key, next to
    the keys of the other subsystems. *)
Module State.
Record t : Type :=
  { camera_mac_cache : option (gmap string Entry.t);
    other_keys : gmap string string }.
End State.

(** What the outside contributes to the evaluation of one camera. *)
Record world : Type :=
  { subprocess_run : subprocess;
    pool : schedule;
    time_time : Q }.

(** The variables of the loop body that the MAC tracking block may
    reassign. *)
Module Locals.
Record t : Type :=
  { reachable : bool;
    avg_ms : option Py.pyfloat;
    loss : option Py.pyfloat;
    ip : string;
    mac_address : option string;
    ip_changed : bool;
    mac_cache : gmap string Entry.t;
    mac_cache_updated : bool }.
End Locals.

Definition or_else (a b : option string) : option string :=
  if Py.truthy_opt a then a else b.

(** [str(cam_id)] *)
Definition str_opt (o : option string) : string :=
  match o with Some s => s | None => "None" end.

Definition cam_key (c : Camera.t) : string :=
  str_opt (or_else (or_else (Camera.id c) (Camera.name c)) (Some (Camera.ip c))).

Definition is_suspicious (reachable : bool) (avg_ms : option Py.pyfloat)
           (ip : string) : bool :=
  if reachable && match avg_ms with Some v => Py.float_gt v 500 | None => false end
  then (if existsb (Py.startswith ip) ["192.168."; "10."; "172."] then true else false)
  else false.

(** The cache write of the online branch, [RECORD(mac, current_address)]
    of the specification: the entry is replaced when the key is new or
    its [mac] differs; the flag tells whether it was.  The write of a
    relocation, [RECORD(M, B)], is part of [track_offline]. *)
Definition record (key mac_address ip : string) (now : Q)
           (mac_cache : gmap string Entry.t) : gmap string Entry.t * bool :=
  let fresh := {| Entry.mac := mac_address;
                  Entry.last_ip := ip;
                  Entry.last_seen := now |} in
  match mac_cache !! key with
  | None => (<[key := fresh]> mac_cache, true)
  | Some e =>
      if negb (String.eqb (Entry.mac e) mac_address)
      then (<[key := fresh]> mac_cache, true)
      else (mac_cache, false)
  end.

(** The branch [if reachable:] of the tracking block. *)
Definition track_online (is_windows : bool) (w : world) (key : string)
           (l : Locals.t) : result Locals.t :=
  mac_address <- get_mac_address is_windows (subprocess_run w) (Locals.ip l);;
  let '(mac_cache, written) :=
    match mac_address with
    | Some m =>
        if Py.truthy m
        then record key m (Locals.ip l) (time_time w) (Locals.mac_cache l)
        else (Locals.mac_cache l, false)
    | None => (Locals.mac_cache l, false)
    end in
  Ret {| Locals.reachable := Locals.reachable l;
         Locals.avg_ms := Locals.avg_ms l;
         Locals.loss := Locals.loss l;
         Locals.ip := Locals.ip l;
         Locals.mac_address := mac_address;
         Locals.ip_changed := Locals.ip_changed l;
         Locals.mac_cache := mac_cache;
         Locals.mac_cache_updated :=
           if written then true else Locals.mac_cache_updated l |}.

(** [".".join(ip_parts[:3]) + "."] *)
Definition prefix_of (ip_parts : list string) : string :=
  String.concat "." (firstn 3 ip_parts) +:+ ".".

(** The branch [elif not reachable and str(cam_id) in mac_cache:]. *)
Definition track_offline (is_windows : bool) (w : world) (key : string)
           (entry : Entry.t) (l : Locals.t) : result Locals.t :=
  let ip := Locals.ip l in
  let cached_mac := Entry.mac entry in
  if negb (Py.truthy cached_mac) then Ret l else
  let ip_parts := Py.split ip "." in
  if negb (length ip_parts =? 4) then Ret l else
  let network_prefix := prefix_of ip_parts in
  let new_ip :=
    scan_network_for_mac is_windows (subprocess_run w) (pool w)
                         cached_mac network_prefix 30 in
  match new_ip with
  | Some new_ip =>
      if Py.truthy new_ip && negb (String.eqb new_ip ip) then
        '(reachable, avg_ms, loss, _out) <-
          ping_ip is_windows (subprocess_run w) new_ip 4 1000 2;;
        Ret {| Locals.reachable := reachable;
               Locals.avg_ms := avg_ms;
               Locals.loss := loss;
               Locals.ip := if reachable then new_ip else ip;
               Locals.mac_address := Locals.mac_address l;
               Locals.ip_changed := true;
               Locals.mac_cache :=
                 if reachable
                 then <[key := {| Entry.mac := Entry.mac entry;
                                  Entry.last_ip := new_ip;
                                  Entry.last_seen := time_time w |}]>
                        (Locals.mac_cache l)
                 else Locals.mac_cache l;
               Locals.mac_cache_updated :=
                 if reachable then true else Locals.mac_cache_updated l |}
      else Ret l
  | None => Ret l
  end.

(** The block [if mac_tracking_enabled:]. *)
Definition track (is_windows mac_tracking_enabled : bool) (w : world)
           (key : string) (l : Locals.t) : result Locals.t :=
  if mac_tracking_enabled then
    if Locals.reachable l then track_online is_windows w key l
    else match Locals.mac_cache l !! key with
         | Some entry => track_offline is_windows w key entry l
         | None => Ret l
         end
  else Ret l.

(** The dictionary appended to [cam_reports]. *)
Definition report_of (c : Camera.t) (suspicious : bool) (l : Locals.t) : Report.t :=
  {| Report.name := Camera.name c;
     Report.ip := Locals.ip l;
     Report.status := if Locals.reachable l then "up" else "down";
     Report.latency_ms := Locals.avg_ms l;
     Report.packet_loss := Locals.loss l;
     Report.suspicious := suspicious;
     Report.mac_address := Locals.mac_address l;
     Report.ip_changed := Locals.ip_changed l;
     Report.old_ip := if Locals.ip_changed l then Some (Camera.ip c) else None |}.

(** The body of [for c in cameras:]: the report to append, the cache and
    the flag [mac_cache_updated]. *)
Definition camera_step (is_windows mac_tracking_enabled : bool) (w : world)
           (mac_cache : gmap string Entry.t) (mac_cache_updated : bool)
           (c : Camera.t) : result (Report.t * gmap string Entry.t * bool) :=
  let ip := Camera.ip c in
  '(reachable, avg_ms, loss, _out) <-
    ping_ip is_windows (subprocess_run w) ip 4 1000 2;;
  let suspicious := is_suspicious reachable avg_ms ip in
  l <- track is_windows mac_tracking_enabled w (cam_key c)
         {| Locals.reachable := reachable;
            Locals.avg_ms := avg_ms;
            Locals.loss := loss;
            Locals.ip := ip;
            Locals.mac_address := None;
            Locals.ip_changed := false;
            Locals.mac_cache := mac_cache;
            Locals.mac_cache_updated := mac_cache_updated |};;
  Ret (report_of c suspicious l, Locals.mac_cache l, Locals.mac_cache_updated l).

(** [for c in cameras:], the [n]-th camera being evaluated in the world
    [worlds n]. *)
Fixpoint camera_loop (is_windows mac_tracking_enabled : bool) (worlds : nat -> world)
         (n : nat) (cameras : list Camera.t)
         (cam_reports : list Report.t)
         (mac_cache : gmap string Entry.t) (mac_cache_updated : bool)
  : result (list Report.t * gmap string Entry.t * bool) :=
  match cameras with
  | [] => Ret (cam_reports, mac_cache, mac_cache_updated)
  | c :: rest =>
      '(report, mac_cache, mac_cache_updated) <-
        camera_step is_windows mac_tracking_enabled (worlds n)
                    mac_cache mac_cache_updated c;;
      camera_loop is_windows mac_tracking_enabled worlds (S n) rest
                  (cam_reports ++ [report]) mac_cache mac_cache_updated
  end.

(** Step 3 of [run_once] with the write-back that follows it: the reports
    and the state handed to [_save_state], if it is called. *)
Definition run_once_cameras (is_windows mac_tracking_enabled : bool)
           (worlds : nat -> world) (state : State.t) (cameras : list Camera.t)
  : result (list Report.t * option State.t) :=
  let mac_cache :=
    match State.camera_mac_cache state with Some m => m | None => ∅ end in
  '(cam_reports, mac_cache, mac_cache_updated) <-
    camera_loop is_windows mac_tracking_enabled worlds 0 cameras [] mac_cache false;;
  Ret (cam_reports,
       if mac_cache_updated
       then Some {| State.camera_mac_cache := Some mac_cache;
                    State.other_keys := State.other_keys state |}
       else None).

(** ** Vocabulary of the statements *)

(** The average latency the parser extracts from an output, if any. *)
Definition parsed_avg (is_windows : bool) (output : string) : option Py.pyfloat :=
  match (if is_windows then parse_windows output else parse_posix output) with
  | Ret (avg_ms, _) => avg_ms
  | Raise _ => None
  end.

(** An attempt succeeds with the data [p] it hands back. *)
Definition attempt_succeeds (is_windows : bool) (run : result completed_process)
           (p : probe) : Prop :=
  exists proc avg_ms loss_pct output,
    run = Ret proc /\
    ping_evaluate is_windows proc = Ret (true, avg_ms, loss_pct, output) /\
    p = (true, avg_ms, loss_pct, Py.last_chars 500 output).

(** An attempt fails and leaves the diagnostic [d]: the tail of its output
    when the command ran, the text of the exception when it could not. *)
Definition attempt_fails (is_windows : bool) (run : result completed_process)
           (d : string) : Prop :=
  (exists proc avg_ms loss_pct output,
      run = Ret proc /\
      ping_evaluate is_windows proc = Ret (false, avg_ms, loss_pct, output) /\
      d = Py.last_chars 500 output)
  \/
  (exists e, run = Raise e /\ d = "ping error: " +:+ str_exn e).

(** *** Addresses in words

    The canonical form of a hardware address, and the occurrences of an
    address in a text, stated without regular expressions. *)

Definition is_upper_hex (c : ascii) : bool :=
  Py.between 48 57 c || Py.between 65 70 c.

(** [n] colon-separated octets of two upper-case hexadecimal digits. *)
Fixpoint octets (n : nat) (s : string) : bool :=
  match n with
  | O => false
  | S n' =>
      match s with
      | String a (String b rest) =>
          is_upper_hex a && is_upper_hex b &&
          match rest with
          | EmptyString => Nat.eqb n' 0
          | String c rest' => Ascii.eqb c ":" && octets n' rest'
          end
      | _ => false
      end
  end.

Definition canonical_mac (s : string) : bool := octets 6 s.

(** The head of [s] whose characters satisfy the tests [ps] one by one,
    with what follows it. *)
Fixpoint split_head (ps : list (ascii -> bool)) (s : string)
  : option (string * string) :=
  match ps with
  | [] => Some (EmptyString, s)
  | p :: ps' =>
      match s with
      | String c s' =>
          if p c
          then match split_head ps' s' with
               | Some (w, rest) => Some (String c w, rest)
               | None => None
               end
          else None
      | EmptyString => None
      end
  end.

(** The leftmost place of [s] where such a head starts. *)
Fixpoint first_occurrence (ps : list (ascii -> bool)) (s : string) : option string :=
  match split_head ps s with
  | Some (w, _) => Some w
  | None =>
      match s with
      | EmptyString => None
      | String _ s' => first_occurrence ps s'
      end
  end.

(** Six pairs of hexadecimal digits with a colon or a hyphen between
    them, and twelve hexadecimal digits in a row. *)
Definition separated_mac : list (ascii -> bool) :=
  concat (repeat [Py.ishex; Py.ishex; is_separator] 5) ++ [Py.ishex; Py.ishex].

Definition bare_mac : list (ascii -> bool) := repeat Py.ishex 12.

(** What the resolver makes of a command output: the leftmost separated
    address if there is one, otherwise the leftmost bare one, in canonical
    form. *)
Definition first_mac_spec (output : string) : option string :=
  match first_occurrence separated_mac output with
  | Some w => Some (normalize_mac w)
  | None =>
      match first_occurrence bare_mac output with
      | Some w => Some (normalize_mac w)
      | None => None
      end
  end.

(** The text of the address the resolver settles on: the leftmost one
    written with colons or hyphens, or, when the output has none, the
    leftmost run of twelve hexadecimal digits. *)
Definition found_address (output : string) : option string :=
  match first_occurrence separated_mac output with
  | Some w => Some w
  | None => first_occurrence bare_mac output
  end.

(** The first address of the output by position, whatever its form. *)
Fixpoint leftmost_address (s : string) : option string :=
  match split_head separated_mac s with
  | Some (w, _) => Some w
  | None =>
      match split_head bare_mac s with
      | Some (w, _) => Some w
      | None =>
          match s with
          | EmptyString => None
          | String _ s' => leftmost_address s'
          end
      end
  end.

(** The canonical form of an address, in the words of the
    specification: its hexadecimal digits in upper case, in pairs joined
    by colons. *)
Definition upper_hex_digit (c : ascii) : ascii :=
  if Py.between 97 102 c then ascii_of_N (Py.code c - 32) else c.

Fixpoint hex_digits (s : string) : string :=
  match s with
  | EmptyString => EmptyString
  | String c s' =>
      if Py.ishex c then String (upper_hex_digit c) (hex_digits s')
      else hex_digits s'
  end.

Fixpoint colon_pairs (s : string) : string :=
  match s with
  | String a (String b rest) =>
      match rest with
      | EmptyString => String a (String b EmptyString)
      | String _ _ => String a (String b (String ":" (colon_pairs rest)))
      end
  | _ => s
  end.

Definition canonical_form (w : string) : string := colon_pairs (hex_digits w).

(** Normalisation character by character. *)
Definition normal_char (c : ascii) : ascii :=
  Py.upper_char (if Ascii.eqb c "-" then ":"%char else c).

(** The texts a pattern matches. *)
Inductive lang (ic : bool) : Re.re -> string -> Prop :=
| lang_eps : lang ic Re.Eps EmptyString
| lang_lit c d :
    Re.lit_matches ic c d = true -> lang ic (Re.Lit c) (String d EmptyString)
| lang_class (p : ascii -> bool) d :
    p d = true -> lang ic (Re.Class p) (String d EmptyString)
| lang_cat a b w1 w2 :
    lang ic a w1 -> lang ic b w2 -> lang ic (Re.Cat a b) (w1 +:+ w2)
| lang_opt_none a : lang ic (Re.Opt a) EmptyString
| lang_opt_some a w : lang ic a w -> lang ic (Re.Opt a) w
| lang_star_nil a : lang ic (Re.Star a) EmptyString
| lang_star_cons a w1 w2 :
    lang ic a w1 -> lang ic (Re.Star a) w2 -> lang ic (Re.Star a) (w1 +:+ w2)
| lang_group i a w : lang ic a w -> lang ic (Re.Group i a) w.

(** A pattern without groups. *)
Fixpoint groupless (r : Re.re) : bool :=
  match r with
  | Re.Eps | Re.Lit _ | Re.Class _ => true
  | Re.Cat a b => groupless a && groupless b
  | Re.Opt a | Re.Star a => groupless a
  | Re.Group _ _ => false
  end.

(** A non-empty run of decimal digits. *)
Fixpoint all_digits (s : string) : bool :=
  match s with
  | EmptyString => true
  | String c s' => Py.isdigit c && all_digits s'
  end.

Definition is_number (s : string) : bool := Py.truthy s && all_digits s.

(** The character tests of a pattern without [?] and [*]. *)
Fixpoint flat (r : Re.re) : bool :=
  match r with
  | Re.Eps | Re.Lit _ | Re.Class _ => true
  | Re.Cat a b => flat a && flat b
  | Re.Group _ a => flat a
  | Re.Opt _ | Re.Star _ => false
  end.

Fixpoint tests (ic : bool) (r : Re.re) : list (ascii -> bool) :=
  match r with
  | Re.Eps => []
  | Re.Lit c => [Re.lit_matches ic c]
  | Re.Class p => [p]
  | Re.Cat a b => tests ic a ++ tests ic b
  | Re.Group _ a => tests ic a
  | Re.Opt _ | Re.Star _ => []
  end.

(** *** The sweep in words *)

(** The unit of work of [suffix] resolves its address to [m]. *)
Definition resolves (is_windows : bool) (sp : subprocess) (network_prefix : string)
           (suffix : nat) (m : string) : Prop :=
  get_mac_address is_windows sp (network_prefix +:+ Py.str_of_nat suffix)
  = Ret (Some m).

(** [m] is the target up to case, the target's hyphens read as colons. *)
Definition matches_target (m mac : string) : Prop :=
  Py.upper m = Py.replace "-" ":" (Py.upper mac).

(** The unit of [suffix] resolves to an address case-insensitively equal
    to the target. *)
Definition unit_matches (is_windows : bool) (sp : subprocess)
           (network_prefix mac : string) (suffix : nat) : Prop :=
  exists m,
    resolves is_windows sp network_prefix suffix m /\ Py.upper m = Py.upper mac.

(** The unit of [suffix] resolves to an address equal to the target once
    the target is written in upper case with colons for its hyphens. *)
Definition unit_matches_target (is_windows : bool) (sp : subprocess)
           (network_prefix mac : string) (suffix : nat) : Prop :=
  exists m,
    resolves is_windows sp network_prefix suffix m /\ matches_target m mac.

(** Every unit of the sweep starts and completes before the deadline. *)
Definition completes_within (sched : schedule) (timeout_sec : Z) : Prop :=
  forall i, In i (seq 1 254) ->
    (started sched i <= finished sched i)%Q /\
    (finished sched i <= inject_Z timeout_sec)%Q.

(** *** The cycle in words *)

(** The probe of the camera's configured address. *)
Definition first_probe (is_windows : bool) (w : world) (c : Camera.t) : result probe :=
  ping_ip is_windows (subprocess_run w) (Camera.ip c) 4 1000 2.

Definition entry_at (mac ip : string) (now : Q) : Entry.t :=
  {| Entry.mac := mac; Entry.last_ip := ip; Entry.last_seen := now |}.

(** The camera answers at its address and that address resolves to the
    canonical hardware address [m]. *)
Definition sighted_in_place (is_windows : bool) (w : world) (c : Camera.t)
           (m : string) : Prop :=
  (exists p, first_probe is_windows w c = Ret p /\ reachable_of p = true) /\
  get_mac_address is_windows (subprocess_run w) (Camera.ip c) = Ret (Some m) /\
  canonical_mac m = true.

(** The camera is silent at its address, the sweep resolves the other
    address [new_ip] to a canonical hardware address that is the cached
    one, and the probe of [new_ip] is answered. *)
Definition sighted_elsewhere (is_windows : bool) (w : world) (c : Camera.t)
           (cached_mac new_ip : string) : Prop :=
  (exists p, first_probe is_windows w c = Ret p /\ reachable_of p = false) /\
  new_ip <> Camera.ip c /\
  (exists network_prefix i m,
      scan_network_for_mac is_windows (subprocess_run w) (pool w)
                           cached_mac network_prefix 30 = Some new_ip /\
      new_ip = network_prefix +:+ Py.str_of_nat i /\
      resolves is_windows (subprocess_run w) network_prefix i m /\
      canonical_mac m = true /\
      matches_target m cached_mac) /\
  (exists p', ping_ip is_windows (subprocess_run w) new_ip 4 1000 2 = Ret p' /\
              reachable_of p' = true).

(** How the cache and its flag may differ after the evaluation of one
    camera: not at all, or by the entry of that camera written on one of
    the two kinds of sighting. *)
Definition write_justified (is_windows : bool) (w : world) (c : Camera.t)
           (cache : gmap string Entry.t) (updated : bool)
           (cache' : gmap string Entry.t) (updated' : bool) : Prop :=
  (cache' = cache /\ updated' = updated)
  \/
  (exists m,
      sighted_in_place is_windows w c m /\
      cache' = <[cam_key c := entry_at m (Camera.ip c) (time_time w)]> cache /\
      updated' = true)
  \/
  (exists e new_ip,
      cache !! cam_key c = Some e /\
      sighted_elsewhere is_windows w c (Entry.mac e) new_ip /\
      cache' = <[cam_key c := entry_at (Entry.mac e) new_ip (time_time w)]> cache /\
      updated' = true).

(** The camera was sighted, at its address or elsewhere. *)
Definition sighted (is_windows : bool) (w : world) (c : Camera.t) : Prop :=
  (exists m, sighted_in_place is_windows w c m) \/
  (exists cached_mac new_ip, sighted_elsewhere is_windows w c cached_mac new_ip).

(** The three kinds of negative evidence. *)
Definition failed_resolution (is_windows : bool) (w : world) (c : Camera.t) : Prop :=
  (exists p, first_probe is_windows w c = Ret p /\ reachable_of p = true) /\
  get_mac_address is_windows (subprocess_run w) (Camera.ip c) = Ret None.

Definition failed_rediscovery (is_windows : bool) (w : world) (c : Camera.t) : Prop :=
  (exists p, first_probe is_windows w c = Ret p /\ reachable_of p = false) /\
  forall mac network_prefix,
    scan_network_for_mac is_windows (subprocess_run w) (pool w)
                         mac network_prefix 30 = None.

Definition failed_probes (is_windows : bool) (w : world) : Prop :=
  forall ip p,
    ping_ip is_windows (subprocess_run w) ip 4 1000 2 = Ret p ->
    reachable_of p = false.

(** ** Scenarios *)

Definition proc_of (code : Z) (out : string) : completed_process :=
  {| returncode := code; stdout := out; stderr := EmptyString |}.

(** A Windows summary line with a latency and no reply line. *)
Definition summary_only : completed_process :=
  proc_of 0 "    Minimum = 4ms, Maximum = 4ms, Average = 4ms".

(** A Windows reply with its summary. *)
Definition reply_700ms : completed_process :=
  proc_of 0 "Reply from 10.0.0.9: bytes=32 time=700ms TTL=64
    Minimum = 700ms, Maximum = 700ms, Average = 700ms".

Definition request_timed_out : completed_process :=
  proc_of 1 "Request timed out.".

(** A command that fails without printing anything. *)
Definition silent_failure : completed_process := proc_of 1 EmptyString.

(** A command that exits with 0 and shows neither a reply nor a latency. *)
Definition exit_zero_no_reply : completed_process :=
  proc_of 0 "PING: transmit failed. General failure.".

(** The first attempt times out, the second is answered. *)
Definition sp_second_attempt : subprocess :=
  fun _ n => match n with
             | O => Ret request_timed_out
             | S _ => Ret reply_700ms
             end.

(** The table holds the sought address for 10.0.0.9 and nothing for the
    other addresses; the priming pings time out as exceptions, the probe
    of 10.0.0.9 ends as [reprobe], every other probe times out. *)
Definition arp_hit : completed_process :=
  proc_of 0 "  10.0.0.9             aa-bb-cc-dd-ee-ff     dynamic".

Definition arp_miss : completed_process := proc_of 1 "No ARP Entries Found.".

Definition sp_moved (reprobe : completed_process) : subprocess :=
  fun cmd _ =>
    match cmd with
    | ["arp"; _; "10.0.0.9"] => Ret arp_hit
    | "arp" :: _ => Ret arp_miss
    | ["ping"; _; "1"; _; _; _] => Raise (Exception "Command timed out")
    | ["ping"; _; "4"; _; _; "10.0.0.9"] => Ret reprobe
    | _ => Ret request_timed_out
    end.

(** Every unit runs from [from] to [to] on the sweep's clock. *)
Definition sched_uniform (from to : Q) (order : list nat) : schedule :=
  {| started := fun _ => from; finished := fun _ => to; yielded := order |}.

(** The suffixes other than 9 resolve to nothing. *)
Definition only_nine_resolves (sp : subprocess) : bool :=
  forallb (fun j =>
             Nat.eqb j 9 ||
             match get_mac_address true sp ("10.0.0." +:+ Py.str_of_nat j) with
             | Ret None => true
             | _ => false
             end) (seq 1 254).

(** A camera configured at 10.0.0.5 whose hardware address is cached. *)
Definition camera_5 : Camera.t :=
  {| Camera.id := None; Camera.name := Some "cam1"; Camera.ip := "10.0.0.5" |}.

Definition known_entry : Entry.t := entry_at "AA:BB:CC:DD:EE:FF" "10.0.0.5" 100.

Definition known_cache : gmap string Entry.t := {[ "cam1" := known_entry ]}.

(** The camera has moved to 10.0.0.9; the sweep runs in time. *)
Definition world_moved (reprobe : completed_process) : world :=
  {| subprocess_run := sp_moved reprobe;
     pool := sched_uniform 1 2 (seq 1 254);
     time_time := 200 |}.

(** Every command fails to start. *)
Definition world_without_commands : world :=
  {| subprocess_run := fun _ _ => Raise (Exception "[WinError 2] file not found");
     pool := sched_uniform 1 2 (seq 1 254);
     time_time := 200 |}.

(** The table command prints a run of twelve hexadecimal digits and,
    after it, an address written with hyphens. *)
Definition arp_two_addresses : completed_process :=
  proc_of 0 "0123456789ab 00-1a-2b-3c-4d-5e".

Definition sp_two_addresses : subprocess :=
  fun cmd _ =>
    match cmd with
    | "arp" :: _ => Ret arp_two_addresses
    | _ => Ret request_timed_out
    end.

(** ** Further vocabulary: the prober *)

(** The packet loss the parser extracts from an output, if any. *)
Definition parsed_loss (is_windows : bool) (output : string) : option Py.pyfloat :=
  match (if is_windows then parse_windows output else parse_posix output) with
  | Ret (_, loss_pct) => loss_pct
  | Raise _ => None
  end.

(** A completed process passes the validations of an attempt: it exited
    with 0, its parsed loss is not total, and it shows a latency or a
    reply. *)
Definition passes (is_windows : bool) (proc : completed_process) : bool :=
  (returncode proc =? 0)%Z
  && negb (loss_is_total (parsed_loss is_windows (output_of proc)))
  && (negb (is_none (parsed_avg is_windows (output_of proc)))
      || has_success (output_of proc)).

(** What the probe hands back for a process that passes. *)
Definition data_of (is_windows : bool) (proc : completed_process) : probe :=
  (true, parsed_avg is_windows (output_of proc),
   parsed_loss is_windows (output_of proc),
   Py.last_chars 500 (output_of proc)).

(** Attempt [n] is the first one whose process passes. *)
Definition first_passing (is_windows : bool) (run : nat -> result completed_process)
           (n : nat) (proc : completed_process) : Prop :=
  run n = Ret proc /\ passes is_windows proc = true /\
  forall j proc', j < n -> run j = Ret proc' -> passes is_windows proc' = false.

(** A reply with its summary that reports every packet lost. *)
Definition reply_all_lost : completed_process :=
  proc_of 0 "Reply from 10.0.0.1: Destination host unreachable.
    Packets: Sent = 4, Received = 0, Lost = 4 (100% loss),".


(** ** Further vocabulary: the sweep *)

(** The unit of [suffix] starts within the deadline and resolves its
    address to the target. *)
Definition unit_hits (is_windows : bool) (sp : subprocess) (sched : schedule)
           (mac network_prefix : string) (timeout_sec : Z) (suffix : nat) : Prop :=
  (started sched suffix <= inject_Z timeout_sec)%Q /\
  exists m, resolves is_windows sp network_prefix suffix m /\ matches_target m mac.

(** Two devices answer with the sought address, at 10.0.0.9 and at
    10.0.0.200. *)
Definition sp_twins : subprocess :=
  fun cmd _ =>
    match cmd with
    | ["arp"; _; "10.0.0.9"] => Ret arp_hit
    | ["arp"; _; "10.0.0.200"] =>
        Ret (proc_of 0 "  10.0.0.200           AA:BB:CC:DD:EE:FF     dynamic")
    | "arp" :: _ => Ret arp_miss
    | _ => Ret request_timed_out
    end.

(** None of the suffixes [js] resolves to anything. *)
Definition none_resolves (sp : subprocess) (js : list nat) : bool :=
  forallb (fun j =>
             match get_mac_address true sp ("10.0.0." +:+ Py.str_of_nat j) with
             | Ret None => true
             | _ => false
             end) js.

(** The priming ping is answered and the table holds the address. *)
Definition sp_primed : subprocess :=
  fun cmd _ =>
    match cmd with
    | "arp" :: _ => Ret arp_hit
    | _ => Ret reply_700ms
    end.


(** The target's normalisation, character by character:
    [mac.upper().replace("-", ":")]. *)
Definition normalized_char (c : ascii) : ascii :=
  if Ascii.eqb (Py.upper_char c) "-" then ":"%char else Py.upper_char c.


(** ** Further vocabulary: the camera loop *)

(** The locals of the loop body as the first probe leaves them. *)
Definition locals_of (p : probe) (c : Camera.t)
           (mac_cache : gmap string Entry.t) (mac_cache_updated : bool) : Locals.t :=
  {| Locals.reachable := reachable_of p;
     Locals.avg_ms := avg_ms_of p;
     Locals.loss := loss_of p;
     Locals.ip := Camera.ip c;
     Locals.mac_address := None;
     Locals.ip_changed := false;
     Locals.mac_cache := mac_cache;
     Locals.mac_cache_updated := mac_cache_updated |}.

(** The locals after the online branch resolved the address to
    [mac_address]. *)
Definition locals_online (w : world) (p : probe) (c : Camera.t)
           (mac_address : option string)
           (mac_cache : gmap string Entry.t) (mac_cache_updated : bool) : Locals.t :=
  {| Locals.reachable := reachable_of p;
     Locals.avg_ms := avg_ms_of p;
     Locals.loss := loss_of p;
     Locals.ip := Camera.ip c;
     Locals.mac_address := mac_address;
     Locals.ip_changed := false;
     Locals.mac_cache :=
       match mac_address with
       | Some m => (record (cam_key c) m (Camera.ip c) (time_time w) mac_cache).1
       | None => mac_cache
       end;
     Locals.mac_cache_updated :=
       match mac_address with
       | Some m =>
           if (record (cam_key c) m (Camera.ip c) (time_time w) mac_cache).2
           then true else mac_cache_updated
       | None => mac_cache_updated
       end |}.

(** The locals after the sweep found [new_ip] and the second probe
    ended as [p']. *)
Definition locals_relocated (w : world) (p' : probe) (c : Camera.t)
           (entry : Entry.t) (new_ip : string)
           (mac_cache : gmap string Entry.t) (mac_cache_updated : bool) : Locals.t :=
  {| Locals.reachable := reachable_of p';
     Locals.avg_ms := avg_ms_of p';
     Locals.loss := loss_of p';
     Locals.ip := if reachable_of p' then new_ip else Camera.ip c;
     Locals.mac_address := None;
     Locals.ip_changed := true;
     Locals.mac_cache :=
       if reachable_of p'
       then <[cam_key c := entry_at (Entry.mac entry) new_ip (time_time w)]> mac_cache
       else mac_cache;
     Locals.mac_cache_updated :=
       if reachable_of p' then true else mac_cache_updated |}.

(** The sweep is not run, or it returns nothing, or it returns the
    configured address itself. *)
Definition no_relocation (is_windows : bool) (w : world) (c : Camera.t)
           (cache : gmap string Entry.t) : Prop :=
  cache !! cam_key c = None \/
  exists e,
    cache !! cam_key c = Some e /\
    (Py.truthy (Entry.mac e) = false \/
     length (Py.split (Camera.ip c) ".") <> 4 \/
     scan_network_for_mac is_windows (subprocess_run w) (pool w) (Entry.mac e)
                          (prefix_of (Py.split (Camera.ip c) ".")) 30 = None \/
     scan_network_for_mac is_windows (subprocess_run w) (pool w) (Entry.mac e)
                          (prefix_of (Py.split (Camera.ip c) ".")) 30
     = Some (Camera.ip c)).

(** A camera configured by name instead of a dotted address. *)
Definition camera_by_name : Camera.t :=
  {| Camera.id := None; Camera.name := Some "cam1"; Camera.ip := "camera.local" |}.


(** The sweep is run for the camera and returns an address other than
    the configured one: the first probe failed, the cache holds a
    non-empty hardware address for the camera, the configured address
    has four dot-separated parts, and the sweep of its first three finds
    [new_ip]. *)
Definition sweep_finds (is_windows : bool) (w : world) (c : Camera.t)
           (cache : gmap string Entry.t) (e : Entry.t) (new_ip : string) : Prop :=
  (exists p, first_probe is_windows w c = Ret p /\ reachable_of p = false) /\
  cache !! cam_key c = Some e /\
  Py.truthy (Entry.mac e) = true /\
  length (Py.split (Camera.ip c) ".") = 4 /\
  scan_network_for_mac is_windows (subprocess_run w) (pool w) (Entry.mac e)
                       (prefix_of (Py.split (Camera.ip c) ".")) 30 = Some new_ip /\
  new_ip <> Camera.ip c.


(** The camera answers and its address resolves; the clock reads [now]. *)
Definition world_primed (now : Q) : world :=
  {| subprocess_run := sp_primed;
     pool := sched_uniform 1 2 (seq 1 254);
     time_time := now |}.


(** ** Network checks: [test_network] *)

(** The dictionary [net] that [test_network] returns. *)
Module Net.
Record t : Type :=
  { ping_1_1_1_1_ms : option Py.pyfloat;
    ping_8_8_8_8_ms : option Py.pyfloat;
    dns_ok : bool;
    http_ok : bool }.
End Net.

(** A response of [requests]: the calls return one, whatever its status
    code, or raise. *)
Record response : Type := { status_code : Z; text : string }.

(** [socket.gethostbyname(name)] returns an address or raises;
    [requests.get(url, timeout=t)] returns a response or raises. *)
Definition test_network (is_windows : bool) (sp : subprocess)
           (gethostbyname : string -> result string)
           (requests_get : string -> nat -> result response) : result Net.t :=
  '(reachable_1, avg1, _l, _o) <- ping_ip is_windows sp "1.1.1.1" 4 1000 2;;
  '(reachable_8, avg8, _l, _o) <- ping_ip is_windows sp "8.8.8.8" 4 1000 2;;
  dns_ok <- try_except (_ <- gethostbyname "google.com";; Ret true)
                       (fun _ => Ret false);;
  http_ok <- try_except (_ <- requests_get "https://www.google.com" 5;; Ret true)
                        (fun _ => Ret false);;
  Ret {| Net.ping_1_1_1_1_ms := if reachable_1 then avg1 else None;
         Net.ping_8_8_8_8_ms := if reachable_8 then avg8 else None;
         Net.dns_ok := dns_ok;
         Net.http_ok := http_ok |}.

(** The latency of the first attempt that passes, among the first
    [retry] runs of the ping command for [ip]. *)
Definition latency_of_first_passing (is_windows : bool) (sp : subprocess)
           (ip : string) (count timeout_ms retry : nat) (v : Py.pyfloat) : Prop :=
  exists n proc,
    n < retry /\
    first_passing is_windows (sp (ping_cmd is_windows ip count timeout_ms)) n proc /\
    parsed_avg is_windows (output_of proc) = Some v.


(** ** JSON documents

    The values [json.loads] and [Response.json] return: [None], booleans,
    integers, floats, strings, lists, and dictionaries with string keys. *)

#[warnings="-register-all"]
Inductive json : Type :=
| JNull
| JBool (b : bool)
| JInt (n : Z)
| JFloat (x : Py.pyfloat)
| JStr (s : string)
| JList (items : list json)
| JDict (members : gmap string json).

(** The truth value of a document. *)
Definition json_truthy (v : json) : bool :=
  match v with
  | JNull => false
  | JBool b => b
  | JInt n => negb (n =? 0)%Z
  | JFloat (Py.Finite q) => negb (Qeq_bool q 0)
  | JFloat Py.NegZero => false
  | JFloat _ => true
  | JStr s => Py.truthy s
  | JList items => match items with [] => false | _ => true end
  | JDict members => if decide (members = ∅) then false else true
  end.

(** [type(v).__name__] *)
Definition type_name (v : json) : string :=
  match v with
  | JNull => "NoneType"
  | JBool _ => "bool"
  | JInt _ => "int"
  | JFloat _ => "float"
  | JStr _ => "str"
  | JList _ => "list"
  | JDict _ => "dict"
  end.

(** [d.get(key)] on a dictionary. *)
Definition dict_get (d : gmap string json) (key : string) : json :=
  match d !! key with Some v => v | None => JNull end.

(** [v.get(key)] on any document: only dictionaries have the method. *)
Definition attr_get (v : json) (key : string) : result json :=
  match v with
  | JDict d => Ret (dict_get d key)
  | _ => Raise (Exception ("'" +:+ type_name v +:+ "' object has no attribute 'get'"))
  end.

(** [d[key]] on a dictionary. *)
Definition subscript (d : gmap string json) (key : string) : result json :=
  match d !! key with
  | Some v => Ret v
  | None => Raise (Exception ("'" +:+ key +:+ "'"))
  end.

(** ** The roster of [run_once] *)

(** [cfg.get("cameras") if isinstance(cfg.get("cameras"), list) else []]
    of [load_agent_config]: the local list of cameras is a list. *)
Definition local_cameras (cfg : gmap string json) : list json :=
  match dict_get cfg "cameras" with
  | JList items => items
  | _ => []
  end.

(** [if isinstance(c, dict) and c.get("ip"):] with the dictionary that is
    appended to [cameras]. *)
Definition roster_entry (c : json) : option (gmap string json) :=
  match c with
  | JDict d =>
      if json_truthy (dict_get d "ip")
      then Some {[ "name" := dict_get d "name"; "ip" := dict_get d "ip" ]}
      else None
  | _ => None
  end.

(** One of the two [for c in ...:] loops. *)
Fixpoint roster_loop (source : list json) (cameras : list (gmap string json))
  : list (gmap string json) :=
  match source with
  | [] => cameras
  | c :: rest =>
      roster_loop rest
        (match roster_entry c with
         | Some entry => cameras ++ [entry]
         | None => cameras
         end)
  end.

(** The roster: [conf] is what [fetch_server_config] returned ([None] or
    the document of the response), [local] the list of the local
    configuration. *)
Definition build_roster (conf : json) (local : list json)
  : result (list (gmap string json)) :=
  from_server <-
    (if json_truthy conf
     then (v <- attr_get conf "cameras";;
           Ret (match v with JList _ => true | _ => false end))
     else Ret false);;
  if from_server then
    match conf with
    | JDict d =>
        v <- subscript d "cameras";;
        match v with
        | JList items => Ret (roster_loop items [])
        | _ => Raise (Exception ("'" +:+ type_name v +:+ "' object is not iterable"))
        end
    | _ => Raise (Exception ("'" +:+ type_name conf +:+ "' object is not subscriptable"))
    end
  else Ret (roster_loop local []).

(** The camera loop's reading of a roster dictionary, [c.get("ip")],
    [c.get("name")] and [c.get("id")], where these are strings or
    [None]. *)
Definition str_value (v : json) : option (option string) :=
  match v with
  | JNull => Some None
  | JStr s => Some (Some s)
  | _ => None
  end.

Definition camera_of (c : gmap string json) : option Camera.t :=
  match dict_get c "ip", str_value (dict_get c "name"), str_value (dict_get c "id") with
  | JStr ip, Some name, Some id =>
      Some {| Camera.id := id; Camera.name := name; Camera.ip := ip |}
  | _, _, _ => None
  end.

(** The entries a source list contributes, in order. *)
Definition entries_of (source : list json) : list (gmap string json) :=
  omap roster_entry source.

(** A server configuration whose list of cameras is empty. *)
Definition conf_without_cameras : json :=
  JDict {[ "cameras" := JList []; "interval_sec" := JInt 30 ]}.

Definition local_camera : json :=
  JDict {[ "id" := JStr "7"; "name" := JStr "gate"; "ip" := JStr "10.0.0.5" ]}.


(** ** The state file and the agent's identifier *)

(** [agent_state.json]: absent, or present with what
    [json.loads(p.read_text())] does on it, return a document or raise. *)
Inductive file : Type :=
| Absent
| Present (content : result json).

Definition _load_state (f : file) : gmap string json :=
  match f with
  | Absent => ∅
  | Present content =>
      match try_except (data <- content;;
                        Ret (match data with JDict d => d | _ => ∅ end))
                       (fun _ => Ret ∅) with
      | Ret d => d
      | Raise _ => ∅
      end
  end.

(** [_save_state(state)]: an exception of the write is swallowed, so
    that all the call shows is the file it leaves; [write_text] gives
    that file, which is [Present (Ret state)] when the write succeeds. *)
Definition _save_state (write_text : json -> file) (state : gmap string json) : file :=
  write_text (JDict state).

(** [platform.node() or os.getenv("COMPUTERNAME", "unknown-host")] *)
Definition get_host_name (node : string) (computername : option string) : string :=
  if Py.truthy node then node
  else match computername with Some v => v | None => "unknown-host" end.

(** [saved_hostname != hostname], the right-hand side being a string. *)
Definition differs_from (v : json) (s : string) : bool :=
  match v with
  | JStr t => negb (String.eqb t s)
  | _ => true
  end.

Section AgentId.
(** [str(v)] of a document of the state file. *)
Variable py_str : json -> string.

(** [fresh] is the first 32 characters of the SHA-256 digest of the
    host name, the time and a random UUID.  The result is the identifier
    with the state file as the call leaves it. *)
Definition load_or_create_agent_id (node : string) (computername : option string)
           (fresh : string) (write_text : json -> file) (f : file) : string * file :=
  let hostname := get_host_name node computername in
  let data := _load_state f in
  let saved_hostname := dict_get data "hostname" in
  let saved_agent_id := dict_get data "agent_id" in
  if differs_from saved_hostname hostname || negb (json_truthy saved_agent_id)
  then
    let agent_id := fresh in
    let state := <["hostname" := JStr hostname]> (<["agent_id" := JStr agent_id]> data) in
    (agent_id, _save_state write_text state)
  else (py_str saved_agent_id, f).
End AgentId.

(** [str] on the documents that are strings; the other documents are not
    used in the examples. *)
Definition str_of_string_document (v : json) : string :=
  match v with JStr s => s | _ => type_name v end.

(** A disk that stores what is written. *)
Definition disk_ok (v : json) : file := Present (Ret v).

(** A state file copied from another machine. *)
Definition copied_state : file :=
  Present (Ret (JDict {[ "hostname" := JStr "office-pc";
                         "agent_id" := JStr "0123456789abcdef0123456789abcdef";
                         "last_speedtest_at" := JInt 1700000000 ]})).


(** ** The download loop of [speedtest] *)

(** The variables of the loop. *)
Module Download.
Record t : Type := { total : nat; chunk_count : nat; t0 : option Q }.
End Download.

(** The entries of [out] that the download block decides.  [timed_from]
    stands for the two floats of the block: [download_mbps] and
    [download_seconds] are computed from the time elapsed since that
    reading of the clock, and stay [None] when it is [None]. *)
Module Out.
Record t : Type :=
  { download_error : option string;
    download_bytes : Z;
    timed_from : option Q }.
End Out.

Definition warmup_chunks : nat := 2.

(** The body of [for chunk in r.iter_content(...)]; [now] is what
    [time.perf_counter()] reads during the iteration. *)
Definition download_step (st : Download.t) (chunk : list Byte.byte) (now : Q)
  : Download.t :=
  match chunk with
  | [] => st
  | _ :: _ =>
      let chunk_count := Download.chunk_count st + 1 in
      let t0 :=
        if chunk_count =? warmup_chunks + 1 then Some now else Download.t0 st in
      let total :=
        if warmup_chunks <? chunk_count
        then Download.total st + length chunk else Download.total st in
      {| Download.total := total;
         Download.chunk_count := chunk_count;
         Download.t0 := t0 |}
  end.

(** The download block.  [download_bytes] is [int(download_bytes)];
    [response] is what the request does: [requests.get] or
    [raise_for_status] raises, or the body is iterated, each iteration
    yielding a chunk (with the reading of the clock) or raising. *)
Definition speedtest_download (download_bytes : Z)
           (response : result (list (result (list Byte.byte * Q)))) : Out.t :=
  let insufficient :=
    {| Out.download_error := Some "Insufficient data received";
       Out.download_bytes := download_bytes;
       Out.timed_from := None |} in
  match (stream <- response;;
         for_each stream
                  (fun st item => '(chunk, now) <- item;;
                                  Ret (download_step st chunk now))
                  {| Download.total := 0;
                     Download.chunk_count := 0;
                     Download.t0 := None |}) with
  | Ret st =>
      match Download.t0 st with
      | Some t0 =>
          if 0 <? Download.total st
          then {| Out.download_error := None;
                  Out.download_bytes := Z.of_nat (Download.total st);
                  Out.timed_from := Some t0 |}
          else insufficient
      | None => insufficient
      end
  | Raise e =>
      {| Out.download_error := Some (str_exn e);
         Out.download_bytes := download_bytes;
         Out.timed_from := None |}
  end.

(** The chunks that are not empty, and the bytes of a list of chunks. *)
Definition received (items : list (list Byte.byte * Q)) : list (list Byte.byte * Q) :=
  List.filter (fun item => match item.1 with [] => false | _ => true end) items.

Definition bytes_of (items : list (list Byte.byte * Q)) : nat :=
  list_sum (map (fun item => length item.1) items).


(** ** Further vocabulary: the Windows summary *)

(** No character of the string is a decimal digit. *)
Fixpoint no_digits (s : string) : bool :=
  match s with
  | EmptyString => true
  | String c s' => negb (Py.isdigit c) && no_digits s'
  end.

(** The line carries one of the two words that select the latency line. *)
Definition latency_line (line : string) : bool :=
  Py.contains media (Py.lower line) || Py.contains "average" (Py.lower line).

(** The line carries one of the two words that select the loss line. *)
Definition loss_line (line : string) : bool :=
  Py.contains "perdidos" (Py.lower line) || Py.contains "lost" (Py.lower line).

(** No character of the string is an opening parenthesis. *)
Fixpoint no_paren (s : string) : bool :=
  match s with
  | EmptyString => true
  | String c s' => negb (Ascii.eqb c "(") && no_paren s'
  end.

(** No line of the list is selected by the test. *)
Definition none_selected (selects : string -> bool) (lines : list string) : bool :=
  forallb (fun line => negb (selects line)) lines.

(** The output of the English [ping] of Windows for four replies of 4 to
    9 milliseconds. *)
Definition windows_reply : string :=
  "Pinging 10.0.0.5 with 32 bytes of data:
Reply from 10.0.0.5: bytes=32 time=4ms TTL=64
Reply from 10.0.0.5: bytes=32 time=9ms TTL=64
Reply from 10.0.0.5: bytes=32 time=5ms TTL=64
Reply from 10.0.0.5: bytes=32 time=6ms TTL=64

Ping statistics for 10.0.0.5:
    Packets: Sent = 4, Received = 4, Lost = 0 (0% loss),
Approximate round trip times in milli-seconds:
    Minimum = 4ms, Maximum = 9ms, Average = 6ms".


(** ** Vocabulary of the statements on the suspicious flag *)

(** The float is greater than the bound, in the order of the rationals. *)
Definition exceeds (v : Py.pyfloat) (bound : Q) : Prop :=
  match v with
  | Py.Finite q => (bound < q)%Q
  | Py.NegZero => (bound < 0)%Q
  | Py.Inf negative => negative = false
  | Py.NaN => False
  end.

(** The text begins with [pre]. *)
Definition begins_with (s pre : string) : Prop := exists rest, s = pre +:+ rest.


(** ** The camera loop on the dictionaries of the roster

    The roster holds dictionaries of the configuration, in which any
    value can stand for a name or an address.  [Camera.t] above is the
    dictionary whose values are strings (or missing); the body of the
    loop is given here for every dictionary.  On an address that is a
    string it is the body above.  On any other address the command line
    of [ping_ip] raises [TypeError] inside its [try] on every attempt,
    and the first method of strings applied to the address raises
    [AttributeError] in the loop itself. *)

(** [a or b] *)
Definition json_or (a b : json) : json := if json_truthy a then a else b.

(** The message of the [TypeError] of [subprocess.run] for a command line
    that holds something else than strings. *)
Definition argument_error (v : json) : string :=
  "expected str, bytes or os.PathLike object, not " +:+ type_name v.

(** The [AttributeError] of a method of strings on another value. *)
Definition attribute_error (v : json) (method : string) : exn :=
  Exception ("'" +:+ type_name v +:+ "' object has no attribute '"
             +:+ method +:+ "'").

(** [ping_ip(ip, ...)] for any value of [ip]. *)
Definition ping_ip_value (is_windows : bool) (sp : subprocess) (ip : json)
           (count timeout_ms retry : nat) : result probe :=
  match ip with
  | JStr s => ping_ip is_windows sp s count timeout_ms retry
  | _ =>
      ping_loop is_windows (fun _ => Raise (Exception (argument_error ip)))
                retry 0 None
  end.

Definition float_value (o : option Py.pyfloat) : json :=
  match o with Some v => JFloat v | None => JNull end.

Definition string_value (o : option string) : json :=
  match o with Some s => JStr s | None => JNull end.

(** The dictionary appended to [cam_reports]. *)
Definition report_value (name ip : json) (reachable : bool)
           (avg_ms loss : option Py.pyfloat) (suspicious : bool)
           (mac_address : option string) (ip_changed : bool) (configured : json)
  : gmap string json :=
  {[ "name" := name;
     "ip" := ip;
     "status" := JStr (if reachable then "up" else "down");
     "latency_ms" := float_value avg_ms;
     "packet_loss" := float_value loss;
     "suspicious" := JBool suspicious;
     "mac_address" := string_value mac_address;
     "ip_changed" := JBool ip_changed;
     "old_ip" := if ip_changed then configured else JNull ]}.

Section RosterLoop.
(** [str(v)] of a value of the roster. *)
Variable py_str : json -> string.

(** The body of [for c in cameras:] for a dictionary [c] of the roster. *)
Definition camera_step_value (is_windows mac_tracking_enabled : bool) (w : world)
           (mac_cache : gmap string Entry.t) (mac_cache_updated : bool)
           (c : gmap string json)
  : result (gmap string json * gmap string Entry.t * bool) :=
  let ip := dict_get c "ip" in
  let name := dict_get c "name" in
  let cam_id := json_or (json_or (dict_get c "id") name) ip in
  match ip with
  | JStr s =>
      '(reachable, avg_ms, loss, _out) <-
        ping_ip is_windows (subprocess_run w) s 4 1000 2;;
      let suspicious := is_suspicious reachable avg_ms s in
      l <- track is_windows mac_tracking_enabled w (py_str cam_id)
             {| Locals.reachable := reachable;
                Locals.avg_ms := avg_ms;
                Locals.loss := loss;
                Locals.ip := s;
                Locals.mac_address := None;
                Locals.ip_changed := false;
                Locals.mac_cache := mac_cache;
                Locals.mac_cache_updated := mac_cache_updated |};;
      Ret (report_value name (JStr (Locals.ip l)) (Locals.reachable l)
                        (Locals.avg_ms l) (Locals.loss l) suspicious
                        (Locals.mac_address l) (Locals.ip_changed l) ip,
           Locals.mac_cache l, Locals.mac_cache_updated l)
  | _ =>
      '(reachable, avg_ms, loss, _out) <-
        ping_ip_value is_windows (subprocess_run w) ip 4 1000 2;;
      (* [ip.startswith((...))] *)
      suspicious <-
        (if reachable
            && match avg_ms with Some v => Py.float_gt v 500 | None => false end
         then Raise (attribute_error ip "startswith")
         else Ret false);;
      _ <-
        (if mac_tracking_enabled then
           if reachable then
             (* [get_mac_address(ip)] is [None], the command line of [arp]
                raising inside its [try]: nothing is recorded *)
             Ret tt
           else
             match mac_cache !! py_str cam_id with
             | Some entry =>
                 if Py.truthy (Entry.mac entry)
                 then (* [ip.split(".")] *)
                      Raise (attribute_error ip "split")
                 else Ret tt
             | None => Ret tt
             end
         else Ret tt);;
      Ret (report_value name ip reachable avg_ms loss suspicious None false JNull,
           mac_cache, mac_cache_updated)
  end.


End RosterLoop.

(** The report of the typed loop as the dictionary it stands for. *)
Definition report_json (r : Report.t) : gmap string json :=
  {[ "name" := string_value (Report.name r);
     "ip" := JStr (Report.ip r);
     "status" := JStr (Report.status r);
     "latency_ms" := float_value (Report.latency_ms r);
     "packet_loss" := float_value (Report.packet_loss r);
     "suspicious" := JBool (Report.suspicious r);
     "mac_address" := string_value (Report.mac_address r);
     "ip_changed" := JBool (Report.ip_changed r);
     "old_ip" := string_value (Report.old_ip r) ]}.








(** * Properties *)

(** ** The prober *)

Section Prober.
Variable is_windows : bool.

Lemma ping_try_returns (run : result completed_process) :
  exists step, ping_try is_windows run = Ret step.
Proof.
  unfold ping_try, try_except.
  destruct (ping_attempt is_windows run); eauto.
Qed.

Lemma ping_try_succeeds run p :
  attempt_succeeds is_windows run p -> ping_try is_windows run = Ret (inl p).
Proof.
  intros (proc & avg & loss & out & -> & Hev & ->).
  unfold ping_try, ping_attempt. cbn. rewrite Hev. reflexivity.
Qed.

Lemma ping_try_fails run d :
  attempt_fails is_windows run d -> ping_try is_windows run = Ret (inr d).
Proof.
  intros [(proc & avg & loss & out & -> & Hev & ->) | (e & -> & ->)];
    unfold ping_try, ping_attempt; cbn; try rewrite Hev; reflexivity.
Qed.

(** The loop never raises: every exception of an attempt is caught. *)
Lemma ping_loop_returns run remaining attempt last_error :
  exists p, ping_loop is_windows run remaining attempt last_error = Ret p.
Proof.
  revert attempt last_error.
  induction remaining as [|remaining IH]; intros attempt last_error; cbn.
  - eauto.
  - destruct (ping_try_returns (run attempt)) as [step ->]. cbn.
    destruct step; eauto.
Qed.

(** Failing rounds are passed over. *)
Lemma ping_loop_skip run failing remaining attempt last_error :
  (forall n, n < failing -> exists d, attempt_fails is_windows (run (attempt + n)) d) ->
  exists last_error',
    ping_loop is_windows run (failing + remaining) attempt last_error
    = ping_loop is_windows run remaining (attempt + failing) last_error'.
Proof.
  revert attempt last_error.
  induction failing as [|failing IH]; intros attempt last_error Hfail.
  - exists last_error. rewrite Nat.add_0_r. reflexivity.
  - destruct (Hfail 0) as [d Hd]; [lia|].
    rewrite Nat.add_0_r in Hd. cbn.
    rewrite (ping_try_fails _ _ Hd). cbn.
    destruct (IH (S attempt) (Some d)) as [le' Hle'].
    + intros n Hn. destruct (Hfail (S n)) as [d' Hd']; [lia|].
      exists d'. replace (S attempt + n) with (attempt + S n) by lia. exact Hd'.
    + exists le'. rewrite Hle'. f_equal. lia.
Qed.

Lemma ping_loop_all_fail run remaining attempt last_error :
  (forall n, n < remaining ->
     exists d, ping_try is_windows (run (attempt + n)) = Ret (inr d)) ->
  exists tail,
    ping_loop is_windows run remaining attempt last_error
    = Ret (false, None, None, tail).
Proof.
  revert attempt last_error.
  induction remaining as [|remaining IH]; intros attempt last_error Hfail; cbn.
  - eauto.
  - destruct (Hfail 0) as [d Hd]; [lia|].
    rewrite Nat.add_0_r in Hd. rewrite Hd. cbn.
    apply IH. intros n Hn.
    destruct (Hfail (S n)) as [d' Hd']; [lia|].
    exists d'. replace (S attempt + n) with (attempt + S n) by lia. exact Hd'.
Qed.

(** Without reply evidence and without a parsed latency an attempt is
    never reported reachable. *)
Lemma ping_evaluate_guard proc reachable avg_ms loss_pct output :
  ping_evaluate is_windows proc = Ret (reachable, avg_ms, loss_pct, output) ->
  has_success (output_of proc) = false ->
  avg_ms = None ->
  reachable = false.
Proof.
  unfold ping_evaluate, bind. intros Hev Hno Havg.
  destruct (if is_windows then parse_windows (output_of proc)
            else parse_posix (output_of proc)) as [[avg loss]|e];
    [|discriminate].
  injection Hev as <- <- <- <-. subst avg. rewrite Hno.
  destruct ((returncode proc =? 0)%Z), (loss_is_total loss); reflexivity.
Qed.

Lemma ping_try_guard proc :
  has_success (output_of proc) = false ->
  parsed_avg is_windows (output_of proc) = None ->
  exists d, ping_try is_windows (Ret proc) = Ret (inr d).
Proof.
  intros Hno Havg. unfold ping_try, ping_attempt. cbn.
  destruct (ping_evaluate is_windows proc) as [[[[r a] l] o]|e] eqn:Hev; cbn.
  - assert (a = None) as Ha.
    { unfold ping_evaluate, bind in Hev. unfold parsed_avg in Havg.
      destruct (if is_windows then parse_windows (output_of proc)
                else parse_posix (output_of proc)) as [[avg loss]|e];
        [|discriminate].
      injection Hev as _ <- _ _. exact Havg. }
    rewrite (ping_evaluate_guard _ _ _ _ _ Hev Hno Ha). eauto.
  - eauto.
Qed.

(** C1 (amended).  When no attempt's output shows reply evidence (a
    "bytes from" pattern, a "reply from" or "resposta de" pattern, a TTL
    marker) and no average latency is parsed from it, the probe reports
    [reachable = false], whatever the exit code of the process. *)
Theorem ping_ip_needs_evidence_or_latency (sp : subprocess) ip count timeout_ms retry :
  (forall n proc,
     n < retry ->
     sp (ping_cmd is_windows ip count timeout_ms) n = Ret proc ->
     has_success (output_of proc) = false /\
     parsed_avg is_windows (output_of proc) = None) ->
  exists tail,
    ping_ip is_windows sp ip count timeout_ms retry = Ret (false, None, None, tail).
Proof.
  intros Hquiet. unfold ping_ip.
  apply ping_loop_all_fail. intros n Hn. cbn.
  destruct (sp (ping_cmd is_windows ip count timeout_ms) n) as [proc|e] eqn:Hrun.
  - destruct (Hquiet n proc Hn Hrun) as [Hno Havg].
    apply ping_try_guard; assumption.
  - eexists. reflexivity.
Qed.

(** C6 (amended).  With [retries = failing + 1]: when the first [failing]
    attempts fail and the last one succeeds, the probe returns the data of
    the successful attempt; when the last one fails too, it returns
    unreachable with that attempt's diagnostic (the tail of its output,
    or the error text when the command could not run) if that diagnostic
    is not empty, and with the fixed text "ping failed after retries" if
    it is empty. *)
Theorem ping_ip_retry_outcome (sp : subprocess) ip count timeout_ms failing :
  let run := sp (ping_cmd is_windows ip count timeout_ms) in
  (forall n, n < failing -> exists d, attempt_fails is_windows (run n) d) ->
  (forall p,
     attempt_succeeds is_windows (run failing) p ->
     ping_ip is_windows sp ip count timeout_ms (S failing) = Ret p /\
     reachable_of p = true) /\
  (forall d,
     attempt_fails is_windows (run failing) d ->
     ping_ip is_windows sp ip count timeout_ms (S failing)
     = Ret (false, None, None,
            if Py.truthy d then d else "ping failed after retries")).
Proof.
  intros run Hfail. unfold ping_ip. fold run.
  destruct (ping_loop_skip run failing 1 0 None) as [le Hle].
  { intros n Hn. cbn. apply Hfail, Hn. }
  replace (S failing) with (failing + 1) by lia. rewrite Hle. cbn.
  split.
  - intros p Hp. rewrite (ping_try_succeeds _ _ Hp). cbn. split; [reflexivity|].
    destruct Hp as (proc & avg & loss & out & _ & _ & ->). reflexivity.
  - intros d Hd. rewrite (ping_try_fails _ _ Hd). cbn.
    unfold or_default. cbn. destruct (Py.truthy d); reflexivity.
Qed.
End Prober.

(** The guard at work: the process exits with 0 on both attempts, shows
    no reply and no latency, and the probe reports unreachable. *)
Lemma ping_ip_needs_evidence_or_latency_witness :
  returncode exit_zero_no_reply = 0%Z /\
  exists tail,
    ping_ip true (fun _ _ => Ret exit_zero_no_reply) "10.0.0.5" 4 1000 2
    = Ret (false, None, None, tail).
Proof.
  split; [reflexivity|].
  apply (ping_ip_needs_evidence_or_latency true
           (fun _ _ => Ret exit_zero_no_reply) "10.0.0.5" 4 1000 2).
  intros n proc _ Hrun. injection Hrun as <-.
  split; vm_compute; reflexivity.
Defined.

(** C1 (counterexample).  A Windows summary line carries a latency but no
    reply line: the process exits with 0, none of the evidence patterns
    occurs in the output, and the probe still reports reachable. *)
Lemma ping_ip_latency_without_evidence :
  returncode summary_only = 0%Z /\
  has_success (output_of summary_only) = false /\
  ping_ip true (fun _ _ => Ret summary_only) "10.0.0.5" 4 1000 1
  = Ret (true, Some (Py.Finite 4), None, output_of summary_only).
Proof. vm_compute. repeat split. Qed.

(** One failing attempt, then an answered one, with [retry = 2]. *)
Lemma ping_ip_retry_outcome_witness :
  ping_ip true sp_second_attempt "10.0.0.5" 4 1000 2
  = Ret (true, Some (Py.Finite 700), None,
         Py.last_chars 500 (output_of reply_700ms)) /\
  reachable_of (true, Some (Py.Finite 700), None,
                Py.last_chars 500 (output_of reply_700ms)) = true.
Proof.
  apply (ping_ip_retry_outcome true sp_second_attempt "10.0.0.5" 4 1000 1).
  - intros n Hn. assert (n = 0) as -> by lia.
    exists (Py.last_chars 500 (output_of request_timed_out)).
    left. exists request_timed_out, None, None, (output_of request_timed_out).
    repeat split; vm_compute; reflexivity.
  - exists reply_700ms, (Some (Py.Finite 700)), None,
      (output_of reply_700ms).
    repeat split; vm_compute; reflexivity.
Defined.

(** C6 (counterexample).  The only attempt ran and failed without output:
    its diagnostic tail is empty, and the probe returns the fixed text
    instead of that tail. *)
Lemma ping_ip_empty_tail_replaced :
  attempt_fails true (Ret silent_failure) EmptyString /\
  ping_ip true (fun _ _ => Ret silent_failure) "10.0.0.5" 4 1000 1
  = Ret (false, None, None, "ping failed after retries").
Proof.
  split; [|vm_compute; reflexivity].
  left. exists silent_failure, None, None, EmptyString.
  repeat split; vm_compute; reflexivity.
Qed.

(** ** Strings *)

Lemma append_nil (s : string) : EmptyString +:+ s = s.
Proof. reflexivity. Qed.

Lemma append_cons (c : ascii) (w s : string) :
  String c w +:+ s = String c (w +:+ s).
Proof. reflexivity. Qed.

Lemma length_append (w s : string) :
  String.length (w +:+ s) = String.length w + String.length s.
Proof.
  induction w as [|c w IH]; [reflexivity|].
  rewrite append_cons. cbn. rewrite IH. reflexivity.
Qed.

(** ** Patterns of fixed length *)

Section FlatPatterns.
Context {R : Type}.
Variable ic : bool.

Lemma split_head_app ps qs s :
  split_head (ps ++ qs) s =
  match split_head ps s with
  | Some (w1, r1) =>
      match split_head qs r1 with
      | Some (w2, r2) => Some (w1 +:+ w2, r2)
      | None => None
      end
  | None => None
  end.
Proof.
  revert s. induction ps as [|p ps IH]; intros s; cbn.
  - destruct (split_head qs s) as [[w2 r2]|]; reflexivity.
  - destruct s as [|c s]; [reflexivity|].
    destruct (p c); [|reflexivity].
    rewrite IH. destruct (split_head ps s) as [[w1 r1]|]; [|reflexivity].
    destruct (split_head qs r1) as [[w2 r2]|]; [|reflexivity].
    rewrite append_cons. reflexivity.
Qed.

Lemma split_head_append ps s w rest :
  split_head ps s = Some (w, rest) -> s = w +:+ rest.
Proof.
  revert s w rest. induction ps as [|p ps IH]; intros s w rest; cbn.
  - intros [= <- <-]. reflexivity.
  - destruct s as [|c s]; [discriminate|].
    destruct (p c); [|discriminate].
    destruct (split_head ps s) as [[w' r']|] eqn:Hs; [|discriminate].
    intros [= <- <-]. rewrite append_cons. f_equal. apply IH, Hs.
Qed.

(** On a pattern of fixed length the matcher consumes exactly the head
    that passes the tests, and fails when no head does. *)
Lemma run_flat (r : Re.re) :
  flat r = true ->
  forall s cs (k : Re.cont (R:=R)),
    match split_head (tests ic r) s with
    | Some (_, rest) => exists cs', Re.run ic r s cs k = k rest cs'
    | None => Re.run ic r s cs k = None
    end.
Proof.
  induction r as [|c|p|a IHa b IHb|a _|a _|i a IHa]; cbn; intros Hflat s cs k;
    try discriminate.
  - eauto.
  - destruct s as [|d s]; [reflexivity|]. destruct (Re.lit_matches ic c d); eauto.
  - destruct s as [|d s]; [reflexivity|]. destruct (p d); eauto.
  - apply andb_prop in Hflat as [Ha Hb]. rewrite split_head_app.
    specialize (IHa Ha s cs (fun s' cs' => Re.run ic b s' cs' k)).
    destruct (split_head (tests ic a) s) as [[w1 r1]|]; [|exact IHa].
    destruct IHa as [cs1 ->].
    specialize (IHb Hb r1 cs1 k).
    destruct (split_head (tests ic b) r1) as [[w2 r2]|]; exact IHb.
  - specialize (IHa Hflat s cs
                  (fun s' cs' => k s' ((i, Re.consumed s s') :: cs'))).
    destruct (split_head (tests ic a) s) as [[w rest]|]; [|exact IHa].
    destruct IHa as [cs1 ->]. eauto.
Qed.
End FlatPatterns.

Lemma consumed_append w rest : Re.consumed (w +:+ rest) rest = w.
Proof.
  unfold Re.consumed.
  assert (String.length (w +:+ rest) - String.length rest = String.length w) as ->.
  { rewrite length_append. lia. }
  induction w as [|c w IH].
  - rewrite append_nil. destruct rest; reflexivity.
  - rewrite append_cons. cbn. f_equal. exact IH.
Qed.

Lemma match_at_flat ic r s :
  flat r = true ->
  option_map Re.group0 (Re.match_at ic r s)
  = option_map fst (split_head (tests ic r) s).
Proof.
  intros Hflat. unfold Re.match_at.
  pose proof (run_flat ic r Hflat s []
                (fun s' cs => Some {| Re.group0 := Re.consumed s s';
                                      Re.groups := cs |})) as H.
  destruct (split_head (tests ic r) s) as [[w rest]|] eqn:Hs.
  - destruct H as [cs' ->]. cbn.
    rewrite (split_head_append _ _ _ _ Hs), consumed_append. reflexivity.
  - rewrite H. reflexivity.
Qed.

(** [re.search] with a pattern of fixed length finds the leftmost
    occurrence. *)
Lemma search_flat ic r s :
  flat r = true ->
  option_map Re.group0 (Re.search ic r s) = first_occurrence (tests ic r) s.
Proof.
  intros Hflat. induction s as [|c s IH]; cbn [Re.search first_occurrence];
    pose proof (match_at_flat ic r) as Hm;
    [specialize (Hm EmptyString Hflat) | specialize (Hm (String c s) Hflat)].
  - destruct (Re.match_at ic r EmptyString),
      (split_head (tests ic r) EmptyString) as [[w rest]|];
      cbn in Hm |- *; congruence.
  - destruct (Re.match_at ic r (String c s)),
      (split_head (tests ic r) (String c s)) as [[w rest]|];
      cbn in Hm |- *; congruence.
Qed.

(** ** Soundness of the matcher on patterns without groups *)

Section Soundness.
Context {R : Type}.
Variable ic : bool.

Lemma append_assoc (a b c : string) : (a +:+ b) +:+ c = a +:+ (b +:+ c).
Proof.
  induction a as [|x a IH]; [reflexivity|].
  rewrite !append_cons, IH. reflexivity.
Qed.

Lemma star_loop_sound (a : Re.re) :
  (forall s cs (k : Re.cont (R:=R)) x,
      Re.run ic a s cs k = Some x ->
      exists w s', s = w +:+ s' /\ lang ic a w /\ k s' cs = Some x) ->
  forall fuel s cs (k : Re.cont (R:=R)) x,
    Re.star_loop (Re.run ic a) fuel s cs k = Some x ->
    exists w s', s = w +:+ s' /\ lang ic (Re.Star a) w /\ k s' cs = Some x.
Proof.
  intros IHa. induction fuel as [|fuel IH]; intros s cs k x; cbn [Re.star_loop].
  - intros Hk. exists EmptyString, s. split; [reflexivity|].
    split; [constructor | exact Hk].
  - destruct (Re.run ic a s cs _) as [y|] eqn:Hstep.
    + intros [= ->].
      apply IHa in Hstep as (w1 & s1 & -> & Hw1 & Hk).
      destruct (String.length s1 <? String.length (w1 +:+ s1)); [|discriminate].
      apply IH in Hk as (w2 & s2 & -> & Hw2 & Hk).
      exists (w1 +:+ w2), s2. rewrite append_assoc.
      split; [reflexivity|]. split; [constructor; assumption | exact Hk].
    + intros Hk. exists EmptyString, s. split; [reflexivity|].
      split; [constructor | exact Hk].
Qed.

(** A successful run consumed a text of the pattern's language and
    handed the captures on unchanged. *)
Lemma run_sound (r : Re.re) :
  groupless r = true ->
  forall s cs (k : Re.cont (R:=R)) x,
    Re.run ic r s cs k = Some x ->
    exists w s', s = w +:+ s' /\ lang ic r w /\ k s' cs = Some x.
Proof.
  induction r as [|c|p|a IHa b IHb|a IHa|a IHa|i a _]; cbn [groupless Re.run];
    intros Hg s cs k x; try discriminate.
  - intros Hk. exists EmptyString, s. split; [reflexivity|].
    split; [constructor | exact Hk].
  - destruct s as [|d s]; [discriminate|].
    destruct (Re.lit_matches ic c d) eqn:Hm; [|discriminate].
    intros Hk. exists (String d EmptyString), s. split; [reflexivity|].
    split; [constructor; exact Hm | exact Hk].
  - destruct s as [|d s]; [discriminate|].
    destruct (p d) eqn:Hm; [|discriminate].
    intros Hk. exists (String d EmptyString), s. split; [reflexivity|].
    split; [constructor; exact Hm | exact Hk].
  - apply andb_prop in Hg as [Ha Hb]. intros Hrun.
    apply (IHa Ha) in Hrun as (w1 & s1 & -> & Hw1 & Hrun).
    apply (IHb Hb) in Hrun as (w2 & s2 & -> & Hw2 & Hk).
    exists (w1 +:+ w2), s2. rewrite append_assoc.
    split; [reflexivity|]. split; [constructor; assumption | exact Hk].
  - destruct (Re.run ic a s cs k) as [y|] eqn:Hrun.
    + intros [= ->]. apply (IHa Hg) in Hrun as (w & s' & -> & Hw & Hk).
      exists w, s'. split; [reflexivity|].
      split; [apply lang_opt_some; exact Hw | exact Hk].
    + intros Hk. exists EmptyString, s. split; [reflexivity|].
      split; [constructor | exact Hk].
  - apply star_loop_sound. exact (IHa Hg).
Qed.
End Soundness.

Lemma lang_star_class ic (p : ascii -> bool) r w :
  lang ic r w ->
  r = Re.Star (Re.Class p) ->
  forall P : string -> Prop,
    P EmptyString ->
    (forall d w', p d = true -> P w' -> P (String d w')) ->
    P w.
Proof.
  induction 1 as [ | | | | | |a|a w1 w2 H1 _ H2 IH2| ];
    intros Hr P Hnil Hcons; try discriminate.
  - exact Hnil.
  - injection Hr as ->. inversion H1 as [ | |p' d Hd| | | | | | ]; subst.
    rewrite append_cons, append_nil. apply Hcons; [exact Hd|].
    apply IH2; auto.
Qed.

(** What [\d+] matches is a number. *)
Lemma lang_digits ic w : lang ic (Re.Plus digit) w -> is_number w = true.
Proof.
  unfold Re.Plus, digit. intros H.
  inversion H as [ | | |a b w1 w2 H1 H2| | | | | ]; subst.
  inversion H1 as [ | |p d Hd| | | | | | ]; subst.
  rewrite append_cons, append_nil. unfold is_number. cbn. rewrite Hd. cbn.
  apply (lang_star_class ic Py.isdigit _ w2 H2 eq_refl
           (fun w => all_digits w = true)); [reflexivity|].
  intros d' w' Hd' Hw'. cbn. rewrite Hd', Hw'. reflexivity.
Qed.

(** ** [float] on a number *)

Lemma digit_not_space c : Py.isdigit c = true -> Py.float_space c = false.
Proof.
  destruct c as [[] [] [] [] [] [] [] []]; intros H;
    vm_compute in H |- *; congruence.
Qed.

Lemma digit_plain c :
  Py.isdigit c = true ->
  Py.is_code 45 c = false /\ Py.is_code 43 c = false /\
  Py.is_code 101 c = false /\ Py.is_code 69 c = false /\
  Py.is_code 46 c = false /\ Py.lower_char c = c /\
  c <> "i"%char /\ c <> "n"%char.
Proof.
  destruct c as [[] [] [] [] [] [] [] []]; intros H;
    vm_compute in H; try discriminate; vm_compute; repeat split; congruence.
Qed.

Lemma rstrip_digits w :
  all_digits w = true -> Py.rstrip_by Py.float_space w = w.
Proof.
  induction w as [|c w IH]; [reflexivity|]. cbn [Py.rstrip_by all_digits].
  intros H. apply andb_prop in H as [Hc Hw]. rewrite (IH Hw).
  destruct w; [|reflexivity]. rewrite (digit_not_space c Hc). reflexivity.
Qed.

Lemma cut_at_digits (p : ascii -> bool) w :
  (forall c, Py.isdigit c = true -> p c = false) ->
  all_digits w = true ->
  Py.cut_at p w = (w, None).
Proof.
  intros Hp. induction w as [|c w IH]; [reflexivity|]. cbn.
  intros H. apply andb_prop in H as [Hc Hw].
  rewrite (Hp c Hc), (IH Hw). reflexivity.
Qed.

Lemma digitpart_digits w b :
  all_digits w = true -> Py.digitpart_ok b w = Py.truthy w || b.
Proof.
  revert b. induction w as [|c w IH]; intros b; [reflexivity|]. cbn.
  intros H. apply andb_prop in H as [Hc Hw]. rewrite Hc, (IH true Hw).
  apply orb_true_r.
Qed.

Lemma float_number w :
  is_number w = true -> exists v, Py.float w = Ret v.
Proof.
  unfold is_number. intros H. apply andb_prop in H as [Hne Hall].
  destruct w as [|c w]; [discriminate|].
  pose proof Hall as Hall'. cbn in Hall'. apply andb_prop in Hall' as [Hc Hw].
  destruct (digit_plain c Hc) as (Hminus & Hplus & He & HE & Hdot & Hlow & Hi & Hn).
  unfold Py.float, Py.float_of_str.
  assert (Py.lstrip_by Py.float_space (String c w) = String c w) as ->.
  { cbn [Py.lstrip_by]. rewrite (digit_not_space c Hc). reflexivity. }
  rewrite (rstrip_digits _ Hall).
  unfold Py.take_sign. rewrite Hminus, Hplus.
  assert (String.eqb (Py.lower (String c w)) "inf" = false) as ->.
  { apply String.eqb_neq. unfold Py.lower. cbn. rewrite Hlow. congruence. }
  assert (String.eqb (Py.lower (String c w)) "infinity" = false) as ->.
  { apply String.eqb_neq. unfold Py.lower. cbn. rewrite Hlow. congruence. }
  assert (String.eqb (Py.lower (String c w)) "nan" = false) as ->.
  { apply String.eqb_neq. unfold Py.lower. cbn. rewrite Hlow. congruence. }
  cbn [orb]. unfold Py.parse_number.
  rewrite (cut_at_digits _ (String c w)); [|
    intros d Hd; destruct (digit_plain d Hd) as (_ & _ & -> & -> & _); reflexivity
    | exact Hall].
  rewrite (cut_at_digits _ (String c w)); [|
    intros d Hd; destruct (digit_plain d Hd) as (_ & _ & _ & _ & -> & _); reflexivity
    | exact Hall].
  unfold Py.opt_digitpart_ok. rewrite (digitpart_digits _ false Hall).
  cbn [Py.truthy orb andb]. eexists. reflexivity.
Qed.

(** ** The parsers never raise *)

Lemma run_group1 {R : Type} ic (body post : Re.re) s cs (k : Re.cont (R:=R)) x :
  groupless body = true -> groupless post = true ->
  Re.run ic (Re.Cat (Re.Group 1 body) post) s cs k = Some x ->
  exists w s', lang ic body w /\ k s' ((1, w) :: cs) = Some x.
Proof.
  intros Hbody Hpost. cbn [Re.run]. intros H.
  apply (run_sound ic body Hbody) in H as (w1 & s1 & -> & Hw1 & H).
  apply (run_sound ic post Hpost) in H as (w2 & s2 & -> & _ & H).
  rewrite consumed_append in H. eauto.
Qed.

Lemma search_some ic r s m :
  Re.search ic r s = Some m -> exists s', Re.match_at ic r s' = Some m.
Proof.
  induction s as [|c s IH]; cbn [Re.search];
    destruct (Re.match_at ic r _) as [m'|] eqn:Hm; try discriminate.
  - intros [= <-]. eauto.
  - intros [= <-]. eauto.
  - exact IH.
Qed.

(** The group of ["(\d+)\s*ms"] and of ["\((\d+)\s*%"] is a number. *)
Lemma pat_avg_ms_group ic s m :
  Re.search ic pat_avg_ms s = Some m -> is_number (Re.group m 1) = true.
Proof.
  intros H. apply search_some in H as [s' H].
  unfold Re.match_at, pat_avg_ms in H.
  apply run_group1 in H as (w & s2 & Hw & H); try reflexivity.
  injection H as <-. apply (lang_digits ic), Hw.
Qed.

Lemma pat_loss_group ic s m :
  Re.search ic pat_loss s = Some m -> is_number (Re.group m 1) = true.
Proof.
  intros H. apply search_some in H as [s' H].
  unfold Re.match_at, pat_loss in H. cbn [Re.run] in H.
  destruct s' as [|d s']; [discriminate|].
  destruct (Re.lit_matches ic "(" d); [|discriminate].
  change (Re.run ic (Re.Cat (Re.Group 1 (Re.Plus digit))
                            (Re.Cat (Re.Star space) (Re.Lit "%"))) s' []
            (fun s'0 cs => Some {| Re.group0 := Re.consumed (String d s') s'0;
                                   Re.groups := cs |}) = Some m) in H.
  apply run_group1 in H as (w & s2 & Hw & H); try reflexivity.
  injection H as <-. apply (lang_digits ic), Hw.
Qed.

Lemma for_each_returns {A S : Type} (l : list A) (body : S -> A -> result S) st :
  (forall st x, exists st', body st x = Ret st') ->
  exists st', for_each l body st = Ret st'.
Proof.
  intros Hbody. revert st. induction l as [|x l IH]; intros st; cbn.
  - eauto.
  - destruct (Hbody st x) as [st' ->]. cbn. apply IH.
Qed.

Lemma parse_windows_returns output :
  exists avg_ms loss_pct, parse_windows output = Ret (avg_ms, loss_pct).
Proof.
  unfold parse_windows.
  match goal with |- context [for_each ?l ?b None] =>
    destruct (for_each_returns l b None) as [avg_ms ->]
  end.
  { intros st line. cbn beta.
    destruct (_ || _); [|eauto].
    destruct (Re.search true pat_avg_ms (Py.strip line)) as [m|] eqn:Hm; [|eauto].
    destruct (float_number _ (pat_avg_ms_group _ _ _ Hm)) as [q ->]. cbn. eauto. }
  cbn [bind].
  match goal with |- context [for_each ?l ?b None] =>
    destruct (for_each_returns l b None) as [loss_pct ->]
  end.
  { intros st line. cbn beta.
    destruct (_ || _); [|eauto].
    destruct (Re.search false pat_loss line) as [m|] eqn:Hm; [|eauto].
    destruct (float_number _ (pat_loss_group _ _ _ Hm)) as [q ->]. cbn. eauto. }
  cbn [bind]. eauto.
Qed.

Lemma try_except_returns {A : Type} (body : result A) (handler : exn -> result A) :
  (forall e, exists a, handler e = Ret a) ->
  exists a, try_except body handler = Ret a.
Proof.
  intros Hh. destruct body as [a|e]; cbn; [eauto | apply Hh].
Qed.

Lemma parse_posix_returns output :
  exists avg_ms loss_pct, parse_posix output = Ret (avg_ms, loss_pct).
Proof.
  unfold parse_posix.
  match goal with |- context [for_each ?l ?b None] =>
    destruct (for_each_returns l b None) as [avg_ms ->]
  end.
  { intros st line. cbn beta. destruct (_ || _); [|eauto].
    apply try_except_returns. eauto. }
  cbn [bind].
  match goal with |- context [for_each ?l ?b None] =>
    destruct (for_each_returns l b None) as [loss_pct ->]
  end.
  { intros st line. cbn beta. destruct (Py.contains _ _); [|eauto].
    apply try_except_returns. eauto. }
  cbn [bind]. eauto.
Qed.

(** The evaluation of a completed process never raises. *)
Lemma ping_evaluate_returns is_windows proc :
  exists reachable avg_ms loss_pct,
    ping_evaluate is_windows proc
    = Ret (reachable, avg_ms, loss_pct, output_of proc).
Proof.
  unfold ping_evaluate.
  assert (exists a l, (if is_windows then parse_windows (output_of proc)
                       else parse_posix (output_of proc)) = Ret (a, l))
    as (a & l & ->).
  { destruct is_windows; [apply parse_windows_returns | apply parse_posix_returns]. }
  cbn [bind]. eauto.
Qed.

(** Every attempt either succeeds or fails. *)
Lemma attempt_outcome is_windows (run : result completed_process) :
  (exists p, attempt_succeeds is_windows run p) \/
  (exists d, attempt_fails is_windows run d).
Proof.
  destruct run as [proc|e].
  - destruct (ping_evaluate_returns is_windows proc) as ([|] & a & l & Hev).
    + left. eexists. exists proc, a, l, (output_of proc). eauto.
    + right. eexists. left. exists proc, a, l, (output_of proc). eauto.
  - right. eexists. right. exists e. eauto.
Qed.
(** ** The resolver *)

Lemma first_mac_refines output :
  first_mac mac_patterns output = first_mac_spec output.
Proof.
  unfold first_mac_spec, mac_patterns. cbn [first_mac].
  pose proof (search_flat false pat_mac_separated output eq_refl) as Hsep.
  pose proof (search_flat false pat_mac_bare output eq_refl) as Hbare.
  change (tests false pat_mac_separated) with separated_mac in Hsep.
  change (tests false pat_mac_bare) with bare_mac in Hbare.
  rewrite <- Hsep, <- Hbare.
  destruct (Re.search false pat_mac_separated output) as [m|]; [reflexivity|].
  destruct (Re.search false pat_mac_bare output) as [m|]; reflexivity.
Qed.

Lemma split_head_cons p ps s w rest :
  split_head (p :: ps) s = Some (w, rest) ->
  exists c s' w',
    s = String c s' /\ p c = true /\ w = String c w' /\
    split_head ps s' = Some (w', rest).
Proof.
  cbn. destruct s as [|c s]; [discriminate|].
  destruct (p c) eqn:Hp; [|discriminate].
  destruct (split_head ps s) as [[w' r']|] eqn:Hs; [|discriminate].
  intros [= <- <-]. exists c, s, w'. auto.
Qed.

Lemma first_occurrence_head ps s w :
  first_occurrence ps s = Some w ->
  exists s' rest, split_head ps s' = Some (w, rest).
Proof.
  induction s as [|c s IH]; cbn [first_occurrence].
  - destruct (split_head ps EmptyString) as [[w' r']|] eqn:Hs; [|discriminate].
    intros [= <-]. eauto.
  - destruct (split_head ps (String c s)) as [[w' r']|] eqn:Hs; [|exact IH].
    intros [= <-]. eauto.
Qed.

Lemma normal_char_hex c : Py.ishex c = true -> is_upper_hex (normal_char c) = true.
Proof.
  destruct c as [[] [] [] [] [] [] [] []]; intros H;
    vm_compute in H |- *; congruence.
Qed.

Lemma normal_char_separator c :
  is_separator c = true -> normal_char c = ":"%char.
Proof.
  destruct c as [[] [] [] [] [] [] [] []]; intros H;
    vm_compute in H |- *; congruence.
Qed.

Lemma normal_char_colon : Py.upper_char ":" = ":"%char.
Proof. reflexivity. Qed.

Ltac peel H :=
  let c := fresh "c" in
  let s := fresh "s" in
  let w := fresh "w" in
  let Hc := fresh "Hc" in
  apply split_head_cons in H as (c & s & w & -> & Hc & -> & H).

Lemma normalize_separated s w rest :
  split_head separated_mac s = Some (w, rest) ->
  canonical_mac (normalize_mac w) = true.
Proof.
  intros H. unfold separated_mac in H. cbn [concat repeat app] in H.
  do 17 peel H. cbn in H. injection H as <- <-.
  unfold normalize_mac, canonical_mac, Py.replace, Py.upper.
  cbn [Py.map_chars String.length Nat.eqb octets].
  repeat match goal with
         | |- context [Py.upper_char (if Ascii.eqb ?c "-" then ":"%char else ?c)] =>
             change (Py.upper_char (if Ascii.eqb c "-" then ":"%char else c))
               with (normal_char c)
         end.
  repeat match goal with
         | Hc : Py.ishex ?c = true |- _ => rewrite (normal_char_hex c Hc); clear Hc
         | Hc : is_separator ?c = true |- _ =>
             rewrite (normal_char_separator c Hc); clear Hc
         end.
  reflexivity.
Qed.

Lemma normalize_bare s w rest :
  split_head bare_mac s = Some (w, rest) ->
  canonical_mac (normalize_mac w) = true.
Proof.
  intros H. unfold bare_mac in H. cbn [repeat] in H.
  do 12 peel H. cbn in H. injection H as <- <-.
  unfold normalize_mac, canonical_mac, Py.replace, Py.upper, join_pairs, Py.slice.
  cbn [Py.map_chars String.length Nat.eqb octets map substring Nat.add Nat.sub
       String.concat].
  rewrite !append_cons, !append_nil.
  cbn [Py.map_chars octets].
  repeat match goal with
         | |- context [Py.upper_char (if Ascii.eqb ?c "-" then ":"%char else ?c)] =>
             change (Py.upper_char (if Ascii.eqb c "-" then ":"%char else c))
               with (normal_char c)
         end.
  rewrite !normal_char_colon.
  repeat match goal with
         | Hc : Py.ishex ?c = true |- _ => rewrite (normal_char_hex c Hc); clear Hc
         end.
  reflexivity.
Qed.

(** Whatever the resolver extracts is in canonical form. *)
Lemma first_mac_spec_canonical output m :
  first_mac_spec output = Some m -> canonical_mac m = true.
Proof.
  unfold first_mac_spec.
  destruct (first_occurrence separated_mac output) as [w|] eqn:Hsep.
  - intros [= <-]. apply first_occurrence_head in Hsep as (s' & rest & Hs).
    eapply normalize_separated, Hs.
  - destruct (first_occurrence bare_mac output) as [w|] eqn:Hbare; [|discriminate].
    intros [= <-]. apply first_occurrence_head in Hbare as (s' & rest & Hs).
    eapply normalize_bare, Hs.
Qed.

Lemma get_mac_address_cases is_windows (sp : subprocess) ip :
  get_mac_address is_windows sp ip
  = Ret match sp (arp_cmd is_windows ip) 0 with
        | Ret proc => first_mac_spec (output_of proc)
        | Raise _ => None
        end.
Proof.
  unfold get_mac_address, ping_ip.
  destruct (ping_loop_returns is_windows
              (sp (ping_cmd is_windows ip 1 500)) 1 0 None) as [p ->].
  cbn [bind]. destruct (sp (arp_cmd is_windows ip) 0) as [proc|e];
    cbn [bind try_except].
  - rewrite first_mac_refines. reflexivity.
  - reflexivity.
Qed.

Lemma get_mac_address_canonical is_windows (sp : subprocess) ip m :
  get_mac_address is_windows sp ip = Ret (Some m) -> canonical_mac m = true.
Proof.
  rewrite get_mac_address_cases. intros [= H].
  destruct (sp (arp_cmd is_windows ip) 0) as [proc|e]; [|discriminate].
  eapply first_mac_spec_canonical, H.
Qed.

Lemma separator_not_hex c : is_separator c = true -> Py.ishex c = false.
Proof.
  destruct c as [[] [] [] [] [] [] [] []]; intros H;
    vm_compute in H |- *; congruence.
Qed.

Lemma normal_char_upper_hex c :
  Py.ishex c = true -> normal_char c = upper_hex_digit c.
Proof.
  destruct c as [[] [] [] [] [] [] [] []]; intros H;
    vm_compute in H |- *; congruence.
Qed.

Ltac normal_chars :=
  repeat match goal with
         | |- context [Py.upper_char (if Ascii.eqb ?c "-" then ":"%char else ?c)] =>
             change (Py.upper_char (if Ascii.eqb c "-" then ":"%char else c))
               with (normal_char c)
         end;
  repeat match goal with
         | Hc : Py.ishex ?c = true |- _ =>
             rewrite (normal_char_upper_hex c Hc); rewrite ?Hc; clear Hc
         | Hc : is_separator ?c = true |- _ =>
             rewrite (normal_char_separator c Hc);
             rewrite ?(separator_not_hex c Hc); clear Hc
         end.

(** The normalisation of the code gives the canonical form of the
    specification, on both kinds of address. *)
Lemma normalize_separated_form s w rest :
  split_head separated_mac s = Some (w, rest) ->
  normalize_mac w = canonical_form w.
Proof.
  intros H. unfold separated_mac in H. cbn [concat repeat app] in H.
  do 17 peel H. cbn in H. injection H as <- <-.
  unfold normalize_mac, canonical_form, Py.replace, Py.upper.
  cbn [Py.map_chars String.length Nat.eqb hex_digits].
  normal_chars. reflexivity.
Qed.

Lemma normalize_bare_form s w rest :
  split_head bare_mac s = Some (w, rest) ->
  normalize_mac w = canonical_form w.
Proof.
  intros H. unfold bare_mac in H. cbn [repeat] in H.
  do 12 peel H. cbn in H. injection H as <- <-.
  unfold normalize_mac, canonical_form, Py.replace, Py.upper, join_pairs, Py.slice.
  cbn [Py.map_chars String.length Nat.eqb map substring Nat.add Nat.sub
       String.concat hex_digits].
  rewrite !append_cons, !append_nil.
  cbn [Py.map_chars].
  rewrite !normal_char_colon.
  normal_chars. reflexivity.
Qed.

Lemma first_mac_spec_form output :
  first_mac_spec output = option_map canonical_form (found_address output).
Proof.
  unfold first_mac_spec, found_address.
  destruct (first_occurrence separated_mac output) as [w|] eqn:Hsep.
  - apply first_occurrence_head in Hsep as (s' & rest & Hs).
    cbn [option_map]. f_equal. eapply normalize_separated_form, Hs.
  - destruct (first_occurrence bare_mac output) as [w|] eqn:Hbare; [|reflexivity].
    apply first_occurrence_head in Hbare as (s' & rest & Hs).
    cbn [option_map]. f_equal. eapply normalize_bare_form, Hs.
Qed.

(** C9 (amended).  The resolver never raises.  Its result is null or an
    address in canonical form (six colon-separated pairs of upper-case
    hexadecimal digits).  It is null when the table command raises
    (missing command, timeout) and when its output holds no address.
    Otherwise it is the canonical form (the hexadecimal digits in upper
    case, in pairs joined by colons) of the address the search settles
    on: the leftmost one written with colons or hyphens, and only when
    the output has none of these the leftmost run of twelve hexadecimal
    digits. *)
Theorem get_mac_address_result is_windows (sp : subprocess) ip :
  exists r,
    get_mac_address is_windows sp ip = Ret r /\
    (forall m, r = Some m -> canonical_mac m = true) /\
    (forall e, sp (arp_cmd is_windows ip) 0 = Raise e -> r = None) /\
    (forall proc,
       sp (arp_cmd is_windows ip) 0 = Ret proc ->
       r = option_map canonical_form (found_address (output_of proc)) /\
       (first_occurrence separated_mac (output_of proc) = None ->
        first_occurrence bare_mac (output_of proc) = None ->
        r = None)).
Proof.
  eexists. split; [apply get_mac_address_cases|].
  split; [|split].
  - intros m Hm. eapply get_mac_address_canonical.
    rewrite get_mac_address_cases. f_equal. exact Hm.
  - intros e ->. reflexivity.
  - intros proc ->. split; [apply first_mac_spec_form|].
    intros Hsep Hbare. unfold first_mac_spec. rewrite Hsep, Hbare. reflexivity.
Qed.

(** C9 (counterexample).  The output of the table command begins with a
    run of twelve hexadecimal digits, which is the first address in it,
    and holds an address written with hyphens further on: the resolver
    returns the second one. *)
Lemma resolver_skips_earlier_bare_address :
  leftmost_address (output_of arp_two_addresses) = Some "0123456789ab" /\
  canonical_form "0123456789ab" = "01:23:45:67:89:AB" /\
  get_mac_address true sp_two_addresses "10.0.0.9" = Ret (Some "00:1A:2B:3C:4D:5E").
Proof. repeat split; vm_compute; reflexivity. Qed.

Example resolver_reads_hyphens :
  get_mac_address true (sp_moved request_timed_out) "10.0.0.9"
  = Ret (Some "AA:BB:CC:DD:EE:FF").
Proof. vm_compute. reflexivity. Qed.

Example resolver_reads_bare_digits :
  first_mac mac_patterns "? (10.0.0.9) at 001a2b3c4d5e on en0"
  = Some "00:1A:2B:3C:4D:5E".
Proof. vm_compute. reflexivity. Qed.

(** The separated forms are searched for first, over the whole output. *)
Example resolver_prefers_separated :
  first_mac mac_patterns "0123456789ab 00-1a-2b-3c-4d-5e"
  = Some "00:1A:2B:3C:4D:5E".
Proof. vm_compute. reflexivity. Qed.

Example resolver_without_command :
  get_mac_address true (subprocess_run world_without_commands) "10.0.0.9"
  = Ret None.
Proof. vm_compute. reflexivity. Qed.
(** ** The sweep *)

Section Sweep.
Variable is_windows : bool.
Variable sp : subprocess.
Variable sched : schedule.
Variables mac network_prefix : string.
Variable timeout_sec : Z.

Let mac_normalized : string := Py.replace "-" ":" (Py.upper mac).
Let unit_of : nat -> result (option string) :=
  check_ip is_windows sp sched mac_normalized network_prefix timeout_sec.
Let address (i : nat) : string := network_prefix +:+ Py.str_of_nat i.

Lemma canonical_truthy m : canonical_mac m = true -> Py.truthy m = true.
Proof. destruct m; [discriminate|reflexivity]. Qed.

Lemma check_ip_hit i m :
  (started sched i <= inject_Z timeout_sec)%Q ->
  resolves is_windows sp network_prefix i m ->
  matches_target m mac ->
  unit_of i = Ret (Some (address i)).
Proof.
  intros Hstart Hres Hm. unfold unit_of, check_ip.
  apply Qle_bool_iff in Hstart. rewrite Hstart. cbn [negb].
  unfold resolves in Hres. rewrite Hres. cbn [bind].
  rewrite (canonical_truthy m (get_mac_address_canonical _ _ _ _ Hres)).
  unfold matches_target in Hm. fold mac_normalized in Hm. rewrite Hm.
  rewrite String.eqb_refl. reflexivity.
Qed.

Lemma check_ip_some i ip :
  unit_of i = Ret (Some ip) ->
  (started sched i <= inject_Z timeout_sec)%Q /\
  ip = address i /\
  exists m, resolves is_windows sp network_prefix i m /\ matches_target m mac.
Proof.
  unfold unit_of, check_ip.
  destruct (Qle_bool (started sched i) (inject_Z timeout_sec)) eqn:Hstart;
    cbn [negb]; [|discriminate].
  destruct (get_mac_address is_windows sp
              (network_prefix +:+ Py.str_of_nat i)) as [[m|]|e] eqn:Hres;
    cbn [bind]; try discriminate.
  destruct (Py.truthy m); cbn [andb]; [|discriminate].
  destruct (String.eqb_spec (Py.upper m) mac_normalized) as [Heq|]; [|discriminate].
  intros [= <-]. split; [apply Qle_bool_iff, Hstart|]. split; [reflexivity|].
  exists m. split; [exact Hres | exact Heq].
Qed.

Lemma first_completed_none (f : nat -> result (option string)) order :
  (forall j ip, In j order -> f j <> Ret (Some ip)) ->
  first_completed (map f order) = None.
Proof.
  induction order as [|j order IH]; intros Hnone; cbn; [reflexivity|].
  destruct (f j) as [[ip|]|e] eqn:Hj.
  - exfalso. apply (Hnone j ip); [left; reflexivity | exact Hj].
  - apply IH. intros j' ip' Hin. apply Hnone. right. exact Hin.
  - apply IH. intros j' ip' Hin. apply Hnone. right. exact Hin.
Qed.

Lemma first_completed_unique (f : nat -> result (option string)) order i ip :
  In i order ->
  f i = Ret (Some ip) ->
  Py.truthy ip = true ->
  (forall j ip', In j order -> f j = Ret (Some ip') -> j = i) ->
  first_completed (map f order) = Some ip.
Proof.
  induction order as [|j order IH]; intros Hin Hi Hip Huniq; [destruct Hin|].
  cbn. destruct (f j) as [[ip'|]|e] eqn:Hj.
  - assert (j = i) as -> by (apply (Huniq j ip'); [left; reflexivity | exact Hj]).
    rewrite Hi in Hj. injection Hj as <-. rewrite Hip. reflexivity.
  - destruct Hin as [->|Hin]; [congruence|].
    apply IH; auto. intros j' ip' Hj'. apply Huniq. right. exact Hj'.
  - destruct Hin as [->|Hin]; [congruence|].
    apply IH; auto. intros j' ip' Hj'. apply Huniq. right. exact Hj'.
Qed.

Lemma first_completed_some (f : nat -> result (option string)) order ip :
  first_completed (map f order) = Some ip ->
  exists j, In j order /\ f j = Ret (Some ip).
Proof.
  induction order as [|j order IH]; cbn; [discriminate|].
  destruct (f j) as [[ip'|]|e] eqn:Hj.
  - destruct (Py.truthy ip').
    + intros [= ->]. exists j. auto.
    + intros H. destruct (IH H) as (j' & Hin & Hj'). exists j'. auto.
  - intros H. destruct (IH H) as (j' & Hin & Hj'). exists j'. auto.
  - intros H. destruct (IH H) as (j' & Hin & Hj'). exists j'. auto.
Qed.

(** A sweep that returns an address has a unit that started in time and
    resolved that address to the target. *)
Lemma scan_some ip :
  scan_network_for_mac is_windows sp sched mac network_prefix timeout_sec = Some ip ->
  exists i m,
    In i (yielded sched) /\
    (started sched i <= inject_Z timeout_sec)%Q /\
    ip = address i /\
    resolves is_windows sp network_prefix i m /\
    matches_target m mac.
Proof.
  unfold scan_network_for_mac. fold mac_normalized. intros H.
  apply first_completed_some in H as (i & Hin & Hi).
  apply check_ip_some in Hi as (Hstart & -> & m & Hres & Hm).
  exists i, m. auto.
Qed.

(** C4 (amended).  When every unit whose resolution matches the target
    starts after the deadline, the sweep returns null. *)
Theorem scan_skips_late_units :
  (forall i m,
     In i (yielded sched) ->
     resolves is_windows sp network_prefix i m ->
     matches_target m mac ->
     (inject_Z timeout_sec < started sched i)%Q) ->
  scan_network_for_mac is_windows sp sched mac network_prefix timeout_sec = None.
Proof.
  intros Hlate.
  destruct (scan_network_for_mac is_windows sp sched mac network_prefix
              timeout_sec) as [ip|] eqn:Hscan; [|reflexivity].
  apply scan_some in Hscan as (i & m & Hin & Hstart & _ & Hres & Hm).
  specialize (Hlate i m Hin Hres Hm).
  exfalso. apply (Qlt_not_le _ _ Hlate), Hstart.
Qed.

Lemma upper_char_hyphen c : c <> "-"%char -> Py.upper_char c <> "-"%char.
Proof.
  destruct c as [[] [] [] [] [] [] [] []]; intros H;
    vm_compute; congruence.
Qed.

Lemma replace_without_hyphen s :
  Py.contains "-" s = false -> Py.replace "-" ":" (Py.upper s) = Py.upper s.
Proof.
  induction s as [|c s IH]; [reflexivity|].
  cbn [Py.contains String.prefix]. intros H.
  apply orb_false_elim in H as [Hc Hs].
  assert (c <> "-"%char) as Hne.
  { intros ->. cbn in Hc. destruct s; discriminate. }
  unfold Py.replace, Py.upper in *. cbn [Py.map_chars].
  rewrite (IH Hs).
  destruct (Ascii.eqb_spec (Py.upper_char c) "-") as [Heq|_]; [|reflexivity].
  exfalso. exact (upper_char_hyphen c Hne Heq).
Qed.

Lemma suffix_truthy i : In i (seq 1 254) -> Py.truthy (address i) = true.
Proof.
  intros Hin. unfold address.
  assert (Py.truthy (Py.str_of_nat i) = true) as H.
  { apply (proj1 (forallb_forall (fun i => Py.truthy (Py.str_of_nat i))
                                 (seq 1 254))); [vm_compute; reflexivity|exact Hin]. }
  destruct network_prefix; [rewrite append_nil; exact H|reflexivity].
Qed.

(** C5 (amended).  For a sweep over the suffixes 1..254 whose units all
    complete within the deadline, a unit matching when it resolves to
    the target as the code normalises it (upper case, hyphens read as
    colons): if exactly one suffix matches, the sweep returns that
    suffix's address, in whatever order the units are yielded; if no
    suffix matches, it returns null. *)
Theorem scan_finds_unique_match :
  Permutation (yielded sched) (seq 1 254) ->
  completes_within sched timeout_sec ->
  (forall i,
     In i (seq 1 254) ->
     (forall j, In j (seq 1 254) ->
        unit_matches_target is_windows sp network_prefix mac j <-> j = i) ->
     scan_network_for_mac is_windows sp sched mac network_prefix timeout_sec
     = Some (network_prefix +:+ Py.str_of_nat i))
  /\
  ((forall j, In j (seq 1 254) ->
      ~ unit_matches_target is_windows sp network_prefix mac j) ->
   scan_network_for_mac is_windows sp sched mac network_prefix timeout_sec = None).
Proof.
  intros Hperm Hdone.
  assert (forall j ip, In j (yielded sched) -> unit_of j = Ret (Some ip) ->
                       In j (seq 1 254) /\
                       unit_matches_target is_windows sp network_prefix mac j)
    as Hsound.
  { intros j ip Hin Hj. split; [eapply Permutation_in; eassumption|].
    apply check_ip_some in Hj as (_ & _ & m & Hres & Hm).
    exists m. split; [exact Hres | exact Hm]. }
  split.
  - intros i Hi Huniq. unfold scan_network_for_mac. fold mac_normalized.
    destruct (proj2 (Huniq i Hi) eq_refl) as (m & Hres & Hm).
    apply (first_completed_unique unit_of (yielded sched) i).
    + eapply Permutation_in; [symmetry; exact Hperm | exact Hi].
    + apply (check_ip_hit i m); [|exact Hres | exact Hm].
      destruct (Hdone i Hi) as [H1 H2]. eapply Qle_trans; eassumption.
    + apply suffix_truthy, Hi.
    + intros j ip' Hin Hj. destruct (Hsound j ip' Hin Hj) as [Hj' Hmatch].
      apply (Huniq j Hj'), Hmatch.
  - intros Hnone. unfold scan_network_for_mac. fold mac_normalized.
    apply first_completed_none. intros j ip Hin Hj.
    destruct (Hsound j ip Hin Hj) as [Hj' Hmatch].
    exact (Hnone j Hj' Hmatch).
Qed.
End Sweep.

Lemma only_nine_resolves_elim (sp : subprocess) j m :
  only_nine_resolves sp = true ->
  In j (seq 1 254) ->
  resolves true sp "10.0.0." j m ->
  j = 9.
Proof.
  intros Hall Hin Hres. unfold only_nine_resolves in Hall.
  pose proof (proj1 (forallb_forall _ _) Hall j Hin) as Hj. cbn beta in Hj.
  unfold resolves in Hres. rewrite Hres in Hj.
  apply orb_prop in Hj as [Hj|Hj]; [|discriminate].
  apply Nat.eqb_eq, Hj.
Qed.

(** The unit of suffix 9 would match, and every unit starts at 31 s. *)
Lemma scan_skips_late_units_witness :
  scan_network_for_mac true (sp_moved request_timed_out)
                       (sched_uniform 31 32 (seq 1 254))
                       "AA:BB:CC:DD:EE:FF" "10.0.0." 30 = None.
Proof.
  apply (scan_skips_late_units true (sp_moved request_timed_out)
           (sched_uniform 31 32 (seq 1 254)) "AA:BB:CC:DD:EE:FF" "10.0.0." 30).
  intros i m _ _ _. reflexivity.
Defined.

(** C4 (counterexample).  Only the unit of suffix 9 resolves to the
    target; it starts before the deadline of 30 seconds and completes
    after it, and the sweep returns its address. *)
Lemma scan_returns_overrunning_unit :
  (inject_Z 30 < finished (sched_uniform 29 33 (seq 1 254)) 9)%Q /\
  only_nine_resolves (sp_moved request_timed_out) = true /\
  resolves true (sp_moved request_timed_out) "10.0.0." 9 "AA:BB:CC:DD:EE:FF" /\
  scan_network_for_mac true (sp_moved request_timed_out)
                       (sched_uniform 29 33 (seq 1 254))
                       "AA:BB:CC:DD:EE:FF" "10.0.0." 30 = Some "10.0.0.9".
Proof. repeat split; vm_compute; reflexivity. Qed.

(** The futures are yielded from 254 down to 1 and the target is written
    in lower case with hyphens; suffix 9 is the only one that matches. *)
Lemma scan_finds_unique_match_witness :
  scan_network_for_mac true (sp_moved request_timed_out)
                       (sched_uniform 1 2 (rev (seq 1 254)))
                       "aa-bb-cc-dd-ee-ff" "10.0.0." 30 = Some "10.0.0.9".
Proof.
  destruct (scan_finds_unique_match true (sp_moved request_timed_out)
              (sched_uniform 1 2 (rev (seq 1 254)))
              "aa-bb-cc-dd-ee-ff" "10.0.0." 30) as [Hone _].
  - symmetry. apply Permutation_rev.
  - intros i _. split; vm_compute; discriminate.
  - apply (Hone 9).
    + apply in_seq. lia.
    + intros j Hj. split.
      * intros (m & Hres & _).
        eapply only_nine_resolves_elim; [|exact Hj|exact Hres].
        vm_compute. reflexivity.
      * intros ->. exists "AA:BB:CC:DD:EE:FF". split; vm_compute; reflexivity.
Defined.

(** C5 (counterexample).  The target is written with hyphens.  No unit
    resolves to an address case-insensitively equal to it, the resolved
    addresses being written with colons, and the sweep returns the
    address of suffix 9. *)
Lemma scan_matches_hyphenated_target :
  (forall j, In j (seq 1 254) ->
             ~ unit_matches true (sp_moved request_timed_out) "10.0.0."
                 "aa-bb-cc-dd-ee-ff" j) /\
  scan_network_for_mac true (sp_moved request_timed_out)
                       (sched_uniform 1 2 (seq 1 254))
                       "aa-bb-cc-dd-ee-ff" "10.0.0." 30 = Some "10.0.0.9".
Proof.
  split; [|vm_compute; reflexivity].
  intros j Hj (m & Hres & Hup).
  assert (j = 9) as ->.
  { eapply only_nine_resolves_elim; [|exact Hj|exact Hres].
    vm_compute. reflexivity. }
  unfold resolves in Hres. vm_compute in Hres. injection Hres as <-.
  vm_compute in Hup. discriminate.
Qed.

(** ** The camera loop *)

Section Cycle.
Variables is_windows mac_tracking_enabled : bool.

Lemma record_cases key m ip now (cache : gmap string Entry.t) :
  record key m ip now cache = (cache, false) \/
  record key m ip now cache = (<[key := entry_at m ip now]> cache, true).
Proof.
  unfold record, entry_at. destruct (cache !! key) as [e|]; [|auto].
  destruct (negb (String.eqb (Entry.mac e) m)); auto.
Qed.

Lemma ping_ip_returns (sp : subprocess) ip count timeout_ms retry :
  exists p, ping_ip is_windows sp ip count timeout_ms retry = Ret p.
Proof. apply ping_loop_returns. Qed.

(** The online branch returns; it either leaves the cache alone or
    writes the entry of a resolved canonical address. *)
Lemma track_online_cases (w : world) key (l : Locals.t) :
  exists l',
    track_online is_windows w key l = Ret l' /\
    Locals.reachable l' = Locals.reachable l /\
    Locals.avg_ms l' = Locals.avg_ms l /\
    Locals.loss l' = Locals.loss l /\
    Locals.ip l' = Locals.ip l /\
    Locals.ip_changed l' = Locals.ip_changed l /\
    get_mac_address is_windows (subprocess_run w) (Locals.ip l)
    = Ret (Locals.mac_address l') /\
    ((Locals.mac_cache l' = Locals.mac_cache l /\
      Locals.mac_cache_updated l' = Locals.mac_cache_updated l)
     \/
     (exists m,
         Locals.mac_address l' = Some m /\
         Locals.mac_cache l'
         = <[key := entry_at m (Locals.ip l) (time_time w)]> (Locals.mac_cache l) /\
         Locals.mac_cache_updated l' = true)).
Proof.
  unfold track_online.
  destruct (get_mac_address is_windows (subprocess_run w) (Locals.ip l))
    as [[m|]|e] eqn:Hres;
    [| |rewrite get_mac_address_cases in Hres; discriminate]; cbn [bind].
  - destruct (Py.truthy m).
    + destruct (record_cases key m (Locals.ip l) (time_time w) (Locals.mac_cache l))
        as [-> | ->]; eexists; repeat (split; [reflexivity|]); cbn; eauto.
    + eexists; repeat (split; [reflexivity|]); cbn; eauto.
  - eexists; repeat (split; [reflexivity|]); cbn; eauto.
Qed.

(** The offline branch returns; it changes nothing when the sweep finds
    no other address; otherwise it raises the relocation flag, takes the
    outcome of the second probe, and writes the cache when that probe is
    answered. *)
Lemma track_offline_cases (w : world) key (entry : Entry.t) (l : Locals.t) :
  track_offline is_windows w key entry l = Ret l
  \/
  exists new_ip p',
    length (Py.split (Locals.ip l) ".") = 4 /\
    scan_network_for_mac is_windows (subprocess_run w) (pool w) (Entry.mac entry)
                         (prefix_of (Py.split (Locals.ip l) ".")) 30 = Some new_ip /\
    new_ip <> Locals.ip l /\
    ping_ip is_windows (subprocess_run w) new_ip 4 1000 2 = Ret p' /\
    track_offline is_windows w key entry l
    = Ret {| Locals.reachable := reachable_of p';
             Locals.avg_ms := avg_ms_of p';
             Locals.loss := loss_of p';
             Locals.ip := if reachable_of p' then new_ip else Locals.ip l;
             Locals.mac_address := Locals.mac_address l;
             Locals.ip_changed := true;
             Locals.mac_cache :=
               if reachable_of p'
               then <[key := entry_at (Entry.mac entry) new_ip (time_time w)]>
                      (Locals.mac_cache l)
               else Locals.mac_cache l;
             Locals.mac_cache_updated :=
               if reachable_of p' then true else Locals.mac_cache_updated l |}.
Proof.
  unfold track_offline.
  destruct (Py.truthy (Entry.mac entry)); cbn [negb]; [|auto].
  destruct (Nat.eqb_spec (length (Py.split (Locals.ip l) ".")) 4) as [Hlen|_];
    cbn [negb]; [|auto].
  destruct (scan_network_for_mac is_windows (subprocess_run w) (pool w)
              (Entry.mac entry) (prefix_of (Py.split (Locals.ip l) ".")) 30)
    as [new_ip|] eqn:Hscan; [|auto].
  destruct (Py.truthy new_ip); cbn [andb]; [|auto].
  destruct (String.eqb_spec new_ip (Locals.ip l)) as [|Hne]; cbn [negb]; [auto|].
  right.
  destruct (ping_ip_returns (subprocess_run w) new_ip 4 1000 2)
    as [[[[r a] lo] t] Hp].
  exists new_ip, (r, a, lo, t). rewrite Hp. cbn [bind].
  repeat (split; [solve [auto]|]). reflexivity.
Qed.

Lemma camera_step_unfold (w : world) cache updated c p :
  first_probe is_windows w c = Ret p ->
  camera_step is_windows mac_tracking_enabled w cache updated c
  = (l <- track is_windows mac_tracking_enabled w (cam_key c)
            {| Locals.reachable := reachable_of p;
               Locals.avg_ms := avg_ms_of p;
               Locals.loss := loss_of p;
               Locals.ip := Camera.ip c;
               Locals.mac_address := None;
               Locals.ip_changed := false;
               Locals.mac_cache := cache;
               Locals.mac_cache_updated := updated |};;
     Ret (report_of c (is_suspicious (reachable_of p) (avg_ms_of p) (Camera.ip c)) l,
          Locals.mac_cache l, Locals.mac_cache_updated l)).
Proof.
  unfold first_probe, camera_step. intros ->.
  destruct p as [[[r a] lo] t]. reflexivity.
Qed.

Lemma camera_step_justified (w : world) cache updated c :
  exists report cache' updated',
    camera_step is_windows mac_tracking_enabled w cache updated c
    = Ret (report, cache', updated') /\
    write_justified is_windows w c cache updated cache' updated'.
Proof.
  destruct (ping_ip_returns (subprocess_run w) (Camera.ip c) 4 1000 2) as [p Hp].
  rewrite (camera_step_unfold w cache updated c p Hp).
  unfold track. destruct mac_tracking_enabled.
  2:{ cbn [bind]. do 3 eexists. split; [reflexivity|]. left. auto. }
  cbn [Locals.reachable Locals.mac_cache].
  destruct (reachable_of p) eqn:Hreach.
  - match goal with |- context [track_online _ _ _ ?l0] =>
      destruct (track_online_cases w (cam_key c) l0)
        as (l' & -> & _ & _ & _ & _ & _ & Hres & Hcache)
    end.
    cbn [bind]. do 3 eexists. split; [reflexivity|].
    cbn [Locals.ip Locals.mac_cache Locals.mac_cache_updated] in Hres, Hcache.
    destruct Hcache as [[-> ->] | (m & Hm & -> & ->)]; [left; auto|].
    right. left. exists m. split; [|auto].
    rewrite Hm in Hres. split; [eauto|]. split; [exact Hres|].
    eapply get_mac_address_canonical, Hres.
  - destruct (cache !! cam_key c) as [e|] eqn:He.
    2:{ cbn [bind]. do 3 eexists. split; [reflexivity|]. left. auto. }
    match goal with |- context [track_offline _ _ _ _ ?l0] =>
      destruct (track_offline_cases w (cam_key c) e l0)
        as [-> | (new_ip & p' & Hlen & Hscan & Hne & Hp' & ->)]
    end.
    { cbn [bind]. do 3 eexists. split; [reflexivity|]. left. auto. }
    cbn [bind Locals.ip Locals.mac_cache Locals.mac_cache_updated] in *.
    do 3 eexists. split; [reflexivity|].
    destruct (reachable_of p') eqn:Hreach'; [|left; auto].
    right. right. exists e, new_ip. split; [exact He|]. split; [|auto].
    split; [eauto|]. split; [exact Hne|]. split; [|eauto].
    destruct (scan_some _ _ _ _ _ _ _ Hscan) as (i & m & _ & _ & Hip & Hres & Hm).
    exists (prefix_of (Py.split (Camera.ip c) ".")), i, m.
    split; [exact Hscan|]. split; [exact Hip|]. split; [exact Hres|].
    split; [|exact Hm]. eapply get_mac_address_canonical, Hres.
Qed.

Lemma write_justified_keeps (w : world) c cache updated cache' updated' :
  write_justified is_windows w c cache updated cache' updated' ->
  (forall k, is_Some (cache !! k) -> is_Some (cache' !! k)) /\
  (forall k, k <> cam_key c -> cache' !! k = cache !! k).
Proof.
  intros Hjust. split.
  - intros k Hk.
    destruct Hjust as [[-> _] | [(m & _ & -> & _) | (e & ip' & _ & _ & -> & _)]];
      [exact Hk| |];
      (destruct (decide (cam_key c = k)) as [->|Hne];
       [rewrite lookup_insert_eq; eauto | rewrite lookup_insert_ne; auto]).
  - intros k Hk.
    destruct Hjust as [[-> _] | [(m & _ & -> & _) | (e & ip' & _ & _ & -> & _)]];
      [reflexivity| |]; rewrite lookup_insert_ne; auto.
Qed.

(** C7.  The evaluation of a camera always completes, and it changes the
    identity cache in two cases only: the camera answered at its address
    and that address resolved to a canonical hardware address, which is
    written with the address and the time; or the sweep resolved another
    address to the cached hardware address and the probe of that address
    was answered, and the entry receives that address and the time.  No
    entry is removed and no other camera's entry is touched.  On negative
    evidence (the address does not resolve, the sweep finds nothing, no
    probe is answered) the cache and its flag are left as they were. *)
Theorem cache_written_on_sightings_only (w : world) cache updated c :
  exists report cache' updated',
    camera_step is_windows mac_tracking_enabled w cache updated c
    = Ret (report, cache', updated') /\
    write_justified is_windows w c cache updated cache' updated' /\
    (forall k, is_Some (cache !! k) -> is_Some (cache' !! k)) /\
    (forall k, k <> cam_key c -> cache' !! k = cache !! k) /\
    (failed_resolution is_windows w c -> cache' = cache /\ updated' = updated) /\
    (failed_rediscovery is_windows w c -> cache' = cache /\ updated' = updated) /\
    (failed_probes is_windows w -> cache' = cache /\ updated' = updated).
Proof.
  destruct (camera_step_justified w cache updated c)
    as (report & cache' & updated' & Hstep & Hjust).
  exists report, cache', updated'. split; [exact Hstep|]. split; [exact Hjust|].
  destruct (write_justified_keeps _ _ _ _ _ _ Hjust) as [Hkeep Hother].
  split; [exact Hkeep|]. split; [exact Hother|]. split; [|split].
  - intros [(p & Hp & Hreach) Hnone].
    destruct Hjust as [[-> ->] | [(m & Hs & _) | (e & ip' & _ & Hs & _)]]; auto;
      exfalso.
    + destruct Hs as (_ & Hres & _). congruence.
    + destruct Hs as ((p0 & Hp0 & Hreach0) & _). congruence.
  - intros [(p & Hp & Hreach) Hnone].
    destruct Hjust as [[-> ->] | [(m & Hs & _) | (e & ip' & _ & Hs & _)]]; auto;
      exfalso.
    + destruct Hs as ((p0 & Hp0 & Hreach0) & _). congruence.
    + destruct Hs as (_ & _ & (pre & i & m & Hscan & _) & _).
      rewrite Hnone in Hscan. discriminate.
  - intros H.
    destruct Hjust as [[-> ->] | [(m & Hs & _) | (e & ip' & _ & Hs & _)]]; auto;
      exfalso.
    + destruct Hs as ((p0 & Hp0 & Hreach0) & _).
      rewrite (H _ _ Hp0) in Hreach0. discriminate.
    + destruct Hs as (_ & _ & _ & (p' & Hp' & Hreach')).
      rewrite (H _ _ Hp') in Hreach'. discriminate.
Qed.

(** Over a whole cycle: no key is lost, an entry differs from the loaded
    one only for a camera of the roster that was sighted, and the flag is
    raised only if some camera was. *)
Lemma camera_loop_changes (worlds : nat -> world) n cameras acc cache updated
      reports cache' updated' :
  camera_loop is_windows mac_tracking_enabled worlds n cameras acc cache updated
  = Ret (reports, cache', updated') ->
  (forall k, is_Some (cache !! k) -> is_Some (cache' !! k)) /\
  (forall k, cache' !! k <> cache !! k ->
     exists i c, nth_error cameras i = Some c /\ cam_key c = k /\
                 sighted is_windows (worlds (n + i)) c) /\
  (updated' <> updated ->
     exists i c, nth_error cameras i = Some c /\
                 sighted is_windows (worlds (n + i)) c).
Proof.
  revert n acc cache updated.
  induction cameras as [|c cameras IH]; intros n acc cache updated;
    cbn [camera_loop].
  - intros [= _ <- <-]. split; [auto|]. split; intros; contradiction.
  - destruct (camera_step_justified (worlds n) cache updated c)
      as (report & c1 & u1 & -> & Hjust).
    destruct (write_justified_keeps _ _ _ _ _ _ Hjust) as [Hkeep Hother].
    cbn [bind]. intros Hloop.
    destruct (IH _ _ _ _ Hloop) as (Hkeep' & Hdiff' & Hflag').
    assert (forall i c0, nth_error cameras i = Some c0 ->
                         nth_error (c :: cameras) (S i) = Some c0) as Hshift
        by (intros; assumption).
    assert (c1 = cache /\ u1 = updated \/ sighted is_windows (worlds n) c)
      as Hstep.
    { destruct Hjust as [H | [(m & Hs & _) | (e & ip' & _ & Hs & _)]];
        [left; exact H | right; left; eauto | right; right; eauto]. }
    split; [auto|]. split.
    + intros k Hk.
      destruct Hstep as [[-> _] | Hs].
      * destruct (Hdiff' k Hk) as (i & c0 & Hi & Hkey & Hsight).
        exists (S i), c0. replace (n + S i) with (S n + i) by lia. auto.
      * destruct (decide (cam_key c = k)) as [Heq|Hne].
        { exists 0, c. rewrite Nat.add_0_r. auto. }
        rewrite <- (Hother k) in Hk by congruence.
        destruct (Hdiff' k Hk) as (i & c0 & Hi & Hkey & Hsight).
        exists (S i), c0. replace (n + S i) with (S n + i) by lia. auto.
    + intros Hflag.
      destruct Hstep as [[_ ->] | Hs].
      * destruct (Hflag' Hflag) as (i & c0 & Hi & Hsight).
        exists (S i), c0. replace (n + S i) with (S n + i) by lia. auto.
      * exists 0, c. rewrite Nat.add_0_r. auto.
Qed.

(** The state is written back only after a sighting, and the keys of the
    other subsystems are written back as they were loaded. *)
Lemma run_once_cameras_saves_on_sighting
      (worlds : nat -> world) (state : State.t) cameras reports st :
  run_once_cameras is_windows mac_tracking_enabled worlds state cameras
  = Ret (reports, Some st) ->
  State.other_keys st = State.other_keys state /\
  exists i c, nth_error cameras i = Some c /\ sighted is_windows (worlds i) c.
Proof.
  unfold run_once_cameras.
  destruct (camera_loop _ _ _ _ _ _ _ _) as [[[rs c1] u1]|e] eqn:Hloop;
    cbn [bind]; [|discriminate].
  destruct u1; [|discriminate]. intros [= _ <-]. split; [reflexivity|].
  apply camera_loop_changes in Hloop as (_ & _ & Hflag).
  destruct Hflag as (i & c & Hi & Hs); [discriminate|]. eauto.
Qed.
Lemma track_returns (w : world) key (l : Locals.t) :
  exists l', track is_windows mac_tracking_enabled w key l = Ret l'.
Proof.
  unfold track. destruct mac_tracking_enabled; [|eauto].
  destruct (Locals.reachable l).
  - destruct (track_online_cases w key l) as (l' & -> & _). eauto.
  - destruct (Locals.mac_cache l !! key) as [e|]; [|eauto].
    destruct (track_offline_cases w key e l) as [-> | (? & ? & _ & _ & _ & _ & ->)];
      eauto.
Qed.

(** The evaluation of a camera never raises, and its report is built
    from the first probe and the locals the tracking block leaves. *)
Lemma camera_step_report (w : world) cache updated c :
  exists p l,
    first_probe is_windows w c = Ret p /\
    camera_step is_windows mac_tracking_enabled w cache updated c
    = Ret (report_of c (is_suspicious (reachable_of p) (avg_ms_of p) (Camera.ip c)) l,
           Locals.mac_cache l, Locals.mac_cache_updated l).
Proof.
  destruct (ping_ip_returns (subprocess_run w) (Camera.ip c) 4 1000 2) as [p Hp].
  exists p. rewrite (camera_step_unfold w cache updated c p Hp).
  match goal with |- context [track _ _ _ _ ?l0] =>
    destruct (track_returns w (cam_key c) l0) as [l ->]
  end.
  exists l. split; [exact Hp | reflexivity].
Qed.

Lemma camera_loop_reports (worlds : nat -> world) n cameras acc cache updated :
  exists reports cache' updated',
    camera_loop is_windows mac_tracking_enabled worlds n cameras acc cache updated
    = Ret (reports, cache', updated') /\
    length reports = length acc + length cameras /\
    map Report.name reports = map Report.name acc ++ map Camera.name cameras.
Proof.
  revert n acc cache updated.
  induction cameras as [|c cameras IH]; intros n acc cache updated;
    cbn [camera_loop].
  - exists acc, cache, updated. rewrite app_nil_r, Nat.add_0_r. auto.
  - destruct (camera_step_report (worlds n) cache updated c) as (p & l & _ & ->).
    cbn [bind].
    destruct (IH (S n) (acc ++ [report_of c
                (is_suspicious (reachable_of p) (avg_ms_of p) (Camera.ip c)) l])
                (Locals.mac_cache l) (Locals.mac_cache_updated l))
      as (reports & cache' & updated' & -> & Hlen & Hnames).
    exists reports, cache', updated'. split; [reflexivity|].
    rewrite Hlen, Hnames, length_app, map_app, <- app_assoc. cbn. split; [lia|auto].
Qed.

(** On cameras whose names and addresses are strings the loop completes
    whatever the commands do, with one report per camera in the order
    of the roster. *)
Lemma run_once_cameras_returns
        (worlds : nat -> world) (state : State.t) (cameras : list Camera.t) :
  exists reports saved,
    run_once_cameras is_windows mac_tracking_enabled worlds state cameras
    = Ret (reports, saved) /\
    length reports = length cameras /\
    map Report.name reports = map Camera.name cameras.
Proof.
  unfold run_once_cameras.
  match goal with |- context [camera_loop _ _ _ _ _ _ ?m _] =>
    destruct (camera_loop_reports worlds 0 cameras [] m false)
      as (reports & cache' & updated' & -> & Hlen & Hnames)
  end.
  cbn [bind]. do 2 eexists. split; [reflexivity|]. auto.
Qed.

Lemma float_gt_finite q bound :
  Py.float_gt (Py.Finite q) bound = true <-> (bound < q)%Q.
Proof.
  cbn. destruct (Qle_bool q bound) eqn:Hle; cbn.
  - apply Qle_bool_iff in Hle. split; [discriminate|].
    intros Hlt. exfalso. exact (Qlt_not_le _ _ Hlt Hle).
  - split; [|reflexivity]. intros _. apply Qnot_le_lt. intros Hle'.
    apply Qle_bool_iff in Hle'. congruence.
Qed.

Lemma is_suspicious_iff reachable avg_ms ip :
  is_suspicious reachable avg_ms ip = true <->
  reachable = true /\
  (exists v, avg_ms = Some v /\ Py.float_gt v 500 = true) /\
  (exists pre, In pre ["192.168."; "10."; "172."] /\ Py.startswith ip pre = true).
Proof.
  unfold is_suspicious. split.
  - destruct reachable; [|discriminate]. destruct avg_ms as [v|]; [|discriminate].
    cbn [andb]. destruct (Py.float_gt v 500) eqn:Hgt; [|discriminate].
    destruct (existsb (Py.startswith ip) ["192.168."; "10."; "172."]) eqn:Hex;
      [|discriminate].
    intros _. apply existsb_exists in Hex.
    split; [reflexivity|]. split; [exists v; auto | exact Hex].
  - intros (-> & (v & -> & ->) & Hpre). cbn [andb].
    apply existsb_exists in Hpre. rewrite Hpre. reflexivity.
Qed.

(** What the code does on the path of C2, for every input: the camera is
    silent, the sweep finds another address, the probe of that address
    is not answered; the report says down and relocated, with the
    configured address as both the address and the previous address. *)
Lemma failed_reprobe_reported_as_relocation (w : world) cache updated c e new_ip p p' :
  mac_tracking_enabled = true ->
  first_probe is_windows w c = Ret p ->
  reachable_of p = false ->
  cache !! cam_key c = Some e ->
  Py.truthy (Entry.mac e) = true ->
  length (Py.split (Camera.ip c) ".") = 4 ->
  scan_network_for_mac is_windows (subprocess_run w) (pool w) (Entry.mac e)
                       (prefix_of (Py.split (Camera.ip c) ".")) 30 = Some new_ip ->
  Py.truthy new_ip = true ->
  new_ip <> Camera.ip c ->
  ping_ip is_windows (subprocess_run w) new_ip 4 1000 2 = Ret p' ->
  reachable_of p' = false ->
  exists report,
    camera_step is_windows mac_tracking_enabled w cache updated c
    = Ret (report, cache, updated) /\
    Report.status report = "down" /\
    Report.ip_changed report = true /\
    Report.ip report = Camera.ip c /\
    Report.old_ip report = Some (Camera.ip c).
Proof.
  intros Hon Hp Hreach He Hmac Hlen Hscan Hnew Hne Hp' Hreach'.
  rewrite (camera_step_unfold w cache updated c p Hp).
  unfold track. rewrite Hon. cbn [Locals.reachable Locals.mac_cache].
  rewrite Hreach, He. unfold track_offline. cbn [Locals.ip].
  rewrite Hmac, Hlen, Hscan, Hnew. cbn [negb Nat.eqb andb].
  destruct (String.eqb_spec new_ip (Camera.ip c)) as [|_]; [contradiction|].
  cbn [negb]. rewrite Hp'. destruct p' as [[[r a] lo] t].
  cbn in Hreach'. subst r. cbn [bind].
  eexists. split; [reflexivity|]. cbn. auto.
Qed.
End Cycle.

(** C3 (counterexample).  The camera is cached with its hardware address,
    last seen at time 100 at 10.0.0.5.  Recording the same hardware
    address at time 200 for the address 10.0.0.6 leaves the time of the
    last sighting at 100 and the last address at 10.0.0.5. *)
Lemma record_same_mac_refreshes_nothing :
  known_cache !! "cam1" = Some (entry_at "AA:BB:CC:DD:EE:FF" "10.0.0.5" 100) /\
  (record "cam1" "AA:BB:CC:DD:EE:FF" "10.0.0.6" 200 known_cache).1 !! "cam1"
  = Some (entry_at "AA:BB:CC:DD:EE:FF" "10.0.0.5" 100).
Proof. split; vm_compute; reflexivity. Qed.

(** C2 (code bug).  The camera cached with its hardware address is silent
    at 10.0.0.5, the sweep finds the address at 10.0.0.9, and the probe
    of 10.0.0.9 is not answered.  The report says down, and it also says
    relocated, with 10.0.0.5 as previous address and as address. *)
Theorem failed_reprobe_leaves_relocation_flag :
  (exists tail, first_probe true (world_moved request_timed_out) camera_5
                = Ret (false, None, None, tail)) /\
  scan_network_for_mac true (sp_moved request_timed_out)
                       (sched_uniform 1 2 (seq 1 254))
                       "AA:BB:CC:DD:EE:FF" "10.0.0." 30 = Some "10.0.0.9" /\
  (exists tail, ping_ip true (sp_moved request_timed_out) "10.0.0.9" 4 1000 2
                = Ret (false, None, None, tail)) /\
  camera_step true true (world_moved request_timed_out) known_cache false camera_5
  = Ret ({| Report.name := Some "cam1";
            Report.ip := "10.0.0.5";
            Report.status := "down";
            Report.latency_ms := None;
            Report.packet_loss := None;
            Report.suspicious := false;
            Report.mac_address := None;
            Report.ip_changed := true;
            Report.old_ip := Some "10.0.0.5" |},
         known_cache, false).
Proof.
  split; [eexists; vm_compute; reflexivity|].
  split; [vm_compute; reflexivity|].
  split; [eexists; vm_compute; reflexivity|].
  vm_compute. reflexivity.
Qed.

(** The relocation of the specification's end-to-end example: the probe
    of 10.0.0.9 is answered, the report says up at 10.0.0.9, relocated
    from 10.0.0.5, and the entry receives the new address. *)
Example relocation_end_to_end :
  exists report cache',
    camera_step true true (world_moved reply_700ms) known_cache false camera_5
    = Ret (report, cache', true) /\
    Report.status report = "up" /\
    Report.ip report = "10.0.0.9" /\
    Report.ip_changed report = true /\
    Report.old_ip report = Some "10.0.0.5" /\
    cache' !! "cam1" = Some (entry_at "AA:BB:CC:DD:EE:FF" "10.0.0.9" 200).
Proof.
  do 2 eexists. split; [vm_compute; reflexivity|].
  repeat split; vm_compute; reflexivity.
Qed.

(** No command can be started: both cameras are reported, as down. *)
Example cycle_without_commands :
  exists r1 r2,
    run_once_cameras true true (fun _ => world_without_commands)
                     {| State.camera_mac_cache := Some known_cache;
                        State.other_keys := ∅ |}
                     [camera_5; camera_5]
    = Ret ([r1; r2], None) /\
    Report.status r1 = "down" /\ Report.status r2 = "down".
Proof.
  do 2 eexists. split; [vm_compute; reflexivity|]. split; reflexivity.
Qed.

(** A camera of the local network that answers after 700 ms. *)
Example slow_camera_is_suspicious :
  exists report cache' updated',
    camera_step true true (world_moved reply_700ms) ∅ false
                {| Camera.id := None; Camera.name := Some "cam9";
                   Camera.ip := "10.0.0.9" |}
    = Ret (report, cache', updated') /\
    Report.status report = "up" /\
    Report.latency_ms report = Some (Py.Finite 700) /\
    Report.suspicious report = true.
Proof.
  do 3 eexists. split; [vm_compute; reflexivity|].
  repeat split; reflexivity.
Qed.

(** * Further properties *)

(** ** The prober: which attempts count *)

Section ProberResults.
Variable is_windows : bool.

Lemma ping_evaluate_eq proc :
  ping_evaluate is_windows proc
  = Ret (passes is_windows proc,
         parsed_avg is_windows (output_of proc),
         parsed_loss is_windows (output_of proc),
         output_of proc).
Proof.
  unfold ping_evaluate, passes, parsed_avg, parsed_loss.
  assert (exists a l, (if is_windows then parse_windows (output_of proc)
                       else parse_posix (output_of proc)) = Ret (a, l))
    as (a & l & ->).
  { destruct is_windows; [apply parse_windows_returns | apply parse_posix_returns]. }
  cbn [bind]. do 4 f_equal.
  destruct ((returncode proc =? 0)%Z), (loss_is_total l), (is_none a),
    (has_success (output_of proc)); reflexivity.
Qed.

Lemma ping_try_eq (run : result completed_process) :
  ping_try is_windows run
  = Ret match run with
        | Ret proc =>
            if passes is_windows proc then inl (data_of is_windows proc)
            else inr (Py.last_chars 500 (output_of proc))
        | Raise e => inr ("ping error: " +:+ str_exn e)
        end.
Proof.
  unfold ping_try, ping_attempt, data_of. destruct run as [proc|e]; [|reflexivity].
  cbn [bind]. rewrite ping_evaluate_eq. cbn [bind try_except].
  destruct (passes is_windows proc); reflexivity.
Qed.

Lemma ping_loop_result run remaining attempt last_error :
  (exists k proc,
      k < remaining /\
      first_passing is_windows (fun j => run (attempt + j)) k proc /\
      ping_loop is_windows run remaining attempt last_error
      = Ret (data_of is_windows proc))
  \/
  ((forall j proc, j < remaining -> run (attempt + j) = Ret proc ->
                   passes is_windows proc = false) /\
   exists tail,
     ping_loop is_windows run remaining attempt last_error
     = Ret (false, None, None, tail)).
Proof.
  revert attempt last_error.
  induction remaining as [|remaining IH]; intros attempt last_error;
    cbn [ping_loop].
  - right. split; [intros; lia | eauto].
  - rewrite ping_try_eq. cbn [bind].
    destruct (run attempt) as [proc|e] eqn:Hrun.
    + destruct (passes is_windows proc) eqn:Hpass.
      * left. exists 0, proc. split; [lia|]. split; [|reflexivity].
        unfold first_passing. rewrite Nat.add_0_r.
        split; [exact Hrun|]. split; [exact Hpass|]. intros; lia.
      * destruct (IH (S attempt) (Some (Py.last_chars 500 (output_of proc))))
          as [(k & proc' & Hk & (Hr & Hp & Hbefore) & ->) | (Hnone & tail & ->)].
        -- left. exists (S k), proc'. split; [lia|]. split; [|reflexivity].
           unfold first_passing.
           replace (attempt + S k) with (S attempt + k) by lia.
           split; [exact Hr|]. split; [exact Hp|].
           intros j proc'' Hj Hrj. destruct j as [|j].
           ++ rewrite Nat.add_0_r in Hrj. congruence.
           ++ apply (Hbefore j proc''); [lia|].
              replace (S attempt + j) with (attempt + S j) by lia. exact Hrj.
        -- right. split; [|eauto]. intros j proc' Hj Hrj. destruct j as [|j].
           ++ rewrite Nat.add_0_r in Hrj. congruence.
           ++ apply (Hnone j proc'); [lia|].
              replace (S attempt + j) with (attempt + S j) by lia. exact Hrj.
    + destruct (IH (S attempt) (Some ("ping error: " +:+ str_exn e)))
        as [(k & proc' & Hk & (Hr & Hp & Hbefore) & ->) | (Hnone & tail & ->)].
      * left. exists (S k), proc'. split; [lia|]. split; [|reflexivity].
        unfold first_passing.
        replace (attempt + S k) with (S attempt + k) by lia.
        split; [exact Hr|]. split; [exact Hp|].
        intros j proc'' Hj Hrj. destruct j as [|j].
        -- rewrite Nat.add_0_r in Hrj. congruence.
        -- apply (Hbefore j proc''); [lia|].
           replace (S attempt + j) with (attempt + S j) by lia. exact Hrj.
      * right. split; [|eauto]. intros j proc' Hj Hrj. destruct j as [|j].
        -- rewrite Nat.add_0_r in Hrj. congruence.
        -- apply (Hnone j proc'); [lia|].
           replace (S attempt + j) with (attempt + S j) by lia. exact Hrj.
Qed.

Lemma length_substring n m s : String.length (substring n m s) <= m.
Proof.
  revert n m. induction s as [|c s IH]; intros n m.
  - destruct n, m; cbn; lia.
  - destruct n as [|n]; destruct m as [|m]; cbn; try lia.
    + specialize (IH 0 m). lia.
    + apply IH.
    + apply IH.
Qed.

(** X1.  The probe reports reachable exactly when, within its [retry]
    attempts, some process ran to completion and passed the validations:
    exit code 0, parsed loss below 100, and a parsed latency or reply
    evidence in the output.  In particular it never reports reachable on
    the strength of a process that exited with a code other than 0. *)
Theorem ping_ip_reachable_iff (sp : subprocess) ip count timeout_ms retry :
  exists p,
    ping_ip is_windows sp ip count timeout_ms retry = Ret p /\
    (reachable_of p = true <->
     exists n proc,
       n < retry /\
       sp (ping_cmd is_windows ip count timeout_ms) n = Ret proc /\
       passes is_windows proc = true).
Proof.
  unfold ping_ip.
  destruct (ping_loop_result (sp (ping_cmd is_windows ip count timeout_ms))
              retry 0 None)
    as [(k & proc & Hk & (Hr & Hp & _) & ->) | (Hnone & tail & ->)].
  - eexists. split; [reflexivity|]. split; [|reflexivity].
    intros _. exists k, proc. auto.
  - eexists. split; [reflexivity|]. split; [discriminate|].
    intros (n & proc & Hn & Hr & Hp).
    rewrite (Hnone n proc Hn Hr) in Hp. discriminate.
Qed.

Lemma ping_ip_unreachable_bare (sp : subprocess) ip count timeout_ms retry p :
  ping_ip is_windows sp ip count timeout_ms retry = Ret p ->
  reachable_of p = false ->
  avg_ms_of p = None /\ loss_of p = None.
Proof.
  unfold ping_ip.
  destruct (ping_loop_result (sp (ping_cmd is_windows ip count timeout_ms))
              retry 0 None)
    as [(k & proc & Hk & Hfirst & ->) | (Hnone & tail & ->)];
    intros [= <-]; [discriminate|auto].
Qed.

(** X2.  What the probe hands back.  A reachable result is the data of
    the first attempt that passed: the latency and loss parsed from its
    output and the last 500 characters of that output, never more.  An
    unreachable result carries neither latency nor loss, whatever the
    failing attempts printed. *)
Theorem ping_ip_result_data (sp : subprocess) ip count timeout_ms retry :
  exists p,
    ping_ip is_windows sp ip count timeout_ms retry = Ret p /\
    (reachable_of p = true ->
     String.length (tail_of p) <= 500 /\
     exists n proc,
       n < retry /\
       first_passing is_windows (sp (ping_cmd is_windows ip count timeout_ms)) n proc /\
       p = data_of is_windows proc) /\
    (reachable_of p = false -> avg_ms_of p = None /\ loss_of p = None).
Proof.
  unfold ping_ip.
  destruct (ping_loop_result (sp (ping_cmd is_windows ip count timeout_ms))
              retry 0 None)
    as [(k & proc & Hk & Hfirst & ->) | (Hnone & tail & ->)].
  - eexists. split; [reflexivity|]. split; [|discriminate].
    intros _. split; [apply length_substring|]. exists k, proc. auto.
  - eexists. split; [reflexivity|]. split; [discriminate|]. auto.
Qed.

(** X3.  The first validation.  When every process that runs has a
    parsed loss of 100 or more, the probe reports unreachable, also when
    the processes exit with 0 and print replies. *)
Theorem ping_ip_total_loss_unreachable (sp : subprocess) ip count timeout_ms retry :
  (forall n proc,
     n < retry ->
     sp (ping_cmd is_windows ip count timeout_ms) n = Ret proc ->
     loss_is_total (parsed_loss is_windows (output_of proc)) = true) ->
  exists tail,
    ping_ip is_windows sp ip count timeout_ms retry = Ret (false, None, None, tail).
Proof.
  intros Hloss. unfold ping_ip.
  destruct (ping_loop_result (sp (ping_cmd is_windows ip count timeout_ms))
              retry 0 None)
    as [(k & proc & Hk & (Hr & Hp & _) & _) | (_ & tail & ->)]; [|eauto].
  exfalso. cbn in Hr. unfold passes in Hp.
  rewrite (Hloss k proc Hk Hr) in Hp.
  rewrite andb_false_r in Hp. discriminate.
Qed.
End ProberResults.

(** The exit code is 0 and a reply line is printed, with every packet
    lost: unreachable. *)
Lemma ping_ip_total_loss_unreachable_witness :
  returncode reply_all_lost = 0%Z /\
  has_success (output_of reply_all_lost) = true /\
  exists tail,
    ping_ip true (fun _ _ => Ret reply_all_lost) "10.0.0.5" 4 1000 2
    = Ret (false, None, None, tail).
Proof.
  split; [reflexivity|]. split; [vm_compute; reflexivity|].
  apply (ping_ip_total_loss_unreachable true
           (fun _ _ => Ret reply_all_lost) "10.0.0.5" 4 1000 2).
  intros n proc _ Hrun. injection Hrun as <-. vm_compute. reflexivity.
Defined.

(** ** The resolver: canonical addresses and the priming probe *)

Lemma octets_inv n s :
  octets n s = true ->
  exists a b rest,
    s = String a (String b rest) /\
    is_upper_hex a = true /\ is_upper_hex b = true /\
    ((rest = EmptyString /\ n = 1) \/
     exists n' rest', n = S n' /\ rest = String ":" rest' /\ octets n' rest' = true).
Proof.
  destruct n as [|n']; [discriminate|]. cbn [octets].
  destruct s as [|a [|b rest]]; try discriminate.
  intros H. apply andb_prop in H as [Hab Hrest].
  apply andb_prop in Hab as [Ha Hb].
  exists a, b, rest. repeat (split; [solve [auto]|]).
  destruct rest as [|c rest'].
  - left. apply Nat.eqb_eq in Hrest. auto.
  - right. apply andb_prop in Hrest as [Hc Hoct].
    apply Ascii.eqb_eq in Hc. subst c. eauto.
Qed.

Lemma upper_hex_fixed c :
  is_upper_hex c = true -> normal_char c = c /\ Py.ishex c = true.
Proof.
  destruct c as [[] [] [] [] [] [] [] []]; intros H;
    vm_compute in H; try discriminate; vm_compute; auto.
Qed.

Lemma canonical_chars m :
  canonical_mac m = true ->
  exists a1 b1 a2 b2 a3 b3 a4 b4 a5 b5 a6 b6,
    m = String a1 (String b1 (String ":" (String a2 (String b2 (String ":"
        (String a3 (String b3 (String ":" (String a4 (String b4 (String ":"
        (String a5 (String b5 (String ":" (String a6 (String b6
        EmptyString)))))))))))))))) /\
    Forall (fun c => is_upper_hex c = true)
           [a1; b1; a2; b2; a3; b3; a4; b4; a5; b5; a6; b6].
Proof.
  unfold canonical_mac. intros H.
  do 5 (apply octets_inv in H
          as (? & ? & ? & -> & ? & ? &
              [[_ [=]] | (? & ? & [= <-] & -> & H)])).
  apply octets_inv in H
      as (? & ? & ? & -> & ? & ? & [[-> _] | (? & ? & [= <-] & _ & H)]);
    [|discriminate].
  do 12 eexists. split; [reflexivity|]. repeat constructor; assumption.
Qed.

(** X4.  Normalisation leaves a canonical address as it is, and the
    search reads a canonical address back unchanged: an address the
    resolver returned is found again in its own text. *)
Theorem canonical_mac_read_back m :
  canonical_mac m = true ->
  normalize_mac m = m /\ first_mac mac_patterns m = Some m.
Proof.
  intros H. destruct (canonical_chars m H)
    as (a1 & b1 & a2 & b2 & a3 & b3 & a4 & b4 & a5 & b5 & a6 & b6 & -> & Hall).
  repeat match goal with
         | Hf : Forall _ (_ :: _) |- _ =>
             let Hc := fresh "Hc" in
             apply Forall_cons_iff in Hf as [Hc Hf];
             apply upper_hex_fixed in Hc as [? ?]
         end.
  assert (normalize_mac
            (String a1 (String b1 (String ":" (String a2 (String b2 (String ":"
            (String a3 (String b3 (String ":" (String a4 (String b4 (String ":"
            (String a5 (String b5 (String ":" (String a6 (String b6
             EmptyString)))))))))))))))))
          = String a1 (String b1 (String ":" (String a2 (String b2 (String ":"
            (String a3 (String b3 (String ":" (String a4 (String b4 (String ":"
            (String a5 (String b5 (String ":" (String a6 (String b6
             EmptyString))))))))))))))))) as Hnorm.
  { unfold normalize_mac, Py.replace, Py.upper.
    cbn [Py.map_chars String.length Nat.eqb].
    repeat match goal with
           | |- context [Py.upper_char (if Ascii.eqb ?c "-" then ":"%char else ?c)] =>
               change (Py.upper_char (if Ascii.eqb c "-" then ":"%char else c))
                 with (normal_char c)
           end.
    repeat match goal with
           | Hc : normal_char ?c = ?c |- _ => rewrite Hc; clear Hc
           end.
    reflexivity. }
  split; [exact Hnorm|].
  rewrite first_mac_refines. unfold first_mac_spec.
  assert (first_occurrence separated_mac
            (String a1 (String b1 (String ":" (String a2 (String b2 (String ":"
            (String a3 (String b3 (String ":" (String a4 (String b4 (String ":"
            (String a5 (String b5 (String ":" (String a6 (String b6
             EmptyString)))))))))))))))))
          = Some (String a1 (String b1 (String ":" (String a2 (String b2 (String ":"
            (String a3 (String b3 (String ":" (String a4 (String b4 (String ":"
            (String a5 (String b5 (String ":" (String a6 (String b6
             EmptyString)))))))))))))))))) as ->.
  { unfold separated_mac. cbn [concat repeat app first_occurrence split_head].
    repeat match goal with
           | Hc : Py.ishex ?c = true |- _ => rewrite Hc; clear Hc
           end.
    reflexivity. }
  rewrite Hnorm. reflexivity.
Qed.

Lemma canonical_mac_read_back_witness :
  normalize_mac "AA:BB:CC:DD:EE:FF" = "AA:BB:CC:DD:EE:FF" /\
  first_mac mac_patterns "AA:BB:CC:DD:EE:FF" = Some "AA:BB:CC:DD:EE:FF".
Proof. apply (canonical_mac_read_back "AA:BB:CC:DD:EE:FF"). reflexivity. Defined.

(** X5.  The resolver's answer is decided by the table command alone: the
    priming probe may be answered, time out or fail to start without
    changing it. *)
Theorem get_mac_address_ignores_priming is_windows (sp sp' : subprocess) ip :
  sp (arp_cmd is_windows ip) 0 = sp' (arp_cmd is_windows ip) 0 ->
  get_mac_address is_windows sp ip = get_mac_address is_windows sp' ip.
Proof.
  intros H. rewrite !get_mac_address_cases, H. reflexivity.
Qed.

Lemma get_mac_address_ignores_priming_witness :
  get_mac_address true (sp_moved request_timed_out) "10.0.0.9"
  = get_mac_address true sp_primed "10.0.0.9".
Proof.
  apply (get_mac_address_ignores_priming true
           (sp_moved request_timed_out) sp_primed "10.0.0.9").
  reflexivity.
Defined.

(** ** The sweep: what it returns *)

Section SweepResults.
Variable is_windows : bool.
Variable sp : subprocess.
Variable sched : schedule.
Variables mac network_prefix : string.
Variable timeout_sec : Z.

(** X6.  The sweep never returns an address on anything but a match: a
    returned address is the address of a yielded suffix whose unit
    started within the deadline and resolved that very address to a
    canonical hardware address equal to the target. *)
Theorem scan_returns_resolved_address ip :
  scan_network_for_mac is_windows sp sched mac network_prefix timeout_sec = Some ip ->
  exists i m,
    In i (yielded sched) /\
    ip = network_prefix +:+ Py.str_of_nat i /\
    unit_hits is_windows sp sched mac network_prefix timeout_sec i /\
    get_mac_address is_windows sp ip = Ret (Some m) /\
    canonical_mac m = true /\
    matches_target m mac.
Proof.
  intros H.
  apply scan_some in H as (i & m & Hin & Hstart & -> & Hres & Hm).
  exists i, m. split; [exact Hin|]. split; [reflexivity|].
  split; [split; [exact Hstart | eauto]|].
  split; [exact Hres|]. split; [|exact Hm].
  eapply get_mac_address_canonical, Hres.
Qed.

Lemma first_completed_app (f : nat -> result (option string)) before rest :
  (forall j ip, In j before -> f j <> Ret (Some ip)) ->
  first_completed (map f (before ++ rest)) = first_completed (map f rest).
Proof.
  induction before as [|j before IH]; intros Hnone; [reflexivity|].
  cbn. destruct (f j) as [[ip|]|e] eqn:Hj.
  - exfalso. apply (Hnone j ip); [left; reflexivity | exact Hj].
  - apply IH. intros j' ip' Hin. apply Hnone. right. exact Hin.
  - apply IH. intros j' ip' Hin. apply Hnone. right. exact Hin.
Qed.

(** X7.  When several units would match, the one whose future is yielded
    first decides: the sweep returns the address of the first yielded
    suffix that hits, whatever the suffixes yielded after it resolve to. *)
Theorem scan_first_yielded_hit before i after :
  yielded sched = before ++ i :: after ->
  In i (seq 1 254) ->
  (forall j, In j before ->
     ~ unit_hits is_windows sp sched mac network_prefix timeout_sec j) ->
  unit_hits is_windows sp sched mac network_prefix timeout_sec i ->
  scan_network_for_mac is_windows sp sched mac network_prefix timeout_sec
  = Some (network_prefix +:+ Py.str_of_nat i).
Proof.
  intros Horder Hi Hbefore (Hstart & m & Hres & Hm).
  unfold scan_network_for_mac. rewrite Horder.
  rewrite first_completed_app.
  - cbn [map first_completed].
    rewrite (check_ip_hit is_windows sp sched mac network_prefix timeout_sec
               i m Hstart Hres Hm).
    rewrite (suffix_truthy is_windows sp sched mac network_prefix timeout_sec i Hi).
    reflexivity.
  - intros j ip Hin Hj.
    apply check_ip_some in Hj as (Hs & _ & m' & Hres' & Hm').
    apply (Hbefore j Hin). split; [exact Hs | eauto].
Qed.
End SweepResults.

Lemma none_resolves_elim (sp : subprocess) js j m :
  none_resolves sp js = true ->
  In j js ->
  ~ resolves true sp "10.0.0." j m.
Proof.
  intros Hall Hin Hres. unfold none_resolves in Hall.
  pose proof (proj1 (forallb_forall _ _) Hall j Hin) as Hj. cbn beta in Hj.
  unfold resolves in Hres. rewrite Hres in Hj. discriminate.
Qed.

(** Two devices hold the address.  Yielded from 254 down to 1, the sweep
    answers 10.0.0.200. *)
Lemma scan_first_yielded_hit_witness :
  scan_network_for_mac true sp_twins (sched_uniform 1 2 (rev (seq 1 254)))
                       "AA:BB:CC:DD:EE:FF" "10.0.0." 30 = Some "10.0.0.200".
Proof.
  apply (scan_first_yielded_hit true sp_twins
           (sched_uniform 1 2 (rev (seq 1 254))) "AA:BB:CC:DD:EE:FF" "10.0.0." 30
           (rev (seq 201 54)) 200 (rev (seq 1 199))).
  - vm_compute. reflexivity.
  - apply in_seq. lia.
  - intros j Hj (_ & m & Hres & _).
    eapply (none_resolves_elim sp_twins (rev (seq 201 54))); [|exact Hj|exact Hres].
    vm_compute. reflexivity.
  - split; [vm_compute; discriminate|].
    exists "AA:BB:CC:DD:EE:FF". split; vm_compute; reflexivity.
Defined.

(** Yielded from 1 up to 254, the same sweep answers 10.0.0.9. *)
Example scan_twins_other_order :
  scan_network_for_mac true sp_twins (sched_uniform 1 2 (seq 1 254))
                       "AA:BB:CC:DD:EE:FF" "10.0.0." 30 = Some "10.0.0.9".
Proof. vm_compute. reflexivity. Qed.

Lemma scan_returns_resolved_address_witness :
  exists i m,
    In i (yielded (sched_uniform 1 2 (seq 1 254))) /\
    "10.0.0.9" = "10.0.0." +:+ Py.str_of_nat i /\
    unit_hits true (sp_moved request_timed_out) (sched_uniform 1 2 (seq 1 254))
              "aa-bb-cc-dd-ee-ff" "10.0.0." 30 i /\
    get_mac_address true (sp_moved request_timed_out) "10.0.0.9" = Ret (Some m) /\
    canonical_mac m = true /\
    matches_target m "aa-bb-cc-dd-ee-ff".
Proof.
  apply (scan_returns_resolved_address true (sp_moved request_timed_out)
           (sched_uniform 1 2 (seq 1 254)) "aa-bb-cc-dd-ee-ff" "10.0.0." 30).
  vm_compute. reflexivity.
Defined.

Lemma map_chars_compose f g s :
  Py.map_chars f (Py.map_chars g s) = Py.map_chars (fun c => f (g c)) s.
Proof.
  induction s as [|c s IH]; [reflexivity|]. cbn. rewrite IH. reflexivity.
Qed.

Lemma map_chars_ext f g s :
  (forall c, f c = g c) -> Py.map_chars f s = Py.map_chars g s.
Proof.
  intros H. induction s as [|c s IH]; [reflexivity|]. cbn. rewrite H, IH.
  reflexivity.
Qed.

Lemma normalized_char_spellings c :
  normalized_char (Py.upper_char c) = normalized_char c /\
  normalized_char (Py.lower_char c) = normalized_char c /\
  normalized_char (if Ascii.eqb c "-" then ":"%char else c) = normalized_char c /\
  normalized_char (if Ascii.eqb c ":" then "-"%char else c) = normalized_char c.
Proof.
  destruct c as [[] [] [] [] [] [] [] []]; vm_compute; auto.
Qed.

(** X8.  The sweep reads its target without regard to case and to the
    choice between colons and hyphens: the target in upper case, in lower
    case, with its hyphens turned into colons or its colons into hyphens
    gives the same sweep. *)
Theorem scan_target_spelling is_windows (sp : subprocess) (sched : schedule)
        mac network_prefix timeout_sec :
  let scan m := scan_network_for_mac is_windows sp sched m network_prefix
                                     timeout_sec in
  scan (Py.upper mac) = scan mac /\
  scan (Py.lower mac) = scan mac /\
  scan (Py.replace "-" ":" mac) = scan mac /\
  scan (Py.replace ":" "-" mac) = scan mac.
Proof.
  assert (forall g,
             (forall c, normalized_char (g c) = normalized_char c) ->
             Py.replace "-" ":" (Py.upper (Py.map_chars g mac))
             = Py.replace "-" ":" (Py.upper mac)) as Hnorm.
  { intros g Hg. unfold Py.replace, Py.upper. rewrite !map_chars_compose.
    apply map_chars_ext. intros c. apply (Hg c). }
  assert (Py.replace "-" ":" (Py.upper (Py.upper mac))
          = Py.replace "-" ":" (Py.upper mac)) as H1
      by (apply (Hnorm Py.upper_char); intros c; apply normalized_char_spellings).
  assert (Py.replace "-" ":" (Py.upper (Py.lower mac))
          = Py.replace "-" ":" (Py.upper mac)) as H2
      by (apply (Hnorm Py.lower_char); intros c; apply normalized_char_spellings).
  assert (Py.replace "-" ":" (Py.upper (Py.replace "-" ":" mac))
          = Py.replace "-" ":" (Py.upper mac)) as H3
      by (apply (Hnorm (fun c => if Ascii.eqb c "-" then ":"%char else c));
          intros c; apply normalized_char_spellings).
  assert (Py.replace "-" ":" (Py.upper (Py.replace ":" "-" mac))
          = Py.replace "-" ":" (Py.upper mac)) as H4
      by (apply (Hnorm (fun c => if Ascii.eqb c ":" then "-"%char else c));
          intros c; apply normalized_char_spellings).
  cbn zeta. unfold scan_network_for_mac. rewrite H1, H2, H3, H4. auto.
Qed.

(** ** The camera loop: what a report says *)

Section Reports.
Variables is_windows mac_tracking_enabled : bool.

Lemma track_online_eq (w : world) (p : probe) c cache updated :
  exists mac_address,
    get_mac_address is_windows (subprocess_run w) (Camera.ip c) = Ret mac_address /\
    (forall m, mac_address = Some m -> canonical_mac m = true) /\
    track_online is_windows w (cam_key c) (locals_of p c cache updated)
    = Ret (locals_online w p c mac_address cache updated).
Proof.
  unfold track_online. cbn [locals_of Locals.ip Locals.mac_cache].
  destruct (get_mac_address is_windows (subprocess_run w) (Camera.ip c))
    as [[m|]|e] eqn:Hres;
    [| |rewrite get_mac_address_cases in Hres; discriminate].
  - exists (Some m). split; [reflexivity|].
    pose proof (get_mac_address_canonical _ _ _ _ Hres) as Hcan.
    split; [intros ? [= <-]; exact Hcan|]. cbn [bind].
    rewrite (canonical_truthy m Hcan).
    destruct (record (cam_key c) m (Camera.ip c) (time_time w) cache)
      as [cache' written] eqn:Hrec.
    unfold locals_online, locals_of. cbn. rewrite Hrec. reflexivity.
  - exists None. split; [reflexivity|]. split; [discriminate|]. reflexivity.
Qed.

(** The three ways the body of the loop can go. *)
Lemma camera_step_shape (w : world) cache updated c :
  exists p l,
    first_probe is_windows w c = Ret p /\
    camera_step is_windows mac_tracking_enabled w cache updated c
    = Ret (report_of c (is_suspicious (reachable_of p) (avg_ms_of p) (Camera.ip c)) l,
           Locals.mac_cache l, Locals.mac_cache_updated l) /\
    (l = locals_of p c cache updated
     \/
     (mac_tracking_enabled = true /\ reachable_of p = true /\
      exists mac_address,
        get_mac_address is_windows (subprocess_run w) (Camera.ip c)
        = Ret mac_address /\
        (forall m, mac_address = Some m -> canonical_mac m = true) /\
        l = locals_online w p c mac_address cache updated)
     \/
     (mac_tracking_enabled = true /\ reachable_of p = false /\
      exists e new_ip p',
        cache !! cam_key c = Some e /\
        scan_network_for_mac is_windows (subprocess_run w) (pool w) (Entry.mac e)
                             (prefix_of (Py.split (Camera.ip c) ".")) 30
        = Some new_ip /\
        new_ip <> Camera.ip c /\
        ping_ip is_windows (subprocess_run w) new_ip 4 1000 2 = Ret p' /\
        l = locals_relocated w p' c e new_ip cache updated)).
Proof.
  destruct (ping_ip_returns is_windows (subprocess_run w) (Camera.ip c) 4 1000 2)
    as [p Hp].
  exists p. rewrite (camera_step_unfold _ _ w cache updated c p Hp).
  change {| Locals.reachable := reachable_of p;
            Locals.avg_ms := avg_ms_of p;
            Locals.loss := loss_of p;
            Locals.ip := Camera.ip c;
            Locals.mac_address := None;
            Locals.ip_changed := false;
            Locals.mac_cache := cache;
            Locals.mac_cache_updated := updated |}
    with (locals_of p c cache updated).
  unfold track. destruct mac_tracking_enabled.
  2:{ cbn [bind]. eexists. split; [exact Hp|]. split; [reflexivity|]. auto. }
  cbn [locals_of Locals.reachable Locals.mac_cache].
  fold (locals_of p c cache updated).
  destruct (reachable_of p) eqn:Hreach.
  - destruct (track_online_eq w p c cache updated) as (ma & Hres & Hcan & ->).
    cbn [bind]. eexists. split; [exact Hp|]. split; [reflexivity|].
    right. left. split; [reflexivity|]. split; [reflexivity|].
    exists ma. auto.
  - destruct (cache !! cam_key c) as [e|] eqn:He.
    2:{ cbn [bind]. eexists. split; [exact Hp|]. split; [reflexivity|]. auto. }
    destruct (track_offline_cases is_windows w (cam_key c) e
                (locals_of p c cache updated))
      as [-> | (new_ip & p' & Hlen & Hscan & Hne & Hp' & ->)].
    { cbn [bind]. eexists. split; [exact Hp|]. split; [reflexivity|]. auto. }
    cbn [bind]. eexists. split; [exact Hp|]. split; [reflexivity|].
    right. right. split; [reflexivity|]. split; [reflexivity|].
    exists e, new_ip, p'. cbn [locals_of Locals.ip] in Hscan, Hne.
    repeat (split; [first [assumption|reflexivity]|]). reflexivity.
Qed.

Lemma record_lookup key m ip now (cache : gmap string Entry.t) :
  exists e, (record key m ip now cache).1 !! key = Some e /\ Entry.mac e = m.
Proof.
  unfold record. destruct (cache !! key) as [e|] eqn:He.
  - destruct (String.eqb_spec (Entry.mac e) m) as [Heq|Hne]; cbn [negb fst].
    + eauto.
    + rewrite lookup_insert_eq. eauto.
  - cbn [fst]. rewrite lookup_insert_eq. eauto.
Qed.

(** X9.  The address in a report.  A report that is not flagged as
    relocated carries the configured address and no previous address; a
    flagged one carries the configured address as previous address and
    no hardware address.  A report whose address differs from the
    configured one says up, is flagged, and the cache then holds the
    reported address as the camera's last address. *)
Theorem report_address_consistent (w : world) cache updated c :
  exists report cache' updated',
    camera_step is_windows mac_tracking_enabled w cache updated c
    = Ret (report, cache', updated') /\
    (Report.ip_changed report = false ->
     Report.ip report = Camera.ip c /\ Report.old_ip report = None) /\
    (Report.ip_changed report = true ->
     Report.old_ip report = Some (Camera.ip c) /\
     Report.mac_address report = None) /\
    (Report.ip report <> Camera.ip c ->
     Report.status report = "up" /\
     Report.ip_changed report = true /\
     exists e, cache' !! cam_key c = Some e /\
               Entry.last_ip e = Report.ip report).
Proof.
  destruct (camera_step_shape w cache updated c)
    as (p & l & _ & -> & [-> | [(_ & _ & ma & _ & _ & ->)
                               | (_ & _ & e & new_ip & p' & _ & _ & _ & _ & ->)]]);
    do 3 eexists; (split; [reflexivity|]); cbn.
  - split; [intros _; split; reflexivity|]. split; [discriminate|].
    intros Hne. exfalso. apply Hne. reflexivity.
  - split; [intros _; split; reflexivity|]. split; [discriminate|].
    intros Hne. exfalso. apply Hne. reflexivity.
  - split; [discriminate|]. split; [intros _; split; reflexivity|].
    destruct (reachable_of p'); cbn.
    + intros _. split; [reflexivity|]. split; [reflexivity|].
      rewrite lookup_insert_eq. eauto.
    + intros Hne. exfalso. apply Hne. reflexivity.
Qed.

(** X10.  A report that says down carries no latency, no loss and no
    hardware address, names the configured address, and the evaluation
    that produced it left the cache and its flag as they were. *)
Theorem report_down_is_bare (w : world) cache updated c :
  exists report cache' updated',
    camera_step is_windows mac_tracking_enabled w cache updated c
    = Ret (report, cache', updated') /\
    (Report.status report = "up" \/ Report.status report = "down") /\
    (Report.status report = "down" ->
     Report.latency_ms report = None /\
     Report.packet_loss report = None /\
     Report.mac_address report = None /\
     Report.ip report = Camera.ip c /\
     cache' = cache /\ updated' = updated).
Proof.
  destruct (camera_step_shape w cache updated c)
    as (p0 & l & Hp0 & -> & Hshape).
  pose proof (ping_ip_unreachable_bare is_windows _ _ _ _ _ p0 Hp0) as Hdown0.
  do 3 eexists. split; [reflexivity|].
  destruct Hshape as [-> | [(_ & Hreach & ma & _ & _ & ->)
                           | (_ & _ & e & new_ip & p' & _ & _ & _ & Hp' & ->)]];
    cbn.
  - destruct (reachable_of p0) eqn:Hr; (split; [auto|]); [discriminate|].
    intros _. destruct (Hdown0 eq_refl) as [-> ->]. repeat split.
  - rewrite Hreach. split; [auto|]. discriminate.
  - pose proof (ping_ip_unreachable_bare is_windows _ _ _ _ _ p' Hp') as Hdown1.
    destruct (reachable_of p') eqn:Hr; (split; [auto|]); [discriminate|].
    intros _. destruct (Hdown1 eq_refl) as [-> ->]. repeat split.
Qed.

(** X11.  A hardware address in a report is canonical, comes with the
    status up and without the relocation flag, and is the one the cache
    holds for the camera after the evaluation. *)
Theorem report_mac_is_cached (w : world) cache updated c :
  exists report cache' updated',
    camera_step is_windows mac_tracking_enabled w cache updated c
    = Ret (report, cache', updated') /\
    forall m,
      Report.mac_address report = Some m ->
      canonical_mac m = true /\
      Report.status report = "up" /\
      Report.ip_changed report = false /\
      exists e, cache' !! cam_key c = Some e /\ Entry.mac e = m.
Proof.
  destruct (camera_step_shape w cache updated c)
    as (p & l & _ & -> & [-> | [(_ & Hreach & ma & _ & Hcan & ->)
                               | (_ & _ & e & new_ip & p' & _ & _ & _ & _ & ->)]]);
    do 3 eexists; (split; [reflexivity|]); cbn -[canonical_mac record];
    try discriminate.
  intros m ->. rewrite Hreach. split; [auto|]. split; [reflexivity|].
  split; [reflexivity|]. apply record_lookup.
Qed.
End Reports.

(** ** The camera loop: relocation *)

Lemma first_completed_truthy results ip :
  first_completed results = Some ip -> Py.truthy ip = true.
Proof.
  induction results as [|[[ip'|]|e] rest IH]; cbn [first_completed];
    [discriminate| |exact IH|exact IH].
  destruct (Py.truthy ip') eqn:Ht; [|exact IH]. intros [= <-]. exact Ht.
Qed.

Section Relocation.
Variables is_windows mac_tracking_enabled : bool.

Lemma track_offline_eq (w : world) c (e : Entry.t) new_ip (l : Locals.t) :
  Locals.ip l = Camera.ip c ->
  Py.truthy (Entry.mac e) = true ->
  length (Py.split (Camera.ip c) ".") = 4 ->
  scan_network_for_mac is_windows (subprocess_run w) (pool w) (Entry.mac e)
                       (prefix_of (Py.split (Camera.ip c) ".")) 30 = Some new_ip ->
  new_ip <> Camera.ip c ->
  exists p',
    ping_ip is_windows (subprocess_run w) new_ip 4 1000 2 = Ret p' /\
    track_offline is_windows w (cam_key c) e l
    = Ret (locals_relocated w p' c e new_ip (Locals.mac_cache l)
                            (Locals.mac_cache_updated l))
      \/ Locals.mac_address l <> None.
Proof.
  intros Hip Hmac Hlen Hscan Hne.
  destruct (ping_ip_returns is_windows (subprocess_run w) new_ip 4 1000 2)
    as [[[[r a] lo] t] Hp].
  exists (r, a, lo, t).
  destruct (Locals.mac_address l) eqn:Hma; [right; discriminate|left].
  split; [exact Hp|].
  unfold track_offline. rewrite Hip, Hmac, Hlen, Hscan. cbn [negb Nat.eqb].
  rewrite (first_completed_truthy _ _ Hscan).
  destruct (String.eqb_spec new_ip (Camera.ip c)) as [|_]; [contradiction|].
  cbn [andb negb]. rewrite Hp. cbn [bind].
  unfold locals_relocated, entry_at. cbn. rewrite Hma. reflexivity.
Qed.

(** X12.  A camera that does not answer is reported down at its
    configured address, without data and without the relocation flag, and
    the cache and its flag stay as they were, whenever tracking is off,
    the cache has no entry for the camera, the cached hardware address is
    empty, the configured address does not have four dot-separated
    parts, the sweep finds nothing, or the sweep finds the configured
    address itself. *)
Theorem camera_down_without_relocation (w : world) cache updated c p :
  first_probe is_windows w c = Ret p ->
  reachable_of p = false ->
  mac_tracking_enabled = false \/ no_relocation is_windows w c cache ->
  camera_step is_windows mac_tracking_enabled w cache updated c
  = Ret ({| Report.name := Camera.name c;
            Report.ip := Camera.ip c;
            Report.status := "down";
            Report.latency_ms := None;
            Report.packet_loss := None;
            Report.suspicious := false;
            Report.mac_address := None;
            Report.ip_changed := false;
            Report.old_ip := None |}, cache, updated).
Proof.
  intros Hp Hreach Hno.
  assert (avg_ms_of p = None /\ loss_of p = None) as [Havg Hloss].
  { apply (ping_ip_unreachable_bare is_windows _ _ _ _ _ p Hp Hreach). }
  rewrite (camera_step_unfold _ _ w cache updated c p Hp).
  rewrite Hreach, Havg, Hloss.
  assert (forall l : Locals.t,
             track is_windows mac_tracking_enabled w (cam_key c) l = Ret l ->
             Locals.reachable l = false -> Locals.avg_ms l = None ->
             Locals.loss l = None -> Locals.ip l = Camera.ip c ->
             Locals.mac_address l = None -> Locals.ip_changed l = false ->
             Locals.mac_cache l = cache -> Locals.mac_cache_updated l = updated ->
             (l' <- track is_windows mac_tracking_enabled w (cam_key c) l;;
              Ret (report_of c (is_suspicious false None (Camera.ip c)) l',
                   Locals.mac_cache l', Locals.mac_cache_updated l'))
             = Ret ({| Report.name := Camera.name c;
                       Report.ip := Camera.ip c;
                       Report.status := "down";
                       Report.latency_ms := None;
                       Report.packet_loss := None;
                       Report.suspicious := false;
                       Report.mac_address := None;
                       Report.ip_changed := false;
                       Report.old_ip := None |}, cache, updated)) as Hfin.
  { intros l -> H1 H2 H3 H4 H5 H6 H7 H8. cbn [bind]. unfold report_of.
    rewrite H1, H2, H3, H4, H5, H6, H7, H8. reflexivity. }
  apply Hfin; try reflexivity.
  unfold track. destruct Hno as [-> | Hno]; [reflexivity|].
  destruct mac_tracking_enabled; [|reflexivity].
  cbn [Locals.reachable Locals.mac_cache].
  destruct Hno as [-> | (e & -> & Hcase)]; [reflexivity|].
  unfold track_offline. cbn [Locals.ip].
  destruct (Py.truthy (Entry.mac e)) eqn:Hmac; cbn [negb]; [|reflexivity].
  destruct (Nat.eqb_spec (length (Py.split (Camera.ip c) ".")) 4) as [Hlen|Hlen];
    cbn [negb]; [|reflexivity].
  destruct Hcase as [Hcase | [Hcase | [-> | ->]]];
    [discriminate|contradiction|reflexivity|].
  rewrite String.eqb_refl. rewrite Bool.andb_false_r. reflexivity.
Qed.

(** X13.  Relocation.  When the sweep is run for a camera and returns an
    address other than the configured one, and the probe of that address
    is answered, the report says up at the found address with the
    latency and loss of that probe, is flagged as relocated from the
    configured address, and carries no hardware address; the camera's
    cache entry keeps the hardware address and receives the found
    address and the time, and the flag of the cache is raised. *)
Theorem camera_relocated (w : world) cache updated c e new_ip p' :
  sweep_finds is_windows w c cache e new_ip ->
  ping_ip is_windows (subprocess_run w) new_ip 4 1000 2 = Ret p' ->
  reachable_of p' = true ->
  camera_step is_windows true w cache updated c
  = Ret ({| Report.name := Camera.name c;
            Report.ip := new_ip;
            Report.status := "up";
            Report.latency_ms := avg_ms_of p';
            Report.packet_loss := loss_of p';
            Report.suspicious := false;
            Report.mac_address := None;
            Report.ip_changed := true;
            Report.old_ip := Some (Camera.ip c) |},
         <[cam_key c := entry_at (Entry.mac e) new_ip (time_time w)]> cache,
         true).
Proof.
  intros ((p & Hp & Hreach) & He & Hmac & Hlen & Hscan & Hne) Hp' Hreach'.
  rewrite (camera_step_unfold _ _ w cache updated c p Hp).
  unfold track. cbn [Locals.reachable Locals.mac_cache].
  rewrite Hreach, He.
  match goal with |- context [track_offline _ _ _ _ ?l0] =>
    destruct (track_offline_eq w c e new_ip l0 eq_refl Hmac Hlen Hscan Hne)
      as (p1 & [[Hp1 ->] | Hbad]); [|exfalso; apply Hbad; reflexivity]
  end.
  rewrite Hp' in Hp1. injection Hp1 as <-.
  cbn [bind]. unfold report_of, locals_relocated, is_suspicious. cbn.
  rewrite Hreach'. reflexivity.
Qed.

(** X14.  The relocation flag of a report is raised exactly when
    tracking is on and the sweep is run for the camera and returns an
    address other than the configured one; the report then says up
    exactly when the probe of the found address is answered. *)
Theorem relocation_flag_iff (w : world) cache updated c :
  exists report cache' updated',
    camera_step is_windows mac_tracking_enabled w cache updated c
    = Ret (report, cache', updated') /\
    (Report.ip_changed report = true <->
     mac_tracking_enabled = true /\
     exists e new_ip, sweep_finds is_windows w c cache e new_ip) /\
    (forall e new_ip p',
        mac_tracking_enabled = true ->
        sweep_finds is_windows w c cache e new_ip ->
        ping_ip is_windows (subprocess_run w) new_ip 4 1000 2 = Ret p' ->
        (Report.status report = "up" <-> reachable_of p' = true)).
Proof.
  destruct (ping_ip_returns is_windows (subprocess_run w) (Camera.ip c) 4 1000 2)
    as [p Hp].
  rewrite (camera_step_unfold _ _ w cache updated c p Hp).
  assert (forall report : Report.t,
             Report.ip_changed report = false ->
             (mac_tracking_enabled = true ->
              forall e new_ip, ~ sweep_finds is_windows w c cache e new_ip) ->
             (Report.ip_changed report = true <->
              mac_tracking_enabled = true /\
              exists e new_ip, sweep_finds is_windows w c cache e new_ip) /\
             (forall e new_ip p',
                 mac_tracking_enabled = true ->
                 sweep_finds is_windows w c cache e new_ip ->
                 ping_ip is_windows (subprocess_run w) new_ip 4 1000 2 = Ret p' ->
                 (Report.status report = "up" <-> reachable_of p' = true)))
    as Hunflagged.
  { intros report Hflag Hno. rewrite Hflag. split.
    - split; [discriminate|]. intros (Ht & e & new_ip & H).
      destruct (Hno Ht e new_ip H).
    - intros e new_ip p' Ht H. destruct (Hno Ht e new_ip H). }
  unfold track. destruct mac_tracking_enabled.
  2:{ cbn [bind]. do 3 eexists. split; [reflexivity|].
      apply Hunflagged; [reflexivity|discriminate]. }
  cbn [Locals.reachable Locals.mac_cache].
  destruct (reachable_of p) eqn:Hreach.
  - match goal with |- context [track_online _ _ _ ?l0] =>
      destruct (track_online_cases is_windows w (cam_key c) l0)
        as (l' & -> & _ & _ & _ & _ & Hflag & _)
    end.
    cbn [bind]. do 3 eexists. split; [reflexivity|].
    apply Hunflagged; [exact Hflag|].
    intros _ e new_ip ((p0 & Hp0 & Hr0) & _).
    unfold first_probe in Hp0. rewrite Hp in Hp0. injection Hp0 as <-.
    congruence.
  - destruct (cache !! cam_key c) as [e|] eqn:He.
    2:{ cbn [bind]. do 3 eexists. split; [reflexivity|].
        apply Hunflagged; [reflexivity|].
        intros _ e new_ip (_ & He' & _). congruence. }
    unfold track_offline. cbn [Locals.ip].
    destruct (Py.truthy (Entry.mac e)) eqn:Hmac; cbn [negb].
    2:{ cbn [bind]. do 3 eexists. split; [reflexivity|].
        apply Hunflagged; [reflexivity|].
        intros _ e' new_ip (_ & He' & Hm & _).
        rewrite He in He'. injection He' as <-. congruence. }
    destruct (Nat.eqb_spec (length (Py.split (Camera.ip c) ".")) 4) as [Hlen|Hlen];
      cbn [negb].
    2:{ cbn [bind]. do 3 eexists. split; [reflexivity|].
        apply Hunflagged; [reflexivity|].
        intros _ e' new_ip (_ & _ & _ & Hl & _). contradiction. }
    destruct (scan_network_for_mac is_windows (subprocess_run w) (pool w)
                (Entry.mac e) (prefix_of (Py.split (Camera.ip c) ".")) 30)
      as [new_ip|] eqn:Hscan.
    2:{ cbn [bind]. do 3 eexists. split; [reflexivity|].
        apply Hunflagged; [reflexivity|].
        intros _ e' new_ip (_ & He' & _ & _ & Hs & _).
        rewrite He in He'. injection He' as <-. congruence. }
    rewrite (first_completed_truthy _ _ Hscan). cbn [andb].
    destruct (String.eqb_spec new_ip (Camera.ip c)) as [Heq|Hne]; cbn [negb].
    { cbn [bind]. do 3 eexists. split; [reflexivity|].
      apply Hunflagged; [reflexivity|].
      intros _ e' ip' (_ & He' & _ & _ & Hs & Hne).
      rewrite He in He'. injection He' as <-. congruence. }
    destruct (ping_ip_returns is_windows (subprocess_run w) new_ip 4 1000 2)
      as [[[[r a] lo] t] Hp'].
    rewrite Hp'. cbn [bind]. do 3 eexists. split; [reflexivity|].
    cbn [report_of Report.ip_changed Locals.ip_changed Report.status
         Locals.reachable].
    split.
    + split; [intros _|reflexivity]. split; [reflexivity|].
      exists e, new_ip. split; [eauto|]. auto.
    + intros e' ip' p'' _ (_ & He' & _ & _ & Hs & _) Hp''.
      rewrite He in He'. injection He' as <-.
      rewrite Hscan in Hs. injection Hs as <-.
      rewrite Hp' in Hp''. injection Hp'' as <-. cbn [reachable_of].
      destruct r; split; auto; discriminate.
Qed.
End Relocation.

Lemma camera_down_without_relocation_witness :
  camera_step true true world_without_commands known_cache false camera_by_name
  = Ret ({| Report.name := Some "cam1";
            Report.ip := "camera.local";
            Report.status := "down";
            Report.latency_ms := None;
            Report.packet_loss := None;
            Report.suspicious := false;
            Report.mac_address := None;
            Report.ip_changed := false;
            Report.old_ip := None |}, known_cache, false).
Proof.
  eapply (camera_down_without_relocation true true world_without_commands known_cache false
            camera_by_name).
  - vm_compute. reflexivity.
  - reflexivity.
  - right. right. exists known_entry. split; [vm_compute; reflexivity|].
    right. left. vm_compute. discriminate.
Defined.

Lemma camera_relocated_witness :
  camera_step true true (world_moved reply_700ms) known_cache false camera_5
  = Ret ({| Report.name := Some "cam1";
            Report.ip := "10.0.0.9";
            Report.status := "up";
            Report.latency_ms := Some (Py.Finite 700);
            Report.packet_loss := None;
            Report.suspicious := false;
            Report.mac_address := None;
            Report.ip_changed := true;
            Report.old_ip := Some "10.0.0.5" |},
         <[ "cam1" := entry_at "AA:BB:CC:DD:EE:FF" "10.0.0.9" 200 ]> known_cache,
         true).
Proof.
  apply (camera_relocated true (world_moved reply_700ms) known_cache false camera_5
           known_entry "10.0.0.9"
           (true, Some (Py.Finite 700), None,
            Py.last_chars 500 (output_of reply_700ms))).
  - split; [eexists; split; [vm_compute; reflexivity|reflexivity]|].
    split; [vm_compute; reflexivity|]. split; [reflexivity|].
    split; [vm_compute; reflexivity|]. split; [vm_compute; reflexivity|].
    discriminate.
  - vm_compute. reflexivity.
  - reflexivity.
Defined.

(** ** The camera loop: over cycles *)

Section Cycles.
Variables is_windows mac_tracking_enabled : bool.

Lemma record_settles key m ip now now' (cache : gmap string Entry.t) :
  record key m ip now' (record key m ip now cache).1
  = ((record key m ip now cache).1, false).
Proof.
  destruct (record_lookup key m ip now cache) as (e & He & Hm).
  unfold record at 1. rewrite He, Hm, String.eqb_refl. reflexivity.
Qed.

(** X15.  A camera that answers settles after one evaluation: evaluated
    again on the cache the first evaluation left, with the commands
    behaving the same, at any time and with any flag, it yields the same
    report and leaves that cache and that flag untouched. *)
Theorem camera_step_settles (w w' : world) cache updated updated' c p :
  subprocess_run w' = subprocess_run w ->
  first_probe is_windows w c = Ret p ->
  reachable_of p = true ->
  exists report cache1 updated1,
    camera_step is_windows mac_tracking_enabled w cache updated c
    = Ret (report, cache1, updated1) /\
    camera_step is_windows mac_tracking_enabled w' cache1 updated' c
    = Ret (report, cache1, updated').
Proof.
  intros Hsp Hp Hreach.
  assert (first_probe is_windows w' c = Ret p) as Hp'.
  { unfold first_probe in *. rewrite Hsp. exact Hp. }
  rewrite (camera_step_unfold _ _ w cache updated c p Hp).
  assert (forall cache2,
             camera_step is_windows mac_tracking_enabled w' cache2 updated' c
             = (l <- track is_windows mac_tracking_enabled w' (cam_key c)
                       (locals_of p c cache2 updated');;
                Ret (report_of c (is_suspicious (reachable_of p) (avg_ms_of p)
                                                (Camera.ip c)) l,
                     Locals.mac_cache l, Locals.mac_cache_updated l))) as Hsecond.
  { intros cache2. apply (camera_step_unfold _ _ w' cache2 updated' c p Hp'). }
  change {| Locals.reachable := reachable_of p;
            Locals.avg_ms := avg_ms_of p;
            Locals.loss := loss_of p;
            Locals.ip := Camera.ip c;
            Locals.mac_address := None;
            Locals.ip_changed := false;
            Locals.mac_cache := cache;
            Locals.mac_cache_updated := updated |}
    with (locals_of p c cache updated).
  unfold track in *. destruct mac_tracking_enabled.
  2:{ cbn [bind]. do 3 eexists. split; [reflexivity|]. rewrite Hsecond.
      reflexivity. }
  assert (forall cache2 u, Locals.reachable (locals_of p c cache2 u) = true) as Hr.
  { intros. exact Hreach. }
  rewrite Hr.
  destruct (track_online_eq is_windows w p c cache updated) as (ma & Hres & _ & ->).
  cbn [bind]. do 3 eexists. split; [reflexivity|]. rewrite Hsecond, Hr.
  destruct (track_online_eq is_windows w' p c
              (Locals.mac_cache (locals_online w p c ma cache updated)) updated')
    as (ma' & Hres' & _ & ->).
  rewrite Hsp, Hres in Hres'. injection Hres' as <-. cbn [bind].
  destruct ma as [m|]; [|reflexivity].
  unfold locals_online, report_of.
  cbn [Locals.mac_cache Locals.mac_cache_updated Locals.ip
       Locals.reachable Locals.avg_ms Locals.loss Locals.mac_address
       Locals.ip_changed].
  rewrite record_settles. reflexivity.
Qed.

End Cycles.

Lemma camera_step_settles_witness :
  exists report cache1 updated1,
    camera_step true true (world_primed 200) ∅ false camera_5
    = Ret (report, cache1, updated1) /\
    camera_step true true (world_primed 300) cache1 false camera_5
    = Ret (report, cache1, false).
Proof.
  eapply (camera_step_settles true true (world_primed 200) (world_primed 300)
            ∅ false false camera_5).
  - reflexivity.
  - vm_compute. reflexivity.
  - reflexivity.
Defined.

(** ** The network checks *)

Section NetworkChecks.
Variable is_windows : bool.

Lemma first_passing_unique run n proc n' proc' :
  first_passing is_windows run n proc ->
  first_passing is_windows run n' proc' ->
  n = n' /\ proc = proc'.
Proof.
  intros (Hr & Hp & Hfirst) (Hr' & Hp' & Hfirst').
  destruct (Nat.lt_trichotomy n n') as [Hlt | [-> | Hlt]].
  - rewrite (Hfirst' n proc Hlt Hr) in Hp. discriminate.
  - rewrite Hr in Hr'. injection Hr' as ->. auto.
  - rewrite (Hfirst n' proc' Hlt Hr') in Hp'. discriminate.
Qed.

Lemma ping_ip_latency (sp : subprocess) ip count timeout_ms retry :
  exists p,
    ping_ip is_windows sp ip count timeout_ms retry = Ret p /\
    forall v,
      (if reachable_of p then avg_ms_of p else None) = Some v <->
      latency_of_first_passing is_windows sp ip count timeout_ms retry v.
Proof.
  unfold ping_ip, latency_of_first_passing.
  destruct (ping_loop_result is_windows
              (sp (ping_cmd is_windows ip count timeout_ms)) retry 0 None)
    as [(k & proc & Hk & Hfirst & ->) | (Hnone & tail & ->)];
    eexists; (split; [reflexivity|]); intros v; cbn.
  - split.
    + intros Hv. exists k, proc. auto.
    + intros (n & proc' & _ & Hfirst' & Hv).
      destruct (first_passing_unique _ _ _ _ _ Hfirst Hfirst') as [_ ->].
      exact Hv.
  - split; [discriminate|].
    intros (n & proc & Hn & (Hr & Hp & _) & _).
    rewrite (Hnone n proc Hn Hr) in Hp. discriminate.
Qed.

(** X17.  The network checks never raise.  Each latency of the result is
    the latency parsed from the first of the two attempts at that
    address that passes, and is absent when none passes or that attempt
    shows none; the DNS flag tells whether the lookup returned, and the
    HTTP flag whether the request returned a response, whatever its
    status code. *)
Theorem test_network_result (sp : subprocess)
        (gethostbyname : string -> result string)
        (requests_get : string -> nat -> result response) :
  exists net,
    test_network is_windows sp gethostbyname requests_get = Ret net /\
    (forall v, Net.ping_1_1_1_1_ms net = Some v <->
               latency_of_first_passing is_windows sp "1.1.1.1" 4 1000 2 v) /\
    (forall v, Net.ping_8_8_8_8_ms net = Some v <->
               latency_of_first_passing is_windows sp "8.8.8.8" 4 1000 2 v) /\
    (Net.dns_ok net = true <-> exists a, gethostbyname "google.com" = Ret a) /\
    (Net.http_ok net = true <->
     exists r, requests_get "https://www.google.com" 5 = Ret r).
Proof.
  unfold test_network.
  destruct (ping_ip_latency sp "1.1.1.1" 4 1000 2) as ([[[r1 a1] l1] o1] & -> & H1).
  destruct (ping_ip_latency sp "8.8.8.8" 4 1000 2) as ([[[r8 a8] l8] o8] & -> & H8).
  cbn [bind].
  destruct (gethostbyname "google.com") as [a|e] eqn:Hdns;
    destruct (requests_get "https://www.google.com" 5) as [r|e'] eqn:Hhttp;
    cbn [bind try_except]; eexists; (split; [reflexivity|]);
    cbn [Net.ping_1_1_1_1_ms Net.ping_8_8_8_8_ms Net.dns_ok Net.http_ok];
    (split; [exact H1|]); (split; [exact H8|]); split; split;
    first [ discriminate
          | intros [? ?]; discriminate
          | intros _; reflexivity
          | intros _; eexists; reflexivity ].
Qed.
End NetworkChecks.

(** ** The roster *)

Lemma roster_loop_entries source cameras :
  roster_loop source cameras = cameras ++ entries_of source.
Proof.
  revert cameras. induction source as [|c rest IH]; intros cameras;
    cbn [roster_loop].
  - unfold entries_of. cbn. rewrite app_nil_r. reflexivity.
  - rewrite IH. unfold entries_of. cbn [omap list_omap].
    destruct (roster_entry c) as [entry|]; [|reflexivity].
    rewrite <- app_assoc. reflexivity.
Qed.

Lemma json_truthy_dict d key v :
  d !! key = Some v -> json_truthy (JDict d) = true.
Proof.
  intros H. cbn. destruct (decide (d = ∅)) as [->|_]; [|reflexivity].
  rewrite lookup_empty in H. discriminate.
Qed.

(** The roster is built from one of the two lists, or not at all. *)
Lemma build_roster_source conf local :
  (exists d items,
      conf = JDict d /\ d !! "cameras" = Some (JList items) /\
      build_roster conf local = Ret (entries_of items))
  \/
  ((json_truthy conf = false \/
    exists d, conf = JDict d /\ forall items, d !! "cameras" <> Some (JList items)) /\
   build_roster conf local = Ret (entries_of local))
  \/
  (json_truthy conf = true /\ (forall d, conf <> JDict d) /\
   exists e, build_roster conf local = Raise e).
Proof.
  unfold build_roster.
  destruct (json_truthy conf) eqn:Ht.
  2:{ right. left. split; [auto|]. cbn [bind]. rewrite roster_loop_entries.
      reflexivity. }
  destruct conf as [|b|n|x|s|items|d];
    try (right; right; split; [reflexivity|]; split; [discriminate|];
         cbn [attr_get bind]; eauto).
  cbn [attr_get bind]. unfold dict_get, subscript.
  destruct (d !! "cameras") as [v|] eqn:Hv.
  - destruct v as [|b|n|x|s|items|d'];
      try (right; left; split;
           [right; exists d; split; [reflexivity|]; intros items'; congruence|];
           rewrite roster_loop_entries; reflexivity).
    left. exists d, items. split; [reflexivity|]. split; [exact Hv|].
    cbn [bind]. rewrite roster_loop_entries. reflexivity.
  - right. left. split.
    + right. exists d. split; [reflexivity|]. intros items'. congruence.
    + rewrite roster_loop_entries. reflexivity.
Qed.

(** X18.  Where the roster comes from.  A server configuration that is a
    dictionary with a list under ["cameras"] decides the roster alone,
    also when that list is empty; a configuration that is falsy, or a
    dictionary without such a list, leaves the roster to the local list;
    the roster is built exactly when the configuration is falsy or a
    dictionary, any other document makes the step raise. *)
Theorem build_roster_cases (conf : json) (local : list json) :
  (forall d items,
      conf = JDict d -> d !! "cameras" = Some (JList items) ->
      build_roster conf local = Ret (entries_of items)) /\
  (json_truthy conf = false \/
   (exists d, conf = JDict d /\ forall items, d !! "cameras" <> Some (JList items)) ->
   build_roster conf local = Ret (entries_of local)) /\
  ((exists cameras, build_roster conf local = Ret cameras) <->
   (json_truthy conf = false \/ exists d, conf = JDict d)).
Proof.
  destruct (build_roster_source conf local)
    as [(d & items & -> & Hd & Hres)
       | [(Hcase & Hres) | (Ht & Hnd & e & Hres)]].
  - split; [|split].
    + intros d' items' [= <-] Hd'. rewrite Hd in Hd'. injection Hd' as <-.
      exact Hres.
    + intros [Hf | (d' & [= <-] & Hno)].
      * rewrite (json_truthy_dict d _ _ Hd) in Hf. discriminate.
      * destruct (Hno items Hd).
    + split; [intros _; right; eauto | intros _; eauto].
  - split; [|split].
    + intros d items -> Hd.
      destruct Hcase as [Hf | (d' & [= <-] & Hno)].
      * rewrite (json_truthy_dict d _ _ Hd) in Hf. discriminate.
      * destruct (Hno items Hd).
    + intros _. exact Hres.
    + split; [intros _ | intros _; eauto].
      destruct Hcase as [Hf | (d & -> & _)]; eauto.
  - split; [|split].
    + intros d items ->. destruct (Hnd d eq_refl).
    + intros [Hf | (d & -> & _)]; [congruence | destruct (Hnd d eq_refl)].
    + split.
      * intros (cameras & Hc). rewrite Hres in Hc. discriminate.
      * intros [Hf | (d & -> )]; [congruence | destruct (Hnd d eq_refl)].
Qed.

Lemma entries_of_inv source e :
  In e (entries_of source) ->
  exists d, In (JDict d) source /\
            json_truthy (dict_get d "ip") = true /\
            e = {[ "name" := dict_get d "name"; "ip" := dict_get d "ip" ]}.
Proof.
  unfold entries_of. induction source as [|c rest IH]; cbn [omap list_omap];
    [intros []|].
  destruct (roster_entry c) as [entry|] eqn:Hc.
  - intros [<- | Hin].
    + destruct c as [| | | | | |d]; try discriminate. cbn in Hc.
      destruct (json_truthy (dict_get d "ip")) eqn:Ht; [|discriminate].
      injection Hc as <-. exists d. split; [left; reflexivity|]. auto.
    + destruct (IH Hin) as (d & Hd & H). exists d. split; [right; exact Hd|exact H].
  - intros Hin. destruct (IH Hin) as (d & Hd & H).
    exists d. split; [right; exact Hd|exact H].
Qed.

(** X19.  What the camera loop receives.  Every dictionary of the roster
    comes from a dictionary of the source list, has a truthy address and
    no ["id"]: the identifier of the source is dropped, so that the loop
    keys the cache by the camera's name, or by its address when the name
    is absent or empty. *)
Theorem roster_entries_keyed_by_name (conf : json) (local : list json) cameras e :
  build_roster conf local = Ret cameras ->
  In e cameras ->
  e !! "id" = None /\
  json_truthy (dict_get e "ip") = true /\
  (exists d, e = {[ "name" := dict_get d "name"; "ip" := dict_get d "ip" ]} /\
             (In (JDict d) local \/
              exists items, attr_get conf "cameras" = Ret (JList items) /\
                            In (JDict d) items)) /\
  forall c, camera_of e = Some c ->
            Camera.id c = None /\
            Py.truthy (Camera.ip c) = true /\
            cam_key c = match Camera.name c with
                        | Some n => if Py.truthy n then n else Camera.ip c
                        | None => Camera.ip c
                        end.
Proof.
  intros Hres Hin.
  assert (exists d, e = {[ "name" := dict_get d "name"; "ip" := dict_get d "ip" ]} /\
                    json_truthy (dict_get d "ip") = true /\
                    (In (JDict d) local \/
                     exists items, attr_get conf "cameras" = Ret (JList items) /\
                                   In (JDict d) items)) as (d & -> & Ht & Hsrc).
  { destruct (build_roster_source conf local)
      as [(d0 & items & -> & Hd & Hres')
         | [(_ & Hres') | (_ & _ & e' & Hres')]];
      rewrite Hres' in Hres; [| |discriminate]; injection Hres as <-;
      apply entries_of_inv in Hin as (d & Hd' & Ht & ->);
      exists d; (split; [reflexivity|]); (split; [exact Ht|]); [right|left; exact Hd'].
    exists items. split; [|exact Hd']. cbn. unfold dict_get. rewrite Hd.
    reflexivity. }
  assert (forall a b : json,
             ({[ "name" := a; "ip" := b ]} : gmap string json) !! "id" = None) as Hid.
  { intros a b. rewrite lookup_insert_ne by discriminate.
    apply lookup_singleton_ne. discriminate. }
  assert (forall a b : json,
             dict_get ({[ "name" := a; "ip" := b ]} : gmap string json) "ip" = b) as Hip.
  { intros a b. unfold dict_get. rewrite lookup_insert_ne by discriminate.
    rewrite lookup_singleton_eq. reflexivity. }
  assert (forall a b : json,
             dict_get ({[ "name" := a; "ip" := b ]} : gmap string json) "name" = a)
    as Hname.
  { intros a b. unfold dict_get. rewrite lookup_insert_eq. reflexivity. }
  split; [apply Hid|]. split; [rewrite Hip; exact Ht|]. split; [eauto|].
  intros c. unfold camera_of. rewrite Hip, Hname. unfold dict_get at 3.
  rewrite Hid. cbn [str_value].
  destruct (dict_get d "ip") as [| | | |ip| |]; try discriminate.
  destruct (str_value (dict_get d "name")) as [name|]; [|discriminate].
  intros [= <-]. cbn [Camera.id Camera.ip Camera.name]. split; [reflexivity|].
  split; [exact Ht|]. unfold cam_key. cbn [Camera.id Camera.ip Camera.name].
  unfold or_else. cbn [Py.truthy_opt].
  destruct name as [n|]; cbn [Py.truthy_opt]; [|reflexivity].
  destruct (Py.truthy n); reflexivity.
Qed.

Lemma roster_entries_keyed_by_name_witness :
  let e : gmap string json := {[ "name" := JStr "gate"; "ip" := JStr "10.0.0.5" ]} in
  e !! "id" = None /\
  json_truthy (dict_get e "ip") = true /\
  (exists d, e = {[ "name" := dict_get d "name"; "ip" := dict_get d "ip" ]} /\
             (In (JDict d) [local_camera] \/
              exists items, attr_get JNull "cameras" = Ret (JList items) /\
                            In (JDict d) items)) /\
  forall c, camera_of e = Some c ->
            Camera.id c = None /\
            Py.truthy (Camera.ip c) = true /\
            cam_key c = match Camera.name c with
                        | Some n => if Py.truthy n then n else Camera.ip c
                        | None => Camera.ip c
                        end.
Proof.
  apply (roster_entries_keyed_by_name JNull [local_camera]
           [ {[ "name" := JStr "gate"; "ip" := JStr "10.0.0.5" ]} ]).
  - vm_compute. reflexivity.
  - left. reflexivity.
Defined.

(** ** The agent's identifier *)

Section AgentIdProperties.
Variable py_str : json -> string.
Hypothesis py_str_string : forall s, py_str (JStr s) = s.

Lemma differs_from_same s : differs_from (JStr s) s = false.
Proof. cbn. rewrite String.eqb_refl. reflexivity. Qed.

(** X20.  The identifier is stable.  With a disk that stores what is
    written, the first call leaves a state file on which every later
    call on the same host returns the same identifier and writes
    nothing, whatever the file was before: absent, unreadable, another
    machine's, or this machine's.  The file keeps every other key it
    held. *)
Theorem agent_id_round_trip node computername fresh write_text f :
  Py.truthy fresh = true ->
  (forall v, write_text v = Present (Ret v)) ->
  let first := load_or_create_agent_id py_str node computername fresh write_text f in
  (forall fresh' write_text',
      load_or_create_agent_id py_str node computername fresh' write_text' first.2
      = first) /\
  (forall key, key <> "agent_id" -> key <> "hostname" ->
               _load_state first.2 !! key = _load_state f !! key).
Proof.
  intros Hfresh Hwrite. cbn zeta.
  set (hostname := get_host_name node computername).
  assert (forall fresh0 write0 f0,
             load_or_create_agent_id py_str node computername fresh0 write0 f0
             = if differs_from (dict_get (_load_state f0) "hostname") hostname
                  || negb (json_truthy (dict_get (_load_state f0) "agent_id"))
               then (fresh0,
                     write0 (JDict (<["hostname" := JStr hostname]>
                                      (<["agent_id" := JStr fresh0]>
                                         (_load_state f0)))))
               else (py_str (dict_get (_load_state f0) "agent_id"), f0)) as Hcall.
  { reflexivity. }
  rewrite (Hcall fresh write_text f).
  destruct (differs_from (dict_get (_load_state f) "hostname") hostname
            || negb (json_truthy (dict_get (_load_state f) "agent_id"))) eqn:Hnew;
    cbn [fst snd].
  - rewrite Hwrite. split.
    + intros fresh' write_text'. rewrite Hcall.
      cbn [_load_state try_except bind].
      unfold dict_get. rewrite lookup_insert_eq.
      rewrite lookup_insert_ne by discriminate. rewrite lookup_insert_eq.
      rewrite differs_from_same. cbn [json_truthy]. rewrite Hfresh.
      cbn [negb orb]. rewrite py_str_string. reflexivity.
    + intros key Hk1 Hk2. cbn [_load_state try_except bind].
      rewrite !lookup_insert_ne by congruence. reflexivity.
  - split; [|reflexivity].
    intros fresh' write_text'. rewrite Hcall, Hnew. reflexivity.
Qed.

(** X21.  When the identifier is replaced.  The saved identifier is
    returned, and the file left alone, exactly when the file is present,
    parses to a dictionary whose ["hostname"] is this host's name and
    whose ["agent_id"] is truthy; in every other case (no file, a file
    that does not parse or is not a dictionary, another host name, a
    missing or empty identifier) the fresh identifier is returned and
    written, with the host name, into the dictionary that was loaded. *)
Theorem agent_id_kept_iff node computername fresh write_text f :
  let hostname := get_host_name node computername in
  let holds_id (v : json) :=
    exists d, f = Present (Ret (JDict d)) /\
              d !! "hostname" = Some (JStr hostname) /\
              d !! "agent_id" = Some v /\ json_truthy v = true in
  (exists v,
      holds_id v /\
      load_or_create_agent_id py_str node computername fresh write_text f
      = (py_str v, f))
  \/
  ((forall v, ~ holds_id v) /\
   load_or_create_agent_id py_str node computername fresh write_text f
   = (fresh,
      write_text (JDict (<["hostname" := JStr hostname]>
                           (<["agent_id" := JStr fresh]> (_load_state f)))))).
Proof.
  cbn zeta. unfold load_or_create_agent_id, _save_state.
  set (hostname := get_host_name node computername).
  assert (forall d,
             _load_state f = d ->
             (f = Present (Ret (JDict d))) \/
             (d = ∅ /\ forall d', f <> Present (Ret (JDict d')))) as Hload.
  { intros d <-. destruct f as [|[v|e]]; cbn;
      try (right; split; [reflexivity|]; discriminate).
    destruct v; try (right; split; [reflexivity|]; discriminate). auto. }
  destruct (Hload _ eq_refl) as [Hf | [Hempty Hnd]].
  - rewrite Hf. cbn [_load_state try_except bind]. rewrite <- Hf.
    set (d := _load_state f) in *. unfold dict_get.
    destruct (d !! "hostname") as [h|] eqn:Hh.
    2:{ right. cbn [differs_from orb]. split; [|reflexivity].
        intros v (d' & Hf' & Hh' & _). rewrite Hf in Hf'. injection Hf' as <-.
        congruence. }
    destruct (differs_from h hostname) eqn:Hdiff.
    { right. cbn [orb]. split; [|reflexivity].
      intros v (d' & Hf' & Hh' & _). rewrite Hf in Hf'. injection Hf' as <-.
      rewrite Hh in Hh'. injection Hh' as ->.
      rewrite differs_from_same in Hdiff. discriminate. }
    assert (h = JStr hostname) as ->.
    { destruct h; try discriminate. cbn in Hdiff.
      apply Bool.negb_false_iff, String.eqb_eq in Hdiff. congruence. }
    cbn [orb].
    destruct (d !! "agent_id") as [v|] eqn:Hv.
    2:{ right. cbn [json_truthy negb]. split; [|reflexivity].
        intros v (d' & Hf' & _ & Hv' & _). rewrite Hf in Hf'. injection Hf' as <-.
        congruence. }
    destruct (json_truthy v) eqn:Ht; cbn [negb].
    + left. exists v. split; [|reflexivity]. exists d. auto.
    + right. split; [|reflexivity].
      intros v' (d' & Hf' & _ & Hv' & Ht'). rewrite Hf in Hf'. injection Hf' as <-.
      rewrite Hv in Hv'. injection Hv' as <-. congruence.
  - right. rewrite Hempty. unfold dict_get. rewrite !lookup_empty.
    cbn [differs_from orb]. split; [|reflexivity].
    intros v (d' & Hf' & _). exact (Hnd d' Hf').
Qed.
End AgentIdProperties.

Lemma agent_id_round_trip_witness :
  let first :=
    load_or_create_agent_id str_of_string_document "shop-pc" None
                            "00112233445566778899aabbccddeeff" disk_ok copied_state in
  (forall fresh' write_text',
      load_or_create_agent_id str_of_string_document "shop-pc" None
                              fresh' write_text' first.2
      = first) /\
  (forall key, key <> "agent_id" -> key <> "hostname" ->
               _load_state first.2 !! key = _load_state copied_state !! key).
Proof.
  apply (agent_id_round_trip str_of_string_document (fun s => eq_refl)
           "shop-pc" None "00112233445566778899aabbccddeeff" disk_ok copied_state).
  - reflexivity.
  - reflexivity.
Defined.

(** The identifier of another machine is not taken over, and the cached
    speed test of the copied file is kept. *)
Example copied_state_gets_new_id :
  exists d,
    load_or_create_agent_id str_of_string_document "shop-pc" None
                            "00112233445566778899aabbccddeeff" disk_ok copied_state
    = ("00112233445566778899aabbccddeeff", Present (Ret (JDict d))) /\
    d !! "hostname" = Some (JStr "shop-pc") /\
    d !! "last_speedtest_at" = Some (JInt 1700000000).
Proof.
  eexists. split; [vm_compute; reflexivity|]. split; vm_compute; reflexivity.
Qed.

(** ** The download loop *)

Lemma for_each_chunks (items : list (list Byte.byte * Q)) st :
  for_each (map Ret items)
           (fun st item => '(chunk, now) <- item;; Ret (download_step st chunk now)) st
  = Ret (fold_left (fun st item => download_step st item.1 item.2) items st).
Proof.
  revert st. induction items as [|[chunk now] items IH]; intros st; cbn.
  - reflexivity.
  - apply IH.
Qed.

Lemma for_each_raises (items : list (list Byte.byte * Q)) e rest st :
  for_each (map Ret items ++ Raise e :: rest)
           (fun st item => '(chunk, now) <- item;; Ret (download_step st chunk now)) st
  = Raise e.
Proof.
  revert st. induction items as [|[chunk now] items IH]; intros st; cbn.
  - reflexivity.
  - apply IH.
Qed.

Lemma fold_received items st :
  fold_left (fun st item => download_step st item.1 item.2) items st
  = fold_left (fun st item => download_step st item.1 item.2) (received items) st.
Proof.
  revert st. induction items as [|[chunk now] items IH]; intros st;
    cbn [fold_left received List.filter fst snd]; [reflexivity|].
  destruct chunk as [|b chunk]; cbn [download_step fold_left]; apply IH.
Qed.

Lemma bytes_of_cons item items :
  bytes_of (item :: items) = length item.1 + bytes_of items.
Proof. reflexivity. Qed.

(** After the warm-up every chunk is counted and the timer is kept. *)
Lemma fold_counted items st :
  forallb (fun item => match item.1 with [] => false | _ => true end) items = true ->
  warmup_chunks < Download.chunk_count st ->
  fold_left (fun st item => download_step st item.1 item.2) items st
  = {| Download.total := Download.total st + bytes_of items;
       Download.chunk_count := Download.chunk_count st + length items;
       Download.t0 := Download.t0 st |}.
Proof.
  revert st. induction items as [|[chunk now] items IH]; intros st Hne Hk.
  - cbn. unfold bytes_of. cbn. rewrite !Nat.add_0_r. destruct st; reflexivity.
  - cbn [forallb fst] in Hne. apply andb_prop in Hne as [Hc Hne].
    destruct chunk as [|b chunk]; [discriminate|].
    cbn [fold_left fst snd].
    rewrite IH; [|exact Hne|unfold warmup_chunks in *; cbn; lia].
    unfold download_step, warmup_chunks in *.
    cbn [Download.total Download.chunk_count Download.t0].
    assert ((Download.chunk_count st + 1 =? 2 + 1) = false) as ->
        by (apply Nat.eqb_neq; lia).
    assert ((2 <? Download.chunk_count st + 1) = true) as ->
        by (apply Nat.ltb_lt; lia).
    rewrite bytes_of_cons. cbn [fst length]. f_equal; lia.
Qed.

Lemma received_nonempty items :
  forallb (fun item : list Byte.byte * Q =>
             match item.1 with [] => false | _ => true end) (received items) = true.
Proof.
  unfold received. apply forallb_forall. intros x Hx.
  apply filter_In in Hx as [_ Hx]. exact Hx.
Qed.

(** X22.  The download block.  The first two chunks that are not empty
    are discarded.  When a third one arrives, the bytes reported are
    those of the chunks from the third on, there are some, and the time
    is measured from the arrival of the third; with fewer than three the
    block reports the error "Insufficient data received" and leaves the
    requested size as the byte count.  A request or an iteration that
    raises gives the text of the exception as the error. *)
Theorem download_counts_after_warmup (download_bytes : Z)
        (items : list (list Byte.byte * Q)) :
  let out := speedtest_download download_bytes (Ret (map Ret items)) in
  match received items with
  | _ :: _ :: (third :: _) as counted =>
      Out.download_error out = None /\
      Out.download_bytes out = Z.of_nat (bytes_of counted) /\
      (0 < Out.download_bytes out)%Z /\
      Out.timed_from out = Some third.2
  | _ =>
      Out.download_error out = Some "Insufficient data received" /\
      Out.download_bytes out = download_bytes /\
      Out.timed_from out = None
  end /\
  (forall e rest,
      speedtest_download download_bytes (Ret (map Ret items ++ Raise e :: rest))
      = {| Out.download_error := Some (str_exn e);
           Out.download_bytes := download_bytes;
           Out.timed_from := None |}) /\
  (forall e,
      speedtest_download download_bytes (Raise e)
      = {| Out.download_error := Some (str_exn e);
           Out.download_bytes := download_bytes;
           Out.timed_from := None |}).
Proof.
  cbn zeta. split; [|split].
  2:{ intros e rest. unfold speedtest_download. cbn [bind].
      rewrite for_each_raises. reflexivity. }
  2:{ intros e. reflexivity. }
  unfold speedtest_download. cbn [bind].
  rewrite for_each_chunks, fold_received.
  pose proof (received_nonempty items) as Hne.
  destruct (received items) as [|[c1 t1] [|[c2 t2] [|[c3 t3] rest]]].
  - cbn. auto.
  - cbn [forallb fst] in Hne. destruct c1; [discriminate|]. cbn. auto.
  - cbn [forallb fst] in Hne. destruct c1; [discriminate|].
    destruct c2; [discriminate|]. cbn. auto.
  - cbn [forallb fst] in Hne.
    destruct c1 as [|b1 c1]; [discriminate|].
    destruct c2 as [|b2 c2]; [discriminate|].
    destruct c3 as [|b3 c3]; [discriminate|].
    cbn [andb] in Hne. cbn [fold_left fst snd].
    rewrite fold_counted; [|exact Hne|cbn; unfold warmup_chunks; lia].
    cbn [download_step Download.total Download.chunk_count Download.t0
         Nat.add Nat.eqb Nat.ltb Nat.leb warmup_chunks].
    rewrite bytes_of_cons. cbn [fst length snd Nat.add].
    cbn [Nat.ltb Nat.leb Out.download_error Out.download_bytes Out.timed_from].
    repeat split.
Qed.

(** ** The Windows summary line *)

Lemma star_digits_greedy {R : Type} ic a rest cs (k : Re.cont (R:=R)) x fuel :
  all_digits a = true ->
  String.length a <= fuel ->
  match rest with String c _ => Py.isdigit c = false | EmptyString => True end ->
  k rest cs = Some x ->
  Re.star_loop (Re.run ic digit) fuel (a +:+ rest) cs k = Some x.
Proof.
  revert fuel. induction a as [|d a IH]; intros fuel Hd Hf Hrest Hk.
  - rewrite append_nil. destruct fuel as [|fuel]; cbn [Re.star_loop]; [exact Hk|].
    destruct rest as [|c rest]; unfold digit; cbn [Re.run]; [exact Hk|].
    rewrite Hrest. exact Hk.
  - rewrite append_cons. cbn [all_digits] in Hd. apply andb_prop in Hd as [Hc Hd].
    destruct fuel as [|fuel]; [cbn in Hf; lia|].
    cbn [Re.star_loop]. unfold digit at 1. cbn [Re.run]. rewrite Hc.
    assert ((String.length (a +:+ rest) <? String.length (String d (a +:+ rest)))
            = true) as ->.
    { apply Nat.ltb_lt. cbn [String.length]. lia. }
    rewrite IH; auto. cbn in Hf. lia.
Qed.

(** At a number followed by ["ms"] the pattern matches, and its group is
    the whole number. *)
Lemma match_at_number a post :
  is_number a = true ->
  exists m,
    Re.match_at true pat_avg_ms (a +:+ String "m" (String "s" post)) = Some m /\
    Re.group m 1 = a.
Proof.
  unfold is_number. intros H. apply andb_prop in H as [Hne Hd].
  destruct a as [|d a]; [discriminate|].
  cbn [all_digits] in Hd. apply andb_prop in Hd as [Hc Hd].
  set (rest := String "m" (String "s" post)).
  exists {| Re.group0 := Re.consumed (String d a +:+ rest) post;
            Re.groups := [(1, Re.consumed (String d a +:+ rest) rest)] |}.
  split.
  - unfold Re.match_at, pat_avg_ms, Re.Plus. rewrite append_cons.
    cbn [Re.run]. unfold digit at 1. cbn [Re.run]. rewrite Hc.
    apply star_digits_greedy; [exact Hd| rewrite length_append; lia |reflexivity|].
    reflexivity.
  - cbn [Re.group Re.lookup_group Re.groups Nat.eqb]. apply consumed_append.
Qed.

Lemma search_skips pre s :
  no_digits pre = true ->
  Re.search true pat_avg_ms (pre +:+ s) = Re.search true pat_avg_ms s.
Proof.
  induction pre as [|c pre IH]; intros H; [reflexivity|].
  cbn [no_digits] in H. apply andb_prop in H as [Hc H].
  apply Bool.negb_true_iff in Hc.
  rewrite append_cons. cbn [Re.search].
  assert (Re.match_at true pat_avg_ms (String c (pre +:+ s)) = None) as ->.
  { unfold Re.match_at, pat_avg_ms, Re.Plus, digit. cbn [Re.run]. rewrite Hc.
    reflexivity. }
  apply IH, H.
Qed.

Lemma for_each_app {A S : Type} (l1 l2 : list A) (body : S -> A -> result S) st :
  for_each (l1 ++ l2) body st = (st' <- for_each l1 body st;; for_each l2 body st').
Proof.
  revert st. induction l1 as [|x l1 IH]; intros st; cbn; [reflexivity|].
  destruct (body st x) as [st'|e]; cbn; [apply IH|reflexivity].
Qed.

Lemma for_each_unchanged {A S : Type} (l : list A) (body : S -> A -> result S) st :
  (forall x, In x l -> body st x = Ret st) ->
  for_each l body st = Ret st.
Proof.
  induction l as [|x l IH]; intros H; cbn; [reflexivity|].
  rewrite (H x) by (left; reflexivity). cbn. apply IH.
  intros y Hy. apply H. right. exact Hy.
Qed.

Lemma none_selected_elim selects lines line :
  none_selected selects lines = true -> In line lines -> selects line = false.
Proof.
  unfold none_selected. intros H Hin.
  apply (proj1 (forallb_forall _ _) H) in Hin.
  apply Bool.negb_true_iff, Hin.
Qed.

Lemma latency_loop_returns lines st :
  exists st',
    for_each lines (fun avg_ms line =>
      if Py.contains media (Py.lower (Py.strip line))
         || Py.contains "average" (Py.lower (Py.strip line))
      then match Re.search true pat_avg_ms (Py.strip line) with
           | Some m => v <- Py.float (Re.group m 1);; Ret (Some v)
           | None => Ret avg_ms
           end
      else Ret avg_ms) st = Ret st'.
Proof.
  apply for_each_returns. intros st0 l. cbn beta zeta.
  destruct (Py.contains media (Py.lower (Py.strip l))
            || Py.contains "average" (Py.lower (Py.strip l))); [|eauto].
  destruct (Re.search true pat_avg_ms (Py.strip l)) as [m'|] eqn:Hm'; [|eauto].
  destruct (float_number _ (pat_avg_ms_group _ _ _ Hm')) as [q' ->]. cbn. eauto.
Qed.

Lemma loss_loop_returns lines st :
  exists st',
    for_each lines (fun loss_pct line =>
      if Py.contains "perdidos" (Py.lower line) || Py.contains "lost" (Py.lower line)
      then match Re.search false pat_loss line with
           | Some m => v <- Py.float (Re.group m 1);; Ret (Some v)
           | None => Ret loss_pct
           end
      else Ret loss_pct) st = Ret st'.
Proof.
  apply for_each_returns. intros st0 l. cbn beta.
  destruct (Py.contains "perdidos" (Py.lower l) || Py.contains "lost" (Py.lower l));
    [|eauto].
  destruct (Re.search false pat_loss l) as [m'|] eqn:Hm'; [|eauto].
  destruct (float_number _ (pat_loss_group _ _ _ Hm')) as [q' ->]. cbn. eauto.
Qed.

(** X23.  Which number the Windows branch reads as latency.  Take the
    last line of the output that carries "average" or the Portuguese
    word.  When that line is, once stripped, a text without digits
    followed by a number and "ms", the latency is that number, whatever
    follows on the line: on the summary "Minimum = 4ms, Maximum = 9ms,
    Average = 6ms" it is the minimum. *)
Theorem windows_latency_is_first_number output before line after pre a post :
  Py.splitlines output = before ++ line :: after ->
  none_selected (fun l => latency_line (Py.strip l)) after = true ->
  latency_line (Py.strip line) = true ->
  Py.strip line = pre +:+ a +:+ "ms" +:+ post ->
  no_digits pre = true ->
  is_number a = true ->
  exists v, Py.float a = Ret v /\ parsed_avg true output = Some v.
Proof.
  intros Hlines Hafter Hkey Hstrip Hpre Ha.
  destruct (float_number a Ha) as [v Hv]. exists v.
  split; [exact Hv|].
  destruct (match_at_number a post Ha) as (m & Hm & Hg).
  assert (Re.search true pat_avg_ms (Py.strip line) = Some m) as Hsearch.
  { rewrite Hstrip, search_skips by exact Hpre.
    change ("ms" +:+ post) with (String "m" (String "s" post)).
    destruct a as [|d a]; [discriminate|].
    rewrite append_cons in *. cbn [Re.search]. rewrite Hm. reflexivity. }
  unfold parsed_avg, parse_windows. rewrite Hlines, for_each_app.
  destruct (latency_loop_returns before None) as [st ->].
  cbn [bind for_each]. unfold latency_line in Hkey. rewrite Hkey, Hsearch, Hg, Hv.
  cbn [bind]. rewrite for_each_unchanged.
  2:{ intros l Hl. cbn beta zeta.
      pose proof (none_selected_elim _ _ _ Hafter Hl) as Hno.
      unfold latency_line in Hno. rewrite Hno. reflexivity. }
  cbn [bind].
  destruct (loss_loop_returns (before ++ line :: after) None) as [loss_pct ->].
  reflexivity.
Qed.

Lemma windows_latency_is_first_number_witness :
  exists v, Py.float "4" = Ret v /\ parsed_avg true windows_reply = Some v.
Proof.
  apply (windows_latency_is_first_number windows_reply
           (removelast (Py.splitlines windows_reply))
           "    Minimum = 4ms, Maximum = 9ms, Average = 6ms" []
           "Minimum = " "4" ", Maximum = 9ms, Average = 6ms").
  - vm_compute. reflexivity.
  - reflexivity.
  - vm_compute. reflexivity.
  - vm_compute. reflexivity.
  - reflexivity.
  - reflexivity.
Defined.

(** Four replies of 4, 9, 5 and 6 milliseconds: the latency reported is
    4, the average printed is 6. *)
Example windows_reply_latency :
  parsed_avg true windows_reply = Some (Py.Finite 4) /\
  Py.contains "Average = 6ms" windows_reply = true.
Proof. split; vm_compute; reflexivity. Qed.

(** At a parenthesis followed by a number and ["%"] the pattern matches,
    and its group is the number. *)
Lemma match_at_percentage a post :
  is_number a = true ->
  exists m,
    Re.match_at false pat_loss (String "(" (a +:+ String "%" post)) = Some m /\
    Re.group m 1 = a.
Proof.
  unfold is_number. intros H. apply andb_prop in H as [Hne Hd].
  destruct a as [|d a]; [discriminate|].
  cbn [all_digits] in Hd. apply andb_prop in Hd as [Hc Hd].
  set (rest := String "%" post).
  exists {| Re.group0 := Re.consumed (String "(" (String d a +:+ rest)) post;
            Re.groups := [(1, Re.consumed (String d a +:+ rest) rest)] |}.
  split.
  - unfold Re.match_at, pat_loss, Re.Plus. rewrite append_cons.
    cbn [Re.run Re.lit_matches]. unfold digit at 1. cbn [Re.run]. rewrite Hc.
    apply star_digits_greedy; [exact Hd| rewrite length_append; lia |reflexivity|].
    reflexivity.
  - cbn [Re.group Re.lookup_group Re.groups Nat.eqb]. apply consumed_append.
Qed.

Lemma search_skips_to_paren pre s :
  no_paren pre = true ->
  Re.search false pat_loss (pre +:+ s) = Re.search false pat_loss s.
Proof.
  induction pre as [|c pre IH]; intros H; [reflexivity|].
  cbn [no_paren] in H. apply andb_prop in H as [Hc H].
  apply Bool.negb_true_iff in Hc.
  rewrite append_cons. cbn [Re.search].
  assert (Re.match_at false pat_loss (String c (pre +:+ s)) = None) as ->.
  { unfold Re.match_at, pat_loss. cbn [Re.run Re.lit_matches].
    rewrite Ascii.eqb_sym, Hc. reflexivity. }
  apply IH, H.
Qed.

(** X24.  Which number the Windows branch reads as loss.  Take the last
    line of the output that carries "lost" or "perdidos".  When its
    first parenthesis opens a number followed by "%", the loss is that
    number: on "Packets: Sent = 4, Received = 0, Lost = 4 (100% loss)" it
    is 100, the value at which the probe is forced to unreachable. *)
Theorem windows_loss_is_first_percentage output before line after pre a post :
  Py.splitlines output = before ++ line :: after ->
  none_selected loss_line after = true ->
  loss_line line = true ->
  line = pre +:+ "(" +:+ a +:+ "%" +:+ post ->
  no_paren pre = true ->
  is_number a = true ->
  exists v, Py.float a = Ret v /\ parsed_loss true output = Some v.
Proof.
  intros Hlines Hafter Hkey Hline Hpre Ha.
  destruct (float_number a Ha) as [v Hv]. exists v.
  split; [exact Hv|].
  destruct (match_at_percentage a post Ha) as (m & Hm & Hg).
  assert (Re.search false pat_loss line = Some m) as Hsearch.
  { rewrite Hline, search_skips_to_paren by exact Hpre.
    change ("(" +:+ a +:+ "%" +:+ post) with (String "(" (a +:+ String "%" post)).
    cbn [Re.search]. rewrite Hm. reflexivity. }
  unfold parsed_loss, parse_windows. rewrite Hlines.
  destruct (latency_loop_returns (before ++ line :: after) None) as [avg_ms ->].
  cbn [bind]. rewrite for_each_app.
  destruct (loss_loop_returns before None) as [st ->].
  cbn [bind for_each]. unfold loss_line in Hkey. rewrite Hkey, Hsearch, Hg, Hv.
  cbn [bind]. rewrite for_each_unchanged.
  2:{ intros l Hl. cbn beta.
      pose proof (none_selected_elim _ _ _ Hafter Hl) as Hno.
      unfold loss_line in Hno. rewrite Hno. reflexivity. }
  reflexivity.
Qed.

Lemma windows_loss_is_first_percentage_witness :
  exists v,
    Py.float "100" = Ret v /\
    parsed_loss true (output_of reply_all_lost) = Some v.
Proof.
  apply (windows_loss_is_first_percentage (output_of reply_all_lost)
           ["Reply from 10.0.0.1: Destination host unreachable."]
           "    Packets: Sent = 4, Received = 0, Lost = 4 (100% loss)," []
           "    Packets: Sent = 4, Received = 0, Lost = 4 " "100" " loss),").
  - vm_compute. reflexivity.
  - reflexivity.
  - vm_compute. reflexivity.
  - reflexivity.
  - reflexivity.
  - reflexivity.
Defined.

(** * The suspicious flag, the record and the roster *)

(** ** The flag [suspicious] *)

Lemma float_gt_exceeds v bound : Py.float_gt v bound = true <-> exceeds v bound.
Proof.
  assert (forall a b, negb (Qle_bool a b) = true <-> (b < a)%Q) as Hlt.
  { intros a b. destruct (Qle_bool a b) eqn:Hle; cbn.
    - apply Qle_bool_iff in Hle. split; [discriminate|].
      intros H. exfalso. exact (Qlt_not_le _ _ H Hle).
    - split; [|reflexivity]. intros _. apply Qnot_le_lt. intros Hle'.
      apply Qle_bool_iff in Hle'. congruence. }
  destruct v as [q| |negative|]; cbn [Py.float_gt exceeds].
  - apply Hlt.
  - apply Hlt.
  - destruct negative; cbn; split; congruence.
  - split; [discriminate|intros []].
Qed.

Lemma prefix_begins pre s : String.prefix pre s = true <-> begins_with s pre.
Proof.
  unfold begins_with. revert s. induction pre as [|c pre IH]; intros s.
  - split; [intros _; exists s; reflexivity|]. intros _. destruct s; reflexivity.
  - destruct s as [|d s]; cbn [String.prefix].
    + split; [discriminate|]. intros [rest H]. rewrite append_cons in H.
      discriminate.
    + destruct (Ascii.ascii_dec c d) as [->|Hne].
      * rewrite IH. split; intros [rest H]; exists rest.
        -- rewrite append_cons, H. reflexivity.
        -- rewrite append_cons in H. injection H as ->. reflexivity.
      * split; [discriminate|]. intros [rest H]. rewrite append_cons in H.
        injection H as <- _. contradiction.
Qed.

Section Suspicious.
Variables is_windows mac_tracking_enabled : bool.

(** C10 (amended).  The report of a camera carries the flag
    [suspicious].  It is computed from the first probe, the one of the
    configured address: it is true exactly when that probe was answered,
    an average latency was parsed from it and exceeds 500, and the
    configured address begins with "192.168.", "10." or "172.".  A
    flagged report says up at the configured address with that very
    latency; a report flagged as relocated is never flagged suspicious,
    whatever the latency of the address it reports. *)
Theorem report_suspicious_flag (w : world) cache updated c :
  exists p report cache' updated',
    first_probe is_windows w c = Ret p /\
    camera_step is_windows mac_tracking_enabled w cache updated c
    = Ret (report, cache', updated') /\
    (Report.suspicious report = true <->
     reachable_of p = true /\
     (exists v, avg_ms_of p = Some v /\ exceeds v 500) /\
     (exists pre, In pre ["192.168."; "10."; "172."] /\
                  begins_with (Camera.ip c) pre)) /\
    (Report.suspicious report = true ->
     Report.status report = "up" /\
     Report.ip report = Camera.ip c /\
     Report.latency_ms report = avg_ms_of p /\
     Report.ip_changed report = false) /\
    (Report.ip_changed report = true -> Report.suspicious report = false).
Proof.
  destruct (camera_step_shape is_windows mac_tracking_enabled w cache updated c)
    as (p & l & Hp & Hstep & Hshape).
  exists p. do 3 eexists. split; [exact Hp|]. split; [exact Hstep|].
  cbn [report_of Report.suspicious Report.status Report.ip Report.latency_ms
       Report.ip_changed].
  assert (is_suspicious (reachable_of p) (avg_ms_of p) (Camera.ip c) = true <->
          reachable_of p = true /\
          (exists v, avg_ms_of p = Some v /\ exceeds v 500) /\
          (exists pre, In pre ["192.168."; "10."; "172."] /\
                       begins_with (Camera.ip c) pre)) as Hiff.
  { rewrite is_suspicious_iff. split.
    - intros (Hr & (v & Hv & Hgt) & (pre & Hin & Hpre)).
      split; [exact Hr|]. split.
      + exists v. split; [exact Hv | apply float_gt_exceeds, Hgt].
      + exists pre. split; [exact Hin | apply prefix_begins, Hpre].
    - intros (Hr & (v & Hv & Hgt) & (pre & Hin & Hpre)).
      split; [exact Hr|]. split.
      + exists v. split; [exact Hv | apply float_gt_exceeds, Hgt].
      + exists pre. split; [exact Hin | apply prefix_begins, Hpre]. }
  split; [exact Hiff|].
  assert (is_suspicious (reachable_of p) (avg_ms_of p) (Camera.ip c) = true ->
          reachable_of p = true) as Hreach.
  { intros H. apply Hiff in H as [H _]. exact H. }
  destruct Hshape as [-> | [(_ & Hr & ma & _ & _ & ->)
                           | (_ & Hr & e & new_ip & p' & _ & _ & _ & _ & ->)]];
    cbn [locals_of locals_online locals_relocated Locals.reachable Locals.ip
         Locals.avg_ms Locals.ip_changed].
  - split; [|discriminate]. intros H. rewrite (Hreach H). auto.
  - split; [|discriminate]. intros H. rewrite Hr. auto.
  - split.
    + intros H. rewrite (Hreach H) in Hr. discriminate.
    + intros _. destruct (is_suspicious _ _ _); [|reflexivity].
      rewrite (Hreach eq_refl) in Hr. discriminate.
Qed.
End Suspicious.

(** C10 (counterexample).  The camera cached at 10.0.0.5 is silent there,
    the sweep finds it at 10.0.0.9 and the probe of 10.0.0.9 is answered
    after 700 ms: the report says up at an address that begins with
    "10.", with a latency above 500, and is not flagged. *)
Lemma relocated_slow_camera_not_flagged :
  exists report cache' updated',
    camera_step true true (world_moved reply_700ms) known_cache false camera_5
    = Ret (report, cache', updated') /\
    Report.status report = "up" /\
    Report.latency_ms report = Some (Py.Finite 700) /\
    exceeds (Py.Finite 700) 500 /\
    begins_with (Report.ip report) "10." /\
    Report.suspicious report = false.
Proof.
  do 3 eexists. split; [vm_compute; reflexivity|].
  split; [reflexivity|]. split; [reflexivity|]. split; [reflexivity|].
  split; [exists "0.0.9"; reflexivity | reflexivity].
Qed.

(** ** The two records of the cache *)

Lemma Ret_inj {A : Type} (a b : A) : Ret a = Ret b -> a = b.
Proof. intros [= H]. exact H. Qed.

Section Recording.
Variable is_windows : bool.

(** C3 (amended).  For a camera already cached with a hardware address.
    When the camera answers at its configured address and that address
    resolves to the same hardware address, the entry is left exactly as
    it is: neither the last address nor the time of the last sighting is
    refreshed, and the flag of the cache is not raised.  When it resolves
    to a different one, the entry is replaced by that hardware address,
    the configured address and the current time.  The record of a
    relocation (the sweep found the cached hardware address elsewhere
    and the probe there was answered) keeps the hardware address and
    sets the last address to the found one and the time to the current
    time. *)
Theorem record_same_or_different (w : world) cache updated c e :
  cache !! cam_key c = Some e ->
  exists report cache' updated',
    camera_step is_windows true w cache updated c = Ret (report, cache', updated') /\
    (forall m,
        sighted_in_place is_windows w c m ->
        (Entry.mac e = m -> cache' = cache /\ updated' = updated) /\
        (Entry.mac e <> m ->
         cache' = <[cam_key c := entry_at m (Camera.ip c) (time_time w)]> cache /\
         updated' = true)) /\
    (forall new_ip p',
        sweep_finds is_windows w c cache e new_ip ->
        ping_ip is_windows (subprocess_run w) new_ip 4 1000 2 = Ret p' ->
        reachable_of p' = true ->
        cache' = <[cam_key c := entry_at (Entry.mac e) new_ip (time_time w)]> cache /\
        updated' = true).
Proof.
  intros He.
  destruct (ping_ip_returns is_windows (subprocess_run w) (Camera.ip c) 4 1000 2)
    as [p Hp].
  rewrite (camera_step_unfold _ _ w cache updated c p Hp).
  change {| Locals.reachable := reachable_of p;
            Locals.avg_ms := avg_ms_of p;
            Locals.loss := loss_of p;
            Locals.ip := Camera.ip c;
            Locals.mac_address := None;
            Locals.ip_changed := false;
            Locals.mac_cache := cache;
            Locals.mac_cache_updated := updated |}
    with (locals_of p c cache updated).
  unfold track.
  assert (Locals.reachable (locals_of p c cache updated) = reachable_of p) as ->
      by reflexivity.
  assert (Locals.mac_cache (locals_of p c cache updated) = cache) as ->
      by reflexivity.
  destruct (reachable_of p) eqn:Hreach.
  - destruct (track_online_eq is_windows w p c cache updated)
      as (ma & Hres & _ & ->).
    cbn [bind]. do 3 eexists. split; [reflexivity|]. split.
    + intros m (_ & Hm & _). rewrite Hres in Hm. injection Hm as ->.
      cbn [locals_online Locals.mac_cache Locals.mac_cache_updated].
      unfold record, entry_at. rewrite He.
      destruct (String.eqb_spec (Entry.mac e) m) as [Heq|Hne]; cbn [negb fst snd].
      * split; [auto|]. intros H. contradiction.
      * split; [intros H; contradiction|auto].
    + intros new_ip p' ((p0 & Hp0 & Hr0) & _).
      unfold first_probe in Hp0. rewrite Hp in Hp0. injection Hp0 as <-.
      congruence.
  - rewrite He.
    destruct (track_offline_cases is_windows w (cam_key c) e
                (locals_of p c cache updated))
      as [Hoff | (ip1 & p1 & _ & _ & _ & _ & Hoff)]; rewrite Hoff;
      cbn [bind]; do 3 eexists; (split; [reflexivity|]); split.
    1,3: intros m ((p0 & Hp0 & Hr0) & _); unfold first_probe in Hp0;
         rewrite Hp in Hp0; injection Hp0 as <-; congruence.
    all: intros new_ip p' (_ & _ & Hmac & Hlen & Hscan & Hne) Hp' Hreach';
      destruct (track_offline_eq is_windows w c e new_ip
                  (locals_of p c cache updated) eq_refl Hmac Hlen Hscan Hne)
        as (p2 & [[Hp2 Heq] | Hbad]); [|exfalso; apply Hbad; reflexivity];
      rewrite Hp' in Hp2; injection Hp2 as <-;
      rewrite Hoff in Heq; apply Ret_inj in Heq; rewrite Heq;
      cbn [locals_relocated Locals.mac_cache Locals.mac_cache_updated];
      rewrite Hreach'; auto.
Qed.
End Recording.

(** The cached camera answers and resolves to the cached hardware address
    at time 200. *)
Lemma record_same_or_different_witness :
  exists report cache' updated',
    camera_step true true (world_primed 200) known_cache false camera_5
    = Ret (report, cache', updated') /\
    (forall m,
        sighted_in_place true (world_primed 200) camera_5 m ->
        (Entry.mac known_entry = m -> cache' = known_cache /\ updated' = false) /\
        (Entry.mac known_entry <> m ->
         cache' = <["cam1" := entry_at m "10.0.0.5" 200]> known_cache /\
         updated' = true)) /\
    (forall new_ip p',
        sweep_finds true (world_primed 200) camera_5 known_cache known_entry new_ip ->
        ping_ip true sp_primed new_ip 4 1000 2 = Ret p' ->
        reachable_of p' = true ->
        cache' = <["cam1" := entry_at "AA:BB:CC:DD:EE:FF" new_ip 200]> known_cache /\
        updated' = true).
Proof.
  apply (record_same_or_different true (world_primed 200) known_cache false
           camera_5 known_entry).
  reflexivity.
Defined.

(** ** The camera loop on the roster *)


Section RosterReports.
Variable py_str : json -> string.
Variables is_windows mac_tracking_enabled : bool.





(** [str(cam_id)] on the dictionaries [Camera.t] stands for. *)
Lemma cam_key_value id name s i n :
  (forall s, py_str (JStr s) = s) ->
  str_value id = Some i ->
  str_value name = Some n ->
  py_str (json_or (json_or id name) (JStr s))
  = cam_key {| Camera.id := i; Camera.name := n; Camera.ip := s |}.
Proof.
  intros Hstr Hi Hn.
  unfold cam_key, or_else, Py.truthy_opt, json_or.
  cbn [Camera.ip Camera.name Camera.id].
  destruct id; try discriminate; destruct name; try discriminate;
    injection Hi as <-; injection Hn as <-;
    repeat (cbn [json_truthy];
            match goal with
            | H : Py.truthy ?x = _ |- context [Py.truthy ?x] => rewrite H
            | |- context [Py.truthy ?x] => destruct (Py.truthy x) eqn:?
            end);
    cbn [json_truthy str_opt]; rewrite ?Hstr; reflexivity.
Qed.

(** On the dictionaries [Camera.t] stands for, the body of the loop is
    the typed one. *)
Lemma camera_step_value_typed (w : world) cache updated c cam :
  (forall s, py_str (JStr s) = s) ->
  camera_of c = Some cam ->
  camera_step_value py_str is_windows mac_tracking_enabled w cache updated c
  = ('(r, cache', updated') <-
       camera_step is_windows mac_tracking_enabled w cache updated cam;;
     Ret (report_json r, cache', updated')).
Proof.
  intros Hstr Hcam. unfold camera_of in Hcam.
  destruct (dict_get c "ip") as [| | | |s| |] eqn:Hip; try discriminate.
  destruct (str_value (dict_get c "name")) as [n|] eqn:Hname; try discriminate.
  destruct (str_value (dict_get c "id")) as [i|] eqn:Hid; try discriminate.
  injection Hcam as <-.
  assert (dict_get c "name" = string_value n) as Hn.
  { destruct (dict_get c "name"); try discriminate; injection Hname as <-;
      reflexivity. }
  unfold camera_step_value, camera_step. cbv zeta. rewrite Hip.
  rewrite (cam_key_value _ _ s i n Hstr Hid Hname), Hn.
  cbn [Camera.ip].
  destruct (ping_ip is_windows (subprocess_run w) s 4 1000 2)
    as [[[[reachable avg_ms] loss] out]|e]; [|reflexivity].
  cbn [bind].
  match goal with |- context [track ?a ?b ?c0 ?k ?l0] =>
    destruct (track a b c0 k l0) as [l|e]; [|reflexivity]
  end.
  cbn [bind]. unfold report_of, report_json, report_value.
  cbn [Report.name Report.ip Report.status Report.latency_ms Report.packet_loss
       Report.suspicious Report.mac_address Report.ip_changed Report.old_ip
       Camera.ip Camera.name Camera.id].
  destruct (Locals.ip_changed l); reflexivity.
Qed.
End RosterReports.



(** ** [float] on the texts of the summary lines *)

(** A literal between two doubles is the nearer one; beyond the largest
    double it is infinity; a control character is no white space of
    [float]. *)
Example float_rounds_to_nearest :
  Py.float "99.99999999999999999" = Ret (Py.Finite 100) /\
  Py.float "500.00000000000000001" = Ret (Py.Finite 500) /\
  Py.float "1e400" = Ret (Py.Inf false) /\
  Py.float " 7.5 " = Ret (Py.Finite (15 # 2)) /\
  Py.float (String (ascii_of_N 31) "7")
  = Raise (Exception ("could not convert string to float: '"
                      +:+ String (ascii_of_N 31) "7" +:+ "'")).
Proof. repeat split; vm_compute; reflexivity. Qed.

(** A loss that rounds to 100 is a total loss: the prober reports the
    address as unreachable although the command exited with 0. *)
Example loss_rounding_to_100_is_total :
  exists tail,
    ping_ip false
            (fun _ _ => Ret (proc_of 0 "64 bytes from 10.0.0.5: 99.99999999999999999% packet loss"))
            "10.0.0.5" 4 1000 2
    = Ret (false, None, None, tail).
Proof. eexists. vm_compute. reflexivity. Qed.
